(** * Feature styling and label synchronisation of the polygon editor

    A shallow embedding of the styling / label-synchronisation core of
    [Mapbox/src/components/MapboxMap.tsx] (and of the centroid helper of
    [Leaflet/src/components/LeafletMap.tsx]), with the properties of the
    specification stated and settled over it.

    Conventions of the embedding.
    - A JavaScript [number] is an exact rational ([Q]); NaN and the
      infinities only appear as the [None] result of [parseInt], and the
      rounding of binary64 arithmetic is not modelled.
    - A JavaScript string is a [string]: a sequence of code units below 256.
    - A property bag ([feature.properties]) is a finite map from keys to
      JSON primitives ([gmap string JValue]); an absent key reads as
      [undefined].
    - The map engine and the draw plugin are external: they are modelled
      by the state their documented operations act on ([MapEngine], [Draw]).
    - A function of the component gives the run in which no call of these
      libraries raises; the functions of [Raising] give, for the calls made
      outside any [try], the runs in which one does. *)

From Stdlib Require Import ZArith QArith Qround Qabs Qminmax String Ascii List Bool Lia.
From Stdlib Require Import DecimalString DecimalZ Lqa.
From stdpp Require Import base option gmap strings list.

Set Warnings "-register-all".

(** ** JavaScript values and the built-ins the component relies on *)

Module JS.

(** JSON primitives held by a property bag. *)
Inductive JValue : Type :=
| JNull
| JBool (b : bool)
| JNum (q : Q)
| JStr (s : string).

(** [ToBoolean]; [None] is [undefined]. *)
Definition truthy (v : option JValue) : bool :=
  match v with
  | None => false
  | Some JNull => false
  | Some (JBool b) => b
  | Some (JNum q) => negb (Qeq_bool q 0)
  | Some (JStr s) => negb (String.eqb s "")
  end.

(** [s.replace(c, '')] for a one-character pattern: only the first
    occurrence is removed. *)
Fixpoint removeFirst (c : ascii) (s : string) : string :=
  match s with
  | EmptyString => EmptyString
  | String a rest =>
      if Ascii.eqb a c then rest else String a (removeFirst c rest)
  end.

(** [s.substring(start, stop)] for [start <= stop]; indices past the end
    are clamped. *)
Definition substring (s : string) (start stop : nat) : string :=
  String.substring start (stop - start) s.

(** White space skipped by [parseInt] (TAB, LF, VT, FF, CR, SP, NBSP). *)
Definition isWhiteSpace (c : ascii) : bool :=
  let n := nat_of_ascii c in
  (n =? 9)%nat || (n =? 10)%nat || (n =? 11)%nat || (n =? 12)%nat
  || (n =? 13)%nat || (n =? 32)%nat || (n =? 160)%nat.

Definition hexDigitValue (c : ascii) : option Z :=
  let n := Z.of_nat (nat_of_ascii c) in
  if (48 <=? n)%Z && (n <=? 57)%Z then Some (n - 48)%Z
  else if (97 <=? n)%Z && (n <=? 102)%Z then Some (n - 87)%Z
  else if (65 <=? n)%Z && (n <=? 70)%Z then Some (n - 55)%Z
  else None.

Fixpoint trimStart (s : string) : string :=
  match s with
  | String c rest => if isWhiteSpace c then trimStart rest else s
  | EmptyString => s
  end.

(** Value of the longest prefix of radix-16 digits; [acc] is [None]
    while no digit has been read. *)
Fixpoint digitsPrefix (s : string) (acc : option Z) : option Z :=
  match s with
  | String c rest =>
      match hexDigitValue c with
      | Some d => digitsPrefix rest (Some (16 * default 0%Z acc + d)%Z)
      | None => acc
      end
  | EmptyString => acc
  end.

(** [parseInt(s, 16)]: leading white space, an optional sign, an
    optional [0x]/[0X] prefix, then the longest run of hex digits.
    [None] is NaN; [-0] is not told apart from [0] (both are falsy). *)
Definition parseInt16 (s : string) : option Z :=
  let s1 := trimStart s in
  let '(sign, s2) :=
    match s1 with
    | String c rest =>
        if Ascii.eqb c "-" then ((-1)%Z, rest)
        else if Ascii.eqb c "+" then (1%Z, rest)
        else (1%Z, s1)
    | EmptyString => (1%Z, s1)
    end in
  let s3 :=
    match s2 with
    | String c0 (String c1 rest) =>
        if Ascii.eqb c0 "0" && (Ascii.eqb c1 "x" || Ascii.eqb c1 "X") then rest else s2
    | _ => s2
    end in
  match digitsPrefix s3 None with
  | None => None
  | Some m => Some (sign * m)%Z
  end.

(** [n || fallback] on a number: NaN and zero are falsy. *)
Definition orElse (n : option Z) (fallback : Z) : Z :=
  match n with
  | None => fallback
  | Some 0%Z => fallback
  | Some z => z
  end.

(** [String(n)] for an integer, as a template literal renders it. *)
Definition numberToString (z : Z) : string :=
  NilZero.string_of_int (Z.to_int z).

End JS.

Export JS.

#[global] Instance Q_eq_dec : EqDecision Q.
Proof. solve_decision. Defined.

#[global] Instance JValue_eq_dec : EqDecision JValue.
Proof. solve_decision. Defined.

(** ** Hex colour to decimal RGB

    The same five lines occur in the [draw.create] handler, in
    [getDrawData], in [changeSelectedFill] and in [applyFillToAll]:

    [const hex = (color || '#ffffff').replace('#','');]
    [const r = parseInt(hex.substring(0,2),16) || 255;]  (same for g, b)
    [fillRgb = `${r},${g},${b}`] *)

Definition hexToRgb (color : string) : string :=
  let hex := removeFirst "#" (if String.eqb color "" then "#ffffff" else color) in
  let r := orElse (parseInt16 (substring hex 0 2)) 255 in
  let g := orElse (parseInt16 (substring hex 2 4)) 255 in
  let b := orElse (parseInt16 (substring hex 4 6)) 255 in
  numberToString r +:+ "," +:+ numberToString g +:+ "," +:+ numberToString b.

(** The same computation when the colour is read back from a property
    bag, where it need not be a string: [.replace] on a truthy
    non-string raises a [TypeError] ([None]). *)
Definition hexToRgbOf (v : option JValue) : option string :=
  if truthy v then
    match v with
    | Some (JStr s) => Some (hexToRgb s)
    | _ => None
    end
  else Some (hexToRgb "#ffffff").

(** The decomposition as the specification words it: the three channels
    of [#rrggbb] read as hexadecimal and written in decimal, and full
    white when the input is not of that form. *)
Definition spec_fillRgb (color : string) : string :=
  match color with
  | String "#" (String r1 (String r0 (String g1 (String g0
      (String b1 (String b0 EmptyString)))))) =>
      match hexDigitValue r1, hexDigitValue r0, hexDigitValue g1,
            hexDigitValue g0, hexDigitValue b1, hexDigitValue b0 with
      | Some r1, Some r0, Some g1, Some g0, Some b1, Some b0 =>
          numberToString (16 * r1 + r0) +:+ "," +:+
          numberToString (16 * g1 + g0) +:+ "," +:+
          numberToString (16 * b1 + b0)
      | _, _, _, _, _, _ => "255,255,255"
      end
  | _ => "255,255,255"
  end.

(** ** GeoJSON data *)

(** A position, at the type the source casts it to: [[number, number]],
    longitude first. *)
Definition Position : Type := (Q * Q)%type.

Inductive Geometry : Type :=
| Point (p : Position)
| MultiPoint (ps : list Position)
| LineString (ps : list Position)
| MultiLineString (lines : list (list Position))
| Polygon (rings : list (list Position))
| MultiPolygon (polygons : list (list (list Position)))
| GeometryCollection (geometries : list Geometry).

Record Feature : Type := mkFeature {
  f_id : option string;
  f_geometry : option Geometry;
  f_properties : option (gmap string JValue)
}.

(** A [FeatureCollection] is its [features] array. *)
Definition FeatureCollection : Type := list Feature.

Definition emptyCollection : FeatureCollection := [].

(** [f.properties || {}] *)
Definition propsOf (f : Feature) : gmap string JValue :=
  default ∅ (f_properties f).

(** [f?.properties?.[key]] *)
Definition getProp (key : string) (f : Feature) : option JValue :=
  f_properties f ≫= (.!! key).

Definition withProperties (f : Feature) (props : gmap string JValue) : Feature :=
  {| f_id := f_id f; f_geometry := f_geometry f; f_properties := Some props |}.

(** [f.geometry && (f.geometry.type === 'Polygon' || f.geometry.type === 'MultiPolygon')] *)
Definition isPolygonal (f : Feature) : bool :=
  match f_geometry f with
  | Some (Polygon _) | Some (MultiPolygon _) => true
  | _ => false
  end.

(** ** Geometry utilities *)

(** The [coordinates] member as the untyped nested array that
    [findCoordinate] walks. *)
Inductive Coords : Type :=
| CNum (q : Q)
| CArr (items : list Coords).

Definition positionCoords (p : Position) : Coords := CArr [CNum p.1; CNum p.2].
Definition lineCoords (ps : list Position) : Coords := CArr (positionCoords <$> ps).
Definition ringsCoords (rings : list (list Position)) : Coords := CArr (lineCoords <$> rings).

Definition coordinatesOf (g : Geometry) : option Coords :=
  match g with
  | Point p => Some (positionCoords p)
  | MultiPoint ps | LineString ps => Some (lineCoords ps)
  | MultiLineString rings | Polygon rings => Some (ringsCoords rings)
  | MultiPolygon polygons => Some (CArr (ringsCoords <$> polygons))
  | GeometryCollection _ => None
  end.

Fixpoint findCoordinate (value : Coords) : option Position :=
  match value with
  | CNum _ => None
  | CArr (CNum x :: CNum y :: _) => Some (x, y)
  | CArr items =>
      (fix firstOf (l : list Coords) : option Position :=
         match l with
         | [] => None
         | item :: rest =>
             match findCoordinate item with
             | Some coord => Some coord
             | None => firstOf rest
             end
         end) items
  end.

Fixpoint getCoordinateFromGeometry (geometry : Geometry) : option Position :=
  match geometry with
  | GeometryCollection geometries =>
      (fix firstOf (l : list Geometry) : option Position :=
         match l with
         | [] => None
         | child :: rest =>
             match getCoordinateFromGeometry child with
             | Some coordinate => Some coordinate
             | None => firstOf rest
             end
         end) geometries
  | _ => coordinatesOf geometry ≫= findCoordinate
  end.

Definition getFirstCoordinate (feature : Feature) : option Position :=
  f_geometry feature ≫= getCoordinateFromGeometry.

(** [mapboxgl.LngLatBounds]: a south-west and a north-east corner. *)
Record Bounds : Type := mkBounds { sw : Position; ne : Position }.

(** [bounds.extend(coordinate)] for a coordinate [mapboxgl.LngLat]
    accepts; [Raising.extend] has the refusal. *)
Definition extend (b : Bounds) (c : Position) : Bounds :=
  {| sw := (Qmin (sw b).1 c.1, Qmin (sw b).2 c.2);
     ne := (Qmax (ne b).1 c.1, Qmax (ne b).2 c.2) |}.

Fixpoint extendBoundsWithGeometry (bounds : Bounds) (geometry : Geometry) : Bounds :=
  match geometry with
  | Point p => extend bounds p
  | MultiPoint ps | LineString ps => fold_left extend ps bounds
  | MultiLineString lines | Polygon lines =>
      fold_left (fun b line => fold_left extend line b) lines bounds
  | MultiPolygon polygons =>
      fold_left
        (fun b polygon => fold_left (fun b line => fold_left extend line b) polygon b)
        polygons bounds
  | GeometryCollection geometries =>
      (fix each (l : list Geometry) (b : Bounds) : Bounds :=
         match l with
         | [] => b
         | child :: rest => each rest (extendBoundsWithGeometry b child)
         end) geometries bounds
  end.

Definition extendBoundsWithFeature (bounds : Bounds) (feature : Feature) : Bounds :=
  match f_geometry feature with
  | None => bounds
  | Some geometry => extendBoundsWithGeometry bounds geometry
  end.

(** The bounds [fitToCollection] hands to [map.fitBounds]; [None] when it
    returns without fitting. *)
Definition collectionBounds (collection : FeatureCollection) : option Bounds :=
  match collection with
  | [] => None
  | first :: _ =>
      match getFirstCoordinate first with
      | None => None
      | Some firstCoordinate =>
          Some (fold_left extendBoundsWithFeature collection
                  (mkBounds firstCoordinate firstCoordinate))
      end
  end.

(** One step of the centroid loop: [point && point.length >= 2]. *)
Definition centroidStep (acc : Q * Q * nat) (point : list Q) : Q * Q * nat :=
  match point with
  | x :: y :: _ => ((acc.1.1 + x)%Q, (acc.1.2 + y)%Q, S acc.2)
  | _ => acc
  end.

Module Mapbox.

(** [calculatePolygonCentroid(coordinates: number[][][])] of
    [MapboxMap.tsx]: the mean of the positions listed in the first ring. *)
Definition calculatePolygonCentroid (coordinates : list (list (list Q)))
  : option (Q * Q) :=
  match coordinates with
  | [] => None
  | [] :: _ => None
  | ring :: _ =>
      let '(totalX, totalY, pointCount) := fold_left centroidStep ring (0%Q, 0%Q, 0%nat) in
      match pointCount with
      | O => None
      | _ => Some ((totalX / inject_Z (Z.of_nat pointCount))%Q,
                   (totalY / inject_Z (Z.of_nat pointCount))%Q)
      end
  end.

End Mapbox.

Module Leaflet.

(** [calculatePolygonCentroid(ring: number[][])] of [LeafletMap.tsx]. *)
Definition calculatePolygonCentroid (ring : list (list Q)) : option (Q * Q) :=
  match ring with
  | [] => None
  | _ =>
      let '(sx, sy, count) := fold_left centroidStep ring (0%Q, 0%Q, 0%nat) in
      match count with
      | O => None
      | _ => Some ((sx / inject_Z (Z.of_nat count))%Q, (sy / inject_Z (Z.of_nat count))%Q)
      end
  end.

End Leaflet.

(** [geometry.coordinates as number[][][]] *)
Definition asNumberArrays (rings : list (list Position)) : list (list (list Q)) :=
  map (map (fun p : Position => [p.1; p.2])) rings.

(** The ring of the specification's centroid example. *)
Definition squareRing : list (list Q) :=
  [[0; 0]; [0; 2]; [2; 2]; [2; 0]; [0; 0]]%Q.

(** ** The component

    [Math.atan2], [Math.PI] and the draw plugin's random identifier source
    ([hat()], by the number of identifiers drawn so far) are taken as
    given. *)

Section Core.

Context (atan2 : Q -> Q -> Q) (PI : Q) (hat : nat -> string).

(** *** Vertex and label sampler *)

Record VertEntry : Type := mkVertEntry { coord : Position; angle : Q }.

Definition computeVertexAngle (curr : Position) (prev next : option Position) : Q :=
  let '(dx, dy) :=
    match next, prev with
    | Some n, _ => (n.1 - curr.1, n.2 - curr.2)%Q
    | None, Some p => (curr.1 - p.1, curr.2 - p.2)%Q
    | None, None => (0, 0)%Q
    end in
  let rad := atan2 dy dx in
  ((rad * 180) / PI)%Q.

(** The loop over a line: [prev] and [next] are [null] at the ends. *)
Definition lineEntries (coords : list Position) : list VertEntry :=
  imap (fun i c =>
          let prev := if (0 <? i)%nat then coords !! (i - 1)%nat else None in
          let next := coords !! (i + 1)%nat in
          mkVertEntry c (computeVertexAngle c prev next)) coords.

(** The loop over an outer ring: indices wrap around. *)
Definition ringEntries (ring : list Position) : list VertEntry :=
  let len := length ring in
  imap (fun i c =>
          let prev :=
            if (0 <? i)%nat then ring !! (i - 1)%nat
            else match (if (2 <=? len)%nat then ring !! (len - 2)%nat else None) with
                 | Some p => Some p
                 | None => ring !! (len - 1)%nat
                 end in
          let next := ring !! ((i + 1) mod len)%nat in
          mkVertEntry c (computeVertexAngle c prev next)) ring.

(** [collectVertexEntriesFromGeometry(geometry, out)]; the result is
    [out] after the pushes. *)
Fixpoint collectVertexEntriesFromGeometry (geometry : Geometry) (out : list VertEntry)
  : list VertEntry :=
  match geometry with
  | Point p => out ++ [mkVertEntry p 0%Q]
  | MultiPoint coords | LineString coords => out ++ lineEntries coords
  | MultiLineString lines =>
      fold_left (fun o line => o ++ lineEntries line) lines out
  | Polygon rings =>
      match rings with
      | [] => out
      | ring :: _ => out ++ ringEntries ring
      end
  | MultiPolygon polygons =>
      fold_left (fun o polygon =>
                   match polygon with
                   | [] => o
                   | ring :: _ => o ++ ringEntries ring
                   end) polygons out
  | GeometryCollection geometries =>
      (fix each (l : list Geometry) (o : list VertEntry) : list VertEntry :=
         match l with
         | [] => o
         | g :: rest => each rest (collectVertexEntriesFromGeometry g o)
         end) geometries out
  end.

(** The first loop of [extractVertexEntriesFromFeatureCollection]. *)
Definition collectVertexEntries (collection : FeatureCollection) : list VertEntry :=
  fold_left (fun entries feature =>
               match f_geometry feature with
               | None => entries
               | Some geometry => collectVertexEntriesFromGeometry geometry entries
               end) collection [].

Definition padStart (width : nat) (s : string) : string :=
  String.concat "" (replicate (width - String.length s) "0") +:+ s.

(** [x.toFixed(6)]: the sign, then the nearest multiple of 10^-6 (ties
    upwards in magnitude) written with six decimals.  The exponent
    notation JavaScript switches to from 10^21 on is not modelled. *)
Definition toFixed6 (x : Q) : string :=
  let n := Qfloor (Qabs x * 1000000 + (1 # 2))%Q in
  let m := numberToString (n / 1000000) +:+ "." +:+
           padStart 6 (numberToString (n mod 1000000)) in
  if Qlt_le_dec x 0 then "-" +:+ m else m.

Definition vertexKey (e : VertEntry) : string :=
  toFixed6 (coord e).1 +:+ "|" +:+ toFixed6 (coord e).2.

(** The deduplication loop, with its [seen] set and [unique] array. *)
Fixpoint dedupLoop (entries : list VertEntry) (seen : gset string)
    (unique : list VertEntry) : list VertEntry :=
  match entries with
  | [] => unique
  | e :: rest =>
      let key := vertexKey e in
      if decide (key ∈ seen) then dedupLoop rest seen unique
      else dedupLoop rest ({[key]} ∪ seen) (unique ++ [e])
  end.

Definition extractVertexEntriesFromFeatureCollection (collection : FeatureCollection)
  : list VertEntry :=
  dedupLoop (collectVertexEntries collection) ∅ [].

Definition buildPointFeaturesFromVertices (entries : list VertEntry) : FeatureCollection :=
  imap (fun idx e =>
          {| f_id := Some ("vertex-label-" +:+ numberToString (Z.of_nat idx));
             f_properties :=
               Some (<["label" := JStr (toFixed6 (coord e).2 +:+ ", " +:+ toFixed6 (coord e).1)]>
                       (<["angle" := JNum (angle e)]> ∅));
             f_geometry := Some (Point (coord e)) |}) entries.

Record Tier : Type := mkTier {
  tier_id : nat;
  tier_minzoom : Z;
  tier_cellDeg : Q;
  tier_textSizeRange : Z * Z
}.

(** The four tiers; [cellDeg] is 0.06, 0.02, 0.005 and 0.0015. *)
Definition tiers : list Tier :=
  [ mkTier 0 0 (6 # 100) (8, 10)%Z;
    mkTier 1 8 (2 # 100) (9, 12)%Z;
    mkTier 2 12 (5 # 1000) (11, 14)%Z;
    mkTier 3 14 (15 # 10000) (13, 16)%Z ].

(** The grid cell of a vertex.  The source keys the cell by the string
    [`${kx}|${ky}`], which determines and is determined by the pair. *)
Definition cellKey (cellDeg : Q) (e : VertEntry) : Z * Z :=
  (Qfloor ((coord e).1 / cellDeg), Qfloor ((coord e).2 / cellDeg)).

Definition cellKey_eqb (k1 k2 : Z * Z) : bool :=
  (k1.1 =? k2.1)%Z && (k1.2 =? k2.2)%Z.

(** The loop of [sampleByGrid]; [seen] is the insertion-ordered [Map]. *)
Fixpoint sampleLoop (cellDeg : Q) (entries : list VertEntry)
    (seen : list ((Z * Z) * VertEntry)) : list ((Z * Z) * VertEntry) :=
  match entries with
  | [] => seen
  | e :: rest =>
      let key := cellKey cellDeg e in
      if existsb (fun kv => cellKey_eqb kv.1 key) seen
      then sampleLoop cellDeg rest seen
      else sampleLoop cellDeg rest (seen ++ [(key, e)])
  end.

Definition sampleByGrid (entries : list VertEntry) (cellDeg : Q) : list VertEntry :=
  snd <$> sampleLoop cellDeg entries [].

(** *** The map engine: sources, the layer stack (bottom first) and the
    bounds it was asked to fit *)

Record Layer : Type := mkLayer {
  layer_id : string;
  layer_type : string;
  layer_source : string;
  layer_minzoom : option Z;
  layer_allowOverlap : option bool
}.

Record MapEngine : Type := mkMap {
  sources : gmap string FeatureCollection;
  layers : list Layer;
  fitted : list Bounds
}.

Definition getLayer (id : string) (m : MapEngine) : option Layer :=
  find (fun l => String.eqb (layer_id l) id) (layers m).

Definition getSource (id : string) (m : MapEngine) : option FeatureCollection :=
  sources m !! id.

Definition removeLayer (id : string) (m : MapEngine) : MapEngine :=
  mkMap (sources m) (List.filter (fun l => negb (String.eqb (layer_id l) id)) (layers m))
        (fitted m).

Definition removeSource (id : string) (m : MapEngine) : MapEngine :=
  mkMap (delete id (sources m)) (layers m) (fitted m).

Definition addSource (id : string) (data : FeatureCollection) (m : MapEngine) : MapEngine :=
  mkMap (<[id := data]> (sources m)) (layers m) (fitted m).

(** [map.addLayer(layer)] with no [before]: on top. *)
Definition addLayer (l : Layer) (m : MapEngine) : MapEngine :=
  mkMap (sources m) (layers m ++ [l]) (fitted m).

Fixpoint insertBefore (before : string) (l : Layer) (stack : list Layer) : list Layer :=
  match stack with
  | [] => [l]
  | x :: rest =>
      if String.eqb (layer_id x) before then l :: x :: rest
      else x :: insertBefore before l rest
  end.

(** [map.moveLayer(id, before)]; without [before] the layer goes on top. *)
Definition moveLayer (id : string) (before : option string) (m : MapEngine) : MapEngine :=
  match getLayer id m with
  | None => m
  | Some l =>
      let rest := List.filter (fun x => negb (String.eqb (layer_id x) id)) (layers m) in
      mkMap (sources m)
            (match before with
             | None => rest ++ [l]
             | Some b => insertBefore b l rest
             end)
            (fitted m)
  end.

Definition fitBounds (b : Bounds) (m : MapEngine) : MapEngine :=
  mkMap (sources m) (layers m) (fitted m ++ [b]).

Definition fitToCollection (map : MapEngine) (collection : FeatureCollection) : MapEngine :=
  match collectionBounds collection with
  | None => map
  | Some bounds => fitBounds bounds map
  end.

(** [if (map.getLayer(id)) map.removeLayer(id)] and its source twin. *)
Definition dropLayer (id : string) (m : MapEngine) : MapEngine :=
  match getLayer id m with
  | Some _ => removeLayer id m
  | None => m
  end.

Definition dropSource (id : string) (m : MapEngine) : MapEngine :=
  match getSource id m with
  | Some _ => removeSource id m
  | None => m
  end.

(** *** Coordinate labels *)

Definition coordLayerId (i : nat) : string :=
  "coord-labels-layer-" +:+ numberToString (Z.of_nat i).

Definition coordSourceId (i : nat) : string :=
  "coord-labels-source-" +:+ numberToString (Z.of_nat i).

(** The body of the loop over [tiers]. *)
Definition addTier (entries : list VertEntry) (m : MapEngine) (tier : Tier) : MapEngine :=
  match sampleByGrid entries (tier_cellDeg tier) with
  | [] => m
  | sampled =>
      addLayer
        (mkLayer (coordLayerId (tier_id tier)) "symbol" (coordSourceId (tier_id tier))
                 (Some (tier_minzoom tier)) (Some (3 <=? tier_id tier)%nat))
        (addSource (coordSourceId (tier_id tier))
                   (buildPointFeaturesFromVertices sampled) m)
  end.

Definition customLayerIds : list string :=
  ["custom-colored-polygons-layer"; "custom-stroked-polygons-layer"].

Definition upsertCoordinateLabels (map : MapEngine) (collection : FeatureCollection)
  : MapEngine :=
  let entries := extractVertexEntriesFromFeatureCollection collection in
  let m1 := fold_left (fun m i => dropLayer (coordLayerId i) m) [0; 1; 2; 3]%nat map in
  let m2 := fold_left (fun m i => dropSource (coordSourceId i) m) [0; 1; 2; 3]%nat m1 in
  match entries with
  | [] => m2
  | _ =>
      let m3 := fold_left (addTier entries) tiers m2 in
      fold_left
        (fun m customLayerId =>
           match getLayer customLayerId m, getLayer (coordLayerId 0) m with
           | Some _, Some _ => moveLayer customLayerId (Some (coordLayerId 0)) m
           | _, _ => m
           end) customLayerIds m3
  end.

(** *** Layer synchroniser *)

Definition fillSourceId : string := "custom-colored-polygons".
Definition fillLayerId : string := "custom-colored-polygons-layer".
Definition strokeSourceId : string := "custom-stroked-polygons".
Definition strokeLayerId : string := "custom-stroked-polygons-layer".
Definition textSourceId : string := "custom-text-labels".
Definition textLayerId : string := "custom-text-labels-layer".

(** The predicates of the two [features.filter] calls. *)
Definition isColored (f : Feature) : bool :=
  truthy (getProp "fillColor" f) && isPolygonal f.

Definition isStroked (f : Feature) : bool :=
  (truthy (getProp "strokeColor" f) || truthy (getProp "strokeWidth" f))
  && isPolygonal f.

(** The filter, map and [filter(Boolean)] chain that builds the text
    points. *)
Definition textFeatureOf (f : Feature) : option Feature :=
  if truthy (getProp "labelText" f) && isPolygonal f then
    let centroid :=
      match f_geometry f with
      | Some (Polygon rings) => Mapbox.calculatePolygonCentroid (asNumberArrays rings)
      | Some (MultiPolygon (firstPolygon :: _)) =>
          Mapbox.calculatePolygonCentroid (asNumberArrays firstPolygon)
      | _ => None
      end in
    match centroid with
    | None => None
    | Some c =>
        let base : gmap string JValue :=
          match getProp "labelText" f with
          | Some v => {["labelText" := v]}
          | None => ∅
          end in
        Some {| f_id := Some ("text-" +:+ default "undefined" (f_id f));
                f_properties :=
                  Some (match f_id f with
                        | Some id => <["originalId" := JStr id]> base
                        | None => base
                        end);
                f_geometry := Some (Point c) |}
    end
  else None.

Definition updateCustomColoredLayer (map : MapEngine) (features : list Feature)
  : MapEngine :=
  let coloredFeatures := List.filter isColored features in
  let strokedFeatures := List.filter isStroked features in
  let m1 := dropSource fillSourceId (dropLayer fillLayerId map) in
  let m2 :=
    match coloredFeatures with
    | [] => m1
    | _ => addLayer (mkLayer fillLayerId "fill" fillSourceId None None)
                    (addSource fillSourceId coloredFeatures m1)
    end in
  let m3 := dropSource strokeSourceId (dropLayer strokeLayerId m2) in
  let m4 :=
    match strokedFeatures with
    | [] => m3
    | _ => addLayer (mkLayer strokeLayerId "line" strokeSourceId None None)
                    (addSource strokeSourceId strokedFeatures m3)
    end in
  let m5 := upsertCoordinateLabels m4 features in
  let textFeatures := omap textFeatureOf features in
  let m6 := dropSource textSourceId (dropLayer textLayerId m5) in
  match textFeatures with
  | [] => m6
  | _ =>
      moveLayer textLayerId None
        (addLayer (mkLayer textLayerId "symbol" textSourceId None (Some true))
                  (addSource textSourceId textFeatures m6))
  end.

(** *** The draw plugin's feature store

    The plugin keeps its features in insertion order together with the
    selection.  [getAll] and [get] hand out copies: changing what they
    return changes the store only through [add], [delete],
    [setFeatureProperty] or [set]. *)

Record DrawStore : Type := mkDraw {
  d_features : list Feature;
  d_selected : list string;
  d_drawn : nat
}.

Definition hasId (id : string) (f : Feature) : bool :=
  bool_decide (f_id f = Some id).

Definition draw_getAll (d : DrawStore) : FeatureCollection := d_features d.

Definition draw_get (id : string) (d : DrawStore) : option Feature :=
  find (hasId id) (d_features d).

Definition draw_getSelectedIds (d : DrawStore) : list string := d_selected d.

Definition draw_delete (ids : list string) (d : DrawStore) : DrawStore :=
  mkDraw (List.filter (fun f => negb (existsb (fun id => hasId id f) ids)) (d_features d))
         (List.filter (fun s => negb (existsb (String.eqb s) ids)) (d_selected d))
         (d_drawn d).

(** [draw.add(feature)] for a feature the plugin accepts: a feature whose
    id is already stored is replaced where it stands, any other is
    appended; a feature without id gets one from [hat].  The id is
    returned.  [Raising.draw_set] has the refusal. *)
Definition draw_add (f : Feature) (d : DrawStore) : DrawStore * string :=
  match f_id f with
  | Some id =>
      if existsb (hasId id) (d_features d)
      then (mkDraw ((fun g => if hasId id g then f else g) <$> d_features d)
                   (d_selected d) (d_drawn d), id)
      else (mkDraw (d_features d ++ [f]) (d_selected d) (d_drawn d), id)
  | None =>
      let id := hat (d_drawn d) in
      (mkDraw (d_features d ++ [mkFeature (Some id) (f_geometry f) (f_properties f)])
              (d_selected d) (S (d_drawn d)), id)
  end.

(** [draw.setFeatureProperty(id, key, value)]; an [undefined] value
    leaves the key without a value. *)
Definition draw_setFeatureProperty (id key : string) (value : option JValue)
    (d : DrawStore) : DrawStore :=
  mkDraw ((fun f =>
             if hasId id f
             then withProperties f (match value with
                                    | Some v => <[key := v]> (propsOf f)
                                    | None => delete key (propsOf f)
                                    end)
             else f) <$> d_features d)
         (d_selected d) (d_drawn d).

(** [draw.set(collection)]: add every feature, then delete the stored
    features the collection does not name. *)
Definition draw_set (collection : FeatureCollection) (d : DrawStore) : DrawStore :=
  let toDelete := omap f_id (d_features d) in
  let '(d1, newIds) :=
    fold_left (fun acc f => let '(d', id) := draw_add f acc.1 in (d', acc.2 ++ [id]))
              collection (d, []) in
  draw_delete (List.filter (fun id => negb (existsb (String.eqb id) newIds)) toDelete) d1.

(** [draw.changeMode('simple_select', { featureIds })] *)
Definition draw_selectFeatures (ids : list string) (d : DrawStore) : DrawStore :=
  mkDraw (d_features d)
         (List.filter (fun id => existsb (hasId id) (d_features d)) ids)
         (d_drawn d).

(** *** The component and its imperative handle *)

Record Component : Type := mkComponent {
  mapRef : option MapEngine;
  drawRef : option DrawStore;
  (** the collections handed to [onDrawChange], oldest first *)
  emitted : list FeatureCollection
}.

(** [if (map) updateCustomColoredLayer(map, features)] *)
Definition syncLayers (map : option MapEngine) (features : list Feature)
  : option MapEngine :=
  (fun m => updateCustomColoredLayer m features) <$> map.

(** The three assignments [fillColor], [fillOpacity], [fillRgb] shared by
    [changeSelectedFill] and [applyFillToAll]. *)
Definition setFill (color : string) (opacity : option Q) (props : gmap string JValue)
  : gmap string JValue :=
  let p1 := <["fillColor" := JStr color]> props in
  let p2 := match opacity with
            | Some o => <["fillOpacity" := JNum o]> p1
            | None => p1
            end in
  <["fillRgb" := JStr (hexToRgb color)]> p2.

(** The body of [ids.forEach] in [changeSelectedFill]. *)
Definition fillSelected (color : string) (opacity : option Q) (draw : DrawStore)
    (id : string) : DrawStore :=
  match draw_get id draw with
  | None => draw
  | Some f =>
      let props := setFill color opacity (propsOf f) in
      let d1 := draw_setFeatureProperty id "fillColor" (props !! "fillColor") draw in
      let d2 := draw_setFeatureProperty id "fillOpacity" (props !! "fillOpacity") d1 in
      let d3 := draw_setFeatureProperty id "fillRgb" (props !! "fillRgb") d2 in
      let toAdd := mkFeature (Some id) (f_geometry f) (Some props) in
      (draw_add toAdd (draw_delete [id] d3)).1
  end.

Definition changeSelectedFill (color : string) (opacity : option Q) (c : Component)
  : Component :=
  match drawRef c with
  | None => c
  | Some draw =>
      match draw_getSelectedIds draw with
      | [] => c
      | ids =>
          let d1 := fold_left (fillSelected color opacity) ids draw in
          let d2 := draw_selectFeatures ids d1 in
          let data := draw_getAll d2 in
          mkComponent (syncLayers (mapRef c) data) (Some d2) (emitted c ++ [data])
      end
  end.

(** The body of [polygonFeatures.forEach] in [applyFillToAll]. *)
Definition fillOne (color : string) (opacity : option Q) (draw : DrawStore)
    (f : Feature) : DrawStore :=
  let toAdd := withProperties f (setFill color opacity (propsOf f)) in
  (draw_add toAdd (draw_delete (option_list (f_id f)) draw)).1.

Definition applyFillToAll (color : string) (opacity : option Q) (c : Component)
  : Component :=
  match drawRef c with
  | None => c
  | Some draw =>
      let polygonFeatures := List.filter isPolygonal (draw_getAll draw) in
      let d1 := fold_left (fillOne color opacity) polygonFeatures draw in
      let updatedData := draw_getAll d1 in
      mkComponent (syncLayers (mapRef c) updatedData) (Some d1)
                  (emitted c ++ [updatedData])
  end.

(** The defaults the second [draw.create] listener gives one created
    feature; the flag is [false] when reading the colour raised. *)
Definition createDefaults (f : Feature) : Feature * bool :=
  let p0 := propsOf f in
  let p1 := match p0 !! "fillColor" with
            | None => <["fillColor" := JStr "#ffffff"]> p0
            | Some _ => p0
            end in
  let p2 := match p1 !! "fillOpacity" with
            | None => <["fillOpacity" := JNum (2 # 10)]> p1
            | Some _ => p1
            end in
  match p2 !! "fillRgb" with
  | Some _ => (withProperties f p2, true)
  | None =>
      match hexToRgbOf (p2 !! "fillColor") with
      | Some rgb => (withProperties f (<["fillRgb" := JStr rgb]> p2), true)
      | None => (withProperties f p2, false)
      end
  end.

(** The listener itself: the loop stops at the first feature that raises. *)
Fixpoint onDrawCreate (created : list Feature) : list Feature :=
  match created with
  | [] => []
  | f :: rest =>
      let '(f', ok) := createDefaults f in
      if ok then f' :: onDrawCreate rest else f' :: rest
  end.

(** [emitDrawChange], the listener of [draw.create], [draw.update] and
    [draw.delete]. *)
Definition emitDrawChange (c : Component) : Component :=
  match drawRef c with
  | None => c
  | Some draw =>
      let data := draw_getAll draw in
      mkComponent (syncLayers (mapRef c) data) (drawRef c) (emitted c ++ [data])
  end.

(** The callback of [all.features.map] in [getDrawData]; [None] when it
    raises. *)
Definition exportFeature (f : Feature) : option Feature :=
  let props := propsOf f in
  if truthy (props !! "fillColor") && negb (truthy (props !! "fillRgb")) then
    rgb ← hexToRgbOf (props !! "fillColor");
    Some (withProperties f (<["fillRgb" := JStr rgb]> props))
  else Some (withProperties f props).

Definition getDrawData (c : Component) : FeatureCollection :=
  match drawRef c with
  | None => emptyCollection
  | Some draw =>
      match mapM exportFeature (draw_getAll draw) with
      | Some features => features
      | None => draw_getAll draw
      end
  end.

Record LoadOptions : Type := mkLoadOptions { fitBoundsOption : option bool }.

(** [options?.fitBounds !== false] *)
Definition wantsFit (options : option LoadOptions) : bool :=
  match options ≫= fitBoundsOption with
  | Some false => false
  | _ => true
  end.

Definition loadGeoJson (collection : FeatureCollection) (options : option LoadOptions)
    (c : Component) : Component :=
  match mapRef c, drawRef c with
  | Some map, Some draw =>
      let processedCollection := (fun f => withProperties f (propsOf f)) <$> collection in
      let draw1 := draw_set processedCollection draw in
      let map1 := if wantsFit options
                  then fitToCollection map processedCollection else map in
      let map2 := upsertCoordinateLabels map1 processedCollection in
      let map3 := updateCustomColoredLayer map2 processedCollection in
      mkComponent (Some map3) (Some draw1) (emitted c ++ [draw_getAll draw1])
  | _, _ => c
  end.

(** *** Export and import (the file collaborators of [App.tsx])

    A file is represented by what [JSON.parse] makes of its text.
    [JSON.stringify] followed by [JSON.parse] gives back the JSON data it
    was given, so the exported file parses to the exported collection. *)

Inductive FileContent : Type :=
| NotJson
| OtherJson
| CollectionJson (features : FeatureCollection).

Definition exportGeoJson (c : Component) : FileContent :=
  CollectionJson (getDrawData c).

(** [isFeatureCollection] on the parsed text. *)
Definition isFeatureCollection (file : FileContent) : option FeatureCollection :=
  match file with
  | CollectionJson features => Some features
  | _ => None
  end.

(** [handleFileUpload]; a rejected file leaves the component as it is
    (the user is alerted). *)
Definition handleFileUpload (file : option FileContent) (c : Component) : Component :=
  match file with
  | None => c
  | Some content =>
      match isFeatureCollection content with
      | Some json => loadGeoJson json (Some (mkLoadOptions (Some true))) c
      | None => c
      end
  end.


(** *** The other mutators of the imperative handle *)

(** [draw.deleteAll()] *)
Definition draw_deleteAll (d : DrawStore) : DrawStore :=
  mkDraw [] [] (d_drawn d).

(** The assignments [strokeColor] and [strokeWidth] shared by
    [changeSelectedStroke] and [applyStrokeToAll]. *)
Definition setStroke (color : string) (width : option Q) (props : gmap string JValue)
  : gmap string JValue :=
  let p1 := <["strokeColor" := JStr color]> props in
  match width with
  | Some w => <["strokeWidth" := JNum w]> p1
  | None => p1
  end.

(** The body of [ids.forEach] in [changeSelectedStroke]. *)
Definition strokeSelected (color : string) (width : option Q) (draw : DrawStore)
    (id : string) : DrawStore :=
  match draw_get id draw with
  | None => draw
  | Some f =>
      let props := setStroke color width (propsOf f) in
      let d1 := draw_setFeatureProperty id "strokeColor" (props !! "strokeColor") draw in
      let d2 := match width with
                | Some _ => draw_setFeatureProperty id "strokeWidth" (props !! "strokeWidth") d1
                | None => d1
                end in
      let toAdd := mkFeature (Some id) (f_geometry f) (Some props) in
      (draw_add toAdd (draw_delete [id] d2)).1
  end.

Definition changeSelectedStroke (color : string) (width : option Q) (c : Component)
  : Component :=
  match drawRef c with
  | None => c
  | Some draw =>
      match draw_getSelectedIds draw with
      | [] => c
      | ids =>
          let d1 := fold_left (strokeSelected color width) ids draw in
          let d2 := draw_selectFeatures ids d1 in
          let data := draw_getAll d2 in
          mkComponent (syncLayers (mapRef c) data) (Some d2) (emitted c ++ [data])
      end
  end.

(** The body of [polygonFeatures.forEach] in [applyStrokeToAll]. *)
Definition strokeOne (color : string) (width : option Q) (draw : DrawStore)
    (f : Feature) : DrawStore :=
  let toAdd := withProperties f (setStroke color width (propsOf f)) in
  (draw_add toAdd (draw_delete (option_list (f_id f)) draw)).1.

Definition applyStrokeToAll (color : string) (width : option Q) (c : Component)
  : Component :=
  match drawRef c with
  | None => c
  | Some draw =>
      let polygonFeatures := List.filter isPolygonal (draw_getAll draw) in
      let d1 := fold_left (strokeOne color width) polygonFeatures draw in
      let updatedData := draw_getAll d1 in
      mkComponent (syncLayers (mapRef c) updatedData) (Some d1)
                  (emitted c ++ [updatedData])
  end.

(** The body of [ids.forEach] in [addTextToSelected]. *)
Definition labelSelected (text : string) (draw : DrawStore) (id : string) : DrawStore :=
  match draw_get id draw with
  | None => draw
  | Some f =>
      let toAdd := mkFeature (Some id) (f_geometry f)
                             (Some (<["labelText" := JStr text]> (propsOf f))) in
      (draw_add toAdd (draw_delete [id] draw)).1
  end.

Definition addTextToSelected (text : string) (c : Component) : Component :=
  match drawRef c with
  | None => c
  | Some draw =>
      match draw_getSelectedIds draw with
      | [] => c
      | ids =>
          let d1 := fold_left (labelSelected text) ids draw in
          let data := draw_getAll d1 in
          mkComponent (syncLayers (mapRef c) data) (Some d1) (emitted c ++ [data])
      end
  end.

(** The body of [ids.forEach] in [removeTextFromSelected]:
    [if (f.properties) delete f.properties.labelText]. *)
Definition unlabelSelected (draw : DrawStore) (id : string) : DrawStore :=
  match draw_get id draw with
  | None => draw
  | Some f =>
      let toAdd := mkFeature (Some id) (f_geometry f)
                             (delete "labelText" <$> f_properties f) in
      (draw_add toAdd (draw_delete [id] draw)).1
  end.

Definition removeTextFromSelected (c : Component) : Component :=
  match drawRef c with
  | None => c
  | Some draw =>
      match draw_getSelectedIds draw with
      | [] => c
      | ids =>
          let d1 := fold_left unlabelSelected ids draw in
          let data := draw_getAll d1 in
          mkComponent (syncLayers (mapRef c) data) (Some d1) (emitted c ++ [data])
      end
  end.

Definition clearDrawings (c : Component) : Component :=
  match drawRef c with
  | None => c
  | Some draw =>
      let d1 := draw_deleteAll draw in
      let data := draw_getAll d1 in
      mkComponent (syncLayers (mapRef c) []) (Some d1) (emitted c ++ [data])
  end.

Definition deleteSelected (c : Component) : Component :=
  match drawRef c with
  | None => c
  | Some draw =>
      match draw_getSelectedIds draw with
      | [] => c
      | ids =>
          let d1 := draw_delete ids draw in
          let data := draw_getAll d1 in
          mkComponent (syncLayers (mapRef c) data) (Some d1) (emitted c ++ [data])
      end
  end.

(** [handleMapLoad], the listener of the map's [load] event; [initialData]
    is [initialDataRef.current].  The map and the draw control are the ones
    the initialisation effect has just stored in the refs. *)
Definition handleMapLoad (initialData : option FeatureCollection) (c : Component)
  : Component :=
  match mapRef c, drawRef c with
  | Some map, Some draw =>
      let '(map1, draw1) :=
        match initialData with
        | Some (f :: rest) =>
            (upsertCoordinateLabels (fitToCollection map (f :: rest)) (f :: rest),
             draw_set (f :: rest) draw)
        | _ => (map, draw)
        end in
      mkComponent (Some map1) (Some draw1) (emitted c ++ [draw_getAll draw1])
  | _, _ => c
  end.

(** [applyColorToSelected] of [App.tsx]: the component afterwards, and
    whether the user is alerted that nothing was selected. *)
Definition applyColorToSelected (selectedColor : string) (selectedOpacity : Q)
    (c : Component) : Component * bool :=
  let c' := changeSelectedFill selectedColor (Some selectedOpacity) c in
  let has := existsb (fun f => bool_decide (getProp "fillColor" f = Some (JStr selectedColor)))
                     (getDrawData c') in
  (c', negb has).

End Core.

(** ** Predicates of the properties and the concrete data of their instances *)

(** Stand-ins for [Math.atan2] and [hat()] in the closed instances. *)
Definition zeroAtan2 : Q -> Q -> Q := fun _ _ => 0%Q.

Definition constantHat : nat -> string := fun _ => "h".

Definition unitSquare : list Position :=
  [(0, 0); (0, 2); (2, 2); (2, 0); (0, 0)]%Q.




Definition squareFeature : Feature :=
  mkFeature (Some "a") (Some (Polygon [unitSquare])) None.

(** A feature carries a property when its bag has the key, whatever the
    value (the wording of the specification), and the features held by a
    source of the map. *)
Definition carriesProperty (key : string) (f : Feature) : Prop :=
  is_Some (getProp key f).

Definition sourceFeatures (id : string) (m : MapEngine) : list Feature :=
  default [] (getSource id m).

Definition emptyMap : MapEngine := mkMap ∅ [] [].

(** A polygon whose [fillColor] is the empty string. *)
Definition blankFillPolygon : Feature :=
  mkFeature (Some "a") (Some (Polygon [unitSquare])) (Some {["fillColor" := JStr ""]}).

(** The feature [changeSelectedFill] puts back into the store for [id]. *)
Definition styledCopy (color : string) (opacity : option Q) (id : string) (f : Feature)
  : Feature :=
  mkFeature (Some id) (f_geometry f) (Some (setFill color opacity (propsOf f))).

(** The identifiers of a store are present and pairwise different. *)
Definition uniqueIds (features : list Feature) : Prop :=
  Forall (fun f => is_Some (f_id f)) features /\ NoDup (f_id <$> features).

(** A component whose store holds the unit square, selected or not. *)
Definition squareSelected : Component :=
  mkComponent (Some emptyMap) (Some (mkDraw [squareFeature] ["a"] 0)) [].

Definition squareUnselected : Component :=
  mkComponent (Some emptyMap) (Some (mkDraw [squareFeature] [] 0)) [].

(** A component whose store holds a polygon with a [fillColor] and no
    [fillRgb], as an imported file may bring it. *)
Definition tintedPolygon : Feature :=
  mkFeature (Some "a") (Some (Polygon [unitSquare]))
            (Some {["fillColor" := JStr "#123456"]}).

(** A drawn polygon that already has a red [fillColor], as the
    [draw.create] listener may receive it. *)
Definition redPolygon : Feature :=
  mkFeature (Some "a") (Some (Polygon [unitSquare]))
            (Some {["fillColor" := JStr "#ff0000"]}).

(** The same polygon as [getDrawData] exports it. *)
Definition tintedExported : Feature :=
  withProperties tintedPolygon
    (<["fillRgb" := JStr "18,52,86"]> (propsOf tintedPolygon)).

Definition tintedComponent : Component :=
  mkComponent (Some emptyMap) (Some (mkDraw [tintedPolygon] [] 0)) [].

Definition blankFillComponent : Component :=
  mkComponent (Some emptyMap) (Some (mkDraw [blankFillPolygon] [] 0)) [].

Definition reservedKeys : list string :=
  ["fillColor"; "fillOpacity"; "fillRgb"; "strokeColor"; "strokeWidth"; "labelText"].

(** The value the store of a component holds under [key] for feature [id]. *)
Definition storedProp (key id : string) (c : Component) : option JValue :=
  (drawRef c ≫= draw_get id) ≫= getProp key.

(** How an exported, and a re-imported, feature [e] stands to the stored
    feature [g] it comes from: same identifier and geometry, the same
    value under every key but [fillRgb], and the same [fillRgb] when [g]
    had a truthy one or had no truthy [fillColor]. *)
Definition exportedAs (g e : Feature) : Prop :=
  f_id e = f_id g
  /\ f_geometry e = f_geometry g
  /\ (forall key, key <> "fillRgb" -> getProp key e = getProp key g)
  /\ (truthy (getProp "fillRgb" g) = true \/ truthy (getProp "fillColor" g) = false ->
      getProp "fillRgb" e = getProp "fillRgb" g).

(** ** Notions the further properties are stated with *)

(** The positions of a geometry in the order the bounds loops visit them. *)
Fixpoint positionsOf (geometry : Geometry) : list Position :=
  match geometry with
  | Point p => [p]
  | MultiPoint ps | LineString ps => ps
  | MultiLineString lines | Polygon lines => concat lines
  | MultiPolygon polygons => concat (map (@concat Position) polygons)
  | GeometryCollection geometries =>
      (fix each (l : list Geometry) : list Position :=
         match l with
         | [] => []
         | child :: rest => positionsOf child ++ each rest
         end) geometries
  end.

Definition featurePositions (f : Feature) : list Position :=
  match f_geometry f with
  | Some geometry => positionsOf geometry
  | None => []
  end.

(** A position lies within bounds. *)
Definition encloses (b : Bounds) (p : Position) : Prop :=
  ((sw b).1 <= p.1 /\ p.1 <= (ne b).1 /\ (sw b).2 <= p.2 /\ p.2 <= (ne b).2)%Q.

Definition collectionPositions (collection : FeatureCollection) : list Position :=
  concat (featurePositions <$> collection).

(** The box [inner] lies within the box [outer]. *)
Definition within (inner outer : Bounds) : Prop :=
  ((sw outer).1 <= (sw inner).1 /\ (sw outer).2 <= (sw inner).2
   /\ (ne inner).1 <= (ne outer).1 /\ (ne inner).2 <= (ne outer).2)%Q.

(** A point the centroid loops count: an array of at least two numbers. *)
Definition validPoint (point : list Q) : bool :=
  match point with
  | _ :: _ :: _ => true
  | _ => false
  end.

(** ** The features the mutators put back into the store *)

Definition strokedCopy (color : string) (width : option Q) (id : string) (f : Feature)
  : Feature :=
  mkFeature (Some id) (f_geometry f) (Some (setStroke color width (propsOf f))).

Definition labelledCopy (text : string) (id : string) (f : Feature) : Feature :=
  mkFeature (Some id) (f_geometry f) (Some (<["labelText" := JStr text]> (propsOf f))).

Definition unlabelledCopy (id : string) (f : Feature) : Feature :=
  mkFeature (Some id) (f_geometry f) (delete "labelText" <$> f_properties f).

(** The feature is stored under its own identifier. *)
Definition isStored (d : DrawStore) (id : string) : Prop := is_Some (draw_get id d).

(** A labelled polygon and a component that holds it selected. *)
Definition labelledPolygon : Feature :=
  mkFeature (Some "a") (Some (Polygon [unitSquare])) (Some {["labelText" := JStr "plot"]}).

Definition labelledSelected : Component :=
  mkComponent (Some emptyMap) (Some (mkDraw [labelledPolygon] ["a"] 0)) [].

(** ** The layer stack and the sources under a synchroniser pass *)

(** A stack without the layers of the given ids. *)
Definition withoutLayers (ids : list string) (stack : list Layer) : list Layer :=
  List.filter (fun l => negb (existsb (String.eqb (layer_id l)) ids)) stack.

(** What [moveLayer] makes of a stack, and the guarded move of
    [upsertCoordinateLabels]. *)
Definition moveStack (id : string) (before : option string) (stack : list Layer)
  : list Layer :=
  layers (moveLayer id before (mkMap ∅ stack [])).

Definition moveBelowStack (id before : string) (stack : list Layer) : list Layer :=
  match find (fun l => String.eqb (layer_id l) id) stack,
        find (fun l => String.eqb (layer_id l) before) stack with
  | Some _, Some _ => moveStack id (Some before) stack
  | _, _ => stack
  end.

(** The identifiers a pass manages, bottom first. *)
Definition managedLayerIds : list string :=
  [fillLayerId; strokeLayerId; coordLayerId 0; coordLayerId 1; coordLayerId 2;
   coordLayerId 3; textLayerId].

Definition managedSourceIds : list string :=
  [fillSourceId; strokeSourceId; coordSourceId 0; coordSourceId 1; coordSourceId 2;
   coordSourceId 3; textSourceId].

Definition fillLayer : Layer := mkLayer fillLayerId "fill" fillSourceId None None.
Definition strokeLayer : Layer := mkLayer strokeLayerId "line" strokeSourceId None None.
Definition textLayer : Layer := mkLayer textLayerId "symbol" textSourceId None (Some true).

Definition tierLayer (tier : Tier) : Layer :=
  mkLayer (coordLayerId (tier_id tier)) "symbol" (coordSourceId (tier_id tier))
          (Some (tier_minzoom tier)) (Some (3 <=? tier_id tier)%nat).

Definition tierSource (entries : list VertEntry) (tier : Tier) : string * FeatureCollection :=
  (coordSourceId (tier_id tier),
   buildPointFeaturesFromVertices (sampleByGrid entries (tier_cellDeg tier))).

Definition whenAny {A B : Type} (l : list A) (x : list B) : list B :=
  match l with
  | [] => []
  | _ => x
  end.

(** The overlays a collection calls for: their layers, bottom first, and
    their sources. *)
Definition overlayLayers (atan2 : Q -> Q -> Q) (PI : Q) (features : list Feature)
  : list Layer :=
  whenAny (List.filter isColored features) [fillLayer]
  ++ whenAny (List.filter isStroked features) [strokeLayer]
  ++ whenAny (extractVertexEntriesFromFeatureCollection atan2 PI features)
       (tierLayer <$> tiers)
  ++ whenAny (omap textFeatureOf features) [textLayer].

Definition overlaySources (atan2 : Q -> Q -> Q) (PI : Q) (features : list Feature)
  : list (string * FeatureCollection) :=
  let entries := extractVertexEntriesFromFeatureCollection atan2 PI features in
  whenAny (List.filter isColored features)
    [(fillSourceId, List.filter isColored features)]
  ++ whenAny (List.filter isStroked features)
       [(strokeSourceId, List.filter isStroked features)]
  ++ whenAny entries (tierSource entries <$> tiers)
  ++ whenAny (omap textFeatureOf features)
       [(textSourceId, omap textFeatureOf features)].

Definition overlaySource (atan2 : Q -> Q -> Q) (PI : Q) (features : list Feature)
    (id : string) : option FeatureCollection :=
  snd <$> find (fun kv => String.eqb kv.1 id) (overlaySources atan2 PI features).





(** ** The exceptions of the libraries

    [mapboxgl.LngLat], through which [new mapboxgl.LngLatBounds] and
    [bounds.extend] take a position, refuses a latitude outside
    [-90, 90]; [draw.add], and with it [draw.set], refuses a feature whose
    geometry is null or of a type the plugin has no model for.  The
    functions of [Raising] are the functions above that call them outside
    any [try], with these exceptions: [None] when an exception leaves the
    function. *)

Definition lngLatAccepts (p : Position) : bool :=
  Qle_bool (-90) p.2 && Qle_bool p.2 90.

Definition draw_accepts (f : Feature) : bool :=
  match f_geometry f with
  | None | Some (GeometryCollection _) => false
  | Some _ => true
  end.

(** A [for ... of] loop whose body may raise. *)
Fixpoint forEach {A S : Type} (body : S -> A -> option S) (l : list A) (s : S) : option S :=
  match l with
  | [] => Some s
  | x :: rest =>
      match body s x with
      | Some s' => forEach body rest s'
      | None => None
      end
  end.

Module Raising.

(** [bounds.extend(coordinate)] *)
Definition extend (b : Bounds) (c : Position) : option Bounds :=
  if lngLatAccepts c then Some (extend b c) else None.

Fixpoint extendBoundsWithGeometry (bounds : Bounds) (geometry : Geometry) : option Bounds :=
  match geometry with
  | Point p => extend bounds p
  | MultiPoint ps | LineString ps => forEach extend ps bounds
  | MultiLineString lines | Polygon lines =>
      forEach (fun b line => forEach extend line b) lines bounds
  | MultiPolygon polygons =>
      forEach (fun b polygon => forEach (fun b line => forEach extend line b) polygon b)
              polygons bounds
  | GeometryCollection geometries =>
      (fix each (l : list Geometry) (b : Bounds) : option Bounds :=
         match l with
         | [] => Some b
         | child :: rest =>
             match extendBoundsWithGeometry b child with
             | Some b' => each rest b'
             | None => None
             end
         end) geometries bounds
  end.

Definition extendBoundsWithFeature (bounds : Bounds) (feature : Feature) : option Bounds :=
  match f_geometry feature with
  | None => Some bounds
  | Some geometry => extendBoundsWithGeometry bounds geometry
  end.

Definition fitToCollection (map : MapEngine) (collection : FeatureCollection)
  : option MapEngine :=
  match collection with
  | [] => Some map
  | first :: _ =>
      match getFirstCoordinate first with
      | None => Some map
      | Some firstCoordinate =>
          if lngLatAccepts firstCoordinate then
            match forEach extendBoundsWithFeature collection
                          (mkBounds firstCoordinate firstCoordinate) with
            | Some bounds => Some (fitBounds bounds map)
            | None => None
            end
          else None
      end
  end.

(** [draw.set(collection)] *)
Definition draw_set (hat : nat -> string) (collection : FeatureCollection) (d : DrawStore)
  : option DrawStore :=
  if forallb draw_accepts collection then Some (draw_set hat collection d) else None.

Definition loadGeoJson (atan2 : Q -> Q -> Q) (PI : Q) (hat : nat -> string)
    (collection : FeatureCollection) (options : option LoadOptions) (c : Component)
  : option Component :=
  match mapRef c, drawRef c with
  | Some map, Some draw =>
      let processedCollection := (fun f => withProperties f (propsOf f)) <$> collection in
      match draw_set hat processedCollection draw with
      | None => None
      | Some draw1 =>
          match (if wantsFit options
                 then fitToCollection map processedCollection else Some map) with
          | None => None
          | Some map1 =>
              let map2 := upsertCoordinateLabels atan2 PI map1 processedCollection in
              let map3 := updateCustomColoredLayer atan2 PI map2 processedCollection in
              Some (mkComponent (Some map3) (Some draw1)
                                (emitted c ++ [draw_getAll draw1]))
          end
      end
  | _, _ => Some c
  end.

Definition handleMapLoad (atan2 : Q -> Q -> Q) (PI : Q) (hat : nat -> string)
    (initialData : option FeatureCollection) (c : Component) : option Component :=
  match mapRef c, drawRef c with
  | Some map, Some draw =>
      let loaded :=
        match initialData with
        | Some (f :: rest) =>
            match draw_set hat (f :: rest) draw with
            | None => None
            | Some draw1 =>
                match fitToCollection map (f :: rest) with
                | None => None
                | Some map1 =>
                    Some (upsertCoordinateLabels atan2 PI map1 (f :: rest), draw1)
                end
            end
        | _ => Some (map, draw)
        end in
      match loaded with
      | None => None
      | Some (map1, draw1) =>
          Some (mkComponent (Some map1) (Some draw1) (emitted c ++ [draw_getAll draw1]))
      end
  | _, _ => Some c
  end.

End Raising.

(** A line without coordinates, and a collection that starts with it. *)
Definition emptyLine : Feature :=
  mkFeature (Some "l") (Some (LineString [])) None.

(** A line that leaves the range of latitudes. *)
Definition polarLine : Feature :=
  mkFeature (Some "l") (Some (LineString [(0, 0); (1, 100)]%Q)) None.

(** * Properties *)

(** ** Hex colour to decimal RGB *)

Example hexToRgb_examples :
  hexToRgb "#ffffff" = "255,255,255"
  /\ hexToRgb "#3bb2d0" = "59,178,208"
  /\ hexToRgb "" = "255,255,255"
  /\ hexToRgb "#12zzzz" = "18,255,255"
  /\ hexToRgb "#fff" = "255,15,255"
  /\ hexToRgb "#000000" = "255,255,255".
Proof. repeat split; reflexivity. Qed.

Section HexFacts.

(** A hexadecimal digit is none of the characters [parseInt] and
    [replace] treat specially. *)
Lemma hexDigit_plain (c : ascii) (v : Z) :
  hexDigitValue c = Some v ->
  isWhiteSpace c = false /\ Ascii.eqb c "-" = false /\ Ascii.eqb c "+" = false
  /\ Ascii.eqb c "x" = false /\ Ascii.eqb c "X" = false.
Proof.
  intros H. destruct c as [[] [] [] [] [] [] [] []];
    vm_compute in H; try discriminate H; repeat split; reflexivity.
Qed.

Lemma parseInt16_two_digits (a b : ascii) (va vb : Z) :
  hexDigitValue a = Some va -> hexDigitValue b = Some vb ->
  parseInt16 (String a (String b EmptyString)) = Some (16 * va + vb)%Z.
Proof.
  intros Ha Hb.
  destruct (hexDigit_plain a va Ha) as (Hws & Hminus & Hplus & _).
  destruct (hexDigit_plain b vb Hb) as (_ & _ & _ & Hx & HX).
  unfold parseInt16. cbn [trimStart]. rewrite Hws, Hminus, Hplus, Hx, HX.
  rewrite andb_false_r. cbn [digitsPrefix]. rewrite Ha. cbn [digitsPrefix].
  rewrite Hb. simpl default. f_equal. lia.
Qed.

(** On [#rrggbb] the code renders each channel in decimal, with 255 in
    place of a channel that is zero. *)
Lemma hexToRgb_well_formed (r1 r0 g1 g0 b1 b0 : ascii) (vr1 vr0 vg1 vg0 vb1 vb0 : Z) :
  hexDigitValue r1 = Some vr1 -> hexDigitValue r0 = Some vr0 ->
  hexDigitValue g1 = Some vg1 -> hexDigitValue g0 = Some vg0 ->
  hexDigitValue b1 = Some vb1 -> hexDigitValue b0 = Some vb0 ->
  hexToRgb (String "#" (String r1 (String r0 (String g1 (String g0
              (String b1 (String b0 EmptyString))))))) =
    numberToString (orElse (Some (16 * vr1 + vr0)%Z) 255) +:+ "," +:+
    numberToString (orElse (Some (16 * vg1 + vg0)%Z) 255) +:+ "," +:+
    numberToString (orElse (Some (16 * vb1 + vb0)%Z) 255).
Proof.
  intros Hr1 Hr0 Hg1 Hg0 Hb1 Hb0. unfold hexToRgb.
  cbn [String.eqb removeFirst Ascii.eqb Bool.eqb].
  change (JS.substring ?s 0 2) with (String.substring 0 2 s).
  change (JS.substring ?s 2 4) with (String.substring 2 2 s).
  change (JS.substring ?s 4 6) with (String.substring 4 2 s).
  cbn [String.substring].
  by rewrite (parseInt16_two_digits r1 r0 vr1 vr0), (parseInt16_two_digits g1 g0 vg1 vg0),
             (parseInt16_two_digits b1 b0 vb1 vb0).
Qed.

(** X13: The code agrees with the decomposition of the specification on every
    [#rrggbb] none of whose channels is zero. *)
Lemma hexToRgb_agrees_without_zero_channel
    (r1 r0 g1 g0 b1 b0 : ascii) (vr1 vr0 vg1 vg0 vb1 vb0 : Z) :
  hexDigitValue r1 = Some vr1 -> hexDigitValue r0 = Some vr0 ->
  hexDigitValue g1 = Some vg1 -> hexDigitValue g0 = Some vg0 ->
  hexDigitValue b1 = Some vb1 -> hexDigitValue b0 = Some vb0 ->
  (16 * vr1 + vr0 <> 0)%Z -> (16 * vg1 + vg0 <> 0)%Z -> (16 * vb1 + vb0 <> 0)%Z ->
  let color := String "#" (String r1 (String r0 (String g1 (String g0
                 (String b1 (String b0 EmptyString)))))) in
  hexToRgb color = spec_fillRgb color.
Proof.
  intros Hr1 Hr0 Hg1 Hg0 Hb1 Hb0 Hr Hg Hb color. unfold color.
  rewrite (hexToRgb_well_formed r1 r0 g1 g0 b1 b0 vr1 vr0 vg1 vg0 vb1 vb0) by done.
  unfold spec_fillRgb. cbv match. rewrite Hr1, Hr0, Hg1, Hg0, Hb1, Hb0.
  assert (forall z, z <> 0%Z -> orElse (Some z) 255 = z) as Hnz.
  { intros [| |] ?; done. }
  by rewrite !Hnz.
Qed.

End HexFacts.

(** ** Centroid *)

(** The centroid computed for the square ring is not the point (1, 1). *)
Lemma square_centroid_differs_from_1_1 :
  ~ (exists x y : Q,
        Mapbox.calculatePolygonCentroid [squareRing] = Some (x, y)
        /\ (x == 1)%Q /\ (y == 1)%Q).
Proof.
  intros (x & y & Hc & Hx & _).
  vm_compute in Hc. injection Hc as <- <-.
  vm_compute in Hx. discriminate.
Qed.

(** C2 fails on the code: for the square ring
    [[0,0],[0,2],[2,2],[2,0],[0,0]] both centroid helpers return
    [0.8, 0.8], the sum over the five listed positions divided by five,
    the closing vertex counted a second time, and not [1, 1]. *)
Theorem C2_square_centroid :
  Mapbox.calculatePolygonCentroid [squareRing] = Some (4 # 5, 4 # 5)%Q
  /\ Leaflet.calculatePolygonCentroid squareRing = Some (4 # 5, 4 # 5)%Q
  /\ Mapbox.calculatePolygonCentroid (asNumberArrays [unitSquare]) = Some (4 # 5, 4 # 5)%Q
  /\ ~ (4 # 5 == 1)%Q.
Proof. repeat split; try reflexivity. discriminate. Qed.

(** ** Grid sampling *)

Section GridSampling.

Lemma cellKey_eqb_eq (k1 k2 : Z * Z) : cellKey_eqb k1 k2 = true <-> k1 = k2.
Proof.
  destruct k1 as [a b], k2 as [a' b']. unfold cellKey_eqb; simpl.
  rewrite andb_true_iff, !Z.eqb_eq. split; [intros [-> ->] | intros [= -> ->]]; done.
Qed.

Lemma seen_has_key (seen : list ((Z * Z) * VertEntry)) (key : Z * Z) :
  existsb (fun kv => cellKey_eqb kv.1 key) seen = true <-> key ∈ seen.*1.
Proof.
  rewrite existsb_exists, list_elem_of_fmap. split.
  - intros (kv & Hin & Heq). apply cellKey_eqb_eq in Heq.
    exists kv. split; [done | by apply list_elem_of_In].
  - intros (kv & -> & Hin). exists kv.
    split; [by apply list_elem_of_In | by apply cellKey_eqb_eq].
Qed.

(** The cells kept by the loop: those already seen and those of the
    entries, each once. *)
Lemma sampleLoop_cells (cellDeg : Q) (entries : list VertEntry) :
  forall seen,
    NoDup seen.*1 ->
    NoDup (sampleLoop cellDeg entries seen).*1
    /\ (forall k, k ∈ (sampleLoop cellDeg entries seen).*1 <->
                  k ∈ seen.*1 \/ k ∈ cellKey cellDeg <$> entries).
Proof.
  induction entries as [|e rest IH]; intros seen Hnd; simpl.
  - split; [done |]. intros k. rewrite elem_of_nil. tauto.
  - destruct (existsb _ seen) eqn:Hseen.
    + apply seen_has_key in Hseen.
      destruct (IH seen Hnd) as [Hnd' Hin]. split; [done |].
      intros k. rewrite Hin, elem_of_cons. split; [tauto |].
      intros [H | [-> | H]]; tauto.
    + assert (cellKey cellDeg e ∉ seen.*1) as Hfresh.
      { intros H. apply seen_has_key in H. congruence. }
      destruct (IH (seen ++ [(cellKey cellDeg e, e)])) as [Hnd' Hin].
      { rewrite fmap_app. apply NoDup_app. split; [done |]. split.
        - intros k Hk. simpl. rewrite list_elem_of_singleton. by intros ->.
        - simpl. apply NoDup_singleton. }
      split; [done |].
      intros k. rewrite Hin, fmap_app, elem_of_app, elem_of_cons. simpl.
      rewrite list_elem_of_singleton. tauto.
Qed.

End GridSampling.


(** ** Vertex deduplication *)

(** The key rounds to six decimals and keeps the sign, also of a value
    that rounds to zero. *)
Example toFixed6_examples :
  toFixed6 (15 # 10) = "1.500000"
  /\ toFixed6 (12345675 # 10000000) = "1.234568"
  /\ toFixed6 (-1 # 10000000) = "-0.000000"
  /\ vertexKey (mkVertEntry (-569302537 # 10000000, -148861879 # 10000000)%Q 0%Q)
     = "-56.930254|-14.886188".
Proof. repeat split; reflexivity. Qed.

Section VertexDedup.

Context (atan2 : Q -> Q -> Q) (PI : Q).


Lemma positions_of_ringEntries (ring : list Position) :
  coord <$> ringEntries atan2 PI ring = ring.
Proof.
  unfold ringEntries. rewrite fmap_imap.
  rewrite (imap_ext _ (fun _ c => c)); [|done].
  rewrite (imap_const id). apply list_fmap_id.
Qed.

Lemma fold_left_push {A B : Type} (f : list B -> A -> list B) (g : A -> list B) :
  (forall o x, f o x = o ++ g x) ->
  forall (l : list A) (out : list B), fold_left f l out = out ++ concat (g <$> l).
Proof.
  intros Hf. induction l as [|x l IHl]; intros out; simpl.
  - by rewrite app_nil_r.
  - by rewrite IHl, Hf, app_assoc.
Qed.

(** Pushing onto [out] leaves what [out] held in front. *)
Lemma collectVertexEntriesFromGeometry_app :
  forall (geometry : Geometry) (out : list VertEntry),
    collectVertexEntriesFromGeometry atan2 PI geometry out =
      out ++ collectVertexEntriesFromGeometry atan2 PI geometry [].
Proof.
  fix IH 1. intros [p | ps | ps | lines | rings | polygons | geometries] out; simpl.
  - done.
  - done.
  - done.
  - by rewrite !(fold_left_push _ (lineEntries atan2 PI)).
  - destruct rings; [by rewrite app_nil_r | done].
  - rewrite !(fold_left_push _
               (fun polygon => match polygon with
                               | [] => []
                               | ring :: _ => ringEntries atan2 PI ring
                               end)); [done | |];
      intros o [|ring polygon]; by rewrite ?app_nil_r.
  - revert out. induction geometries as [|g gs IHg]; intros out; simpl.
    + by rewrite app_nil_r.
    + rewrite IHg, (IHg (collectVertexEntriesFromGeometry atan2 PI g [])).
      rewrite (IH g out). by rewrite app_assoc.
Qed.





End VertexDedup.


(** ** The deduplication key *)

Section KeyFacts.

Import Decimal.






Lemma iter_D0_nonnil (k : nat) (d : uint) : d <> Nil -> Nat.iter k D0 d <> Nil.
Proof. intros Hd. by destruct k. Qed.

Lemma string_of_uint_inj (d d' : uint) :
  NilEmpty.string_of_uint d = NilEmpty.string_of_uint d' -> d = d'.
Proof.
  revert d'. induction d; intros [] Heq; cbn in Heq; try discriminate; try done;
    injection Heq as Heq; f_equal; by apply IHd.
Qed.











End KeyFacts.




(** ** The map engine: what an operation on one identifier leaves alone *)

Section MapFacts.

Implicit Types (m : MapEngine) (id : string) (l : Layer).

Lemma fold_left_unchanged {S A X : Type} (view : S -> X) (f : S -> A -> S)
    (xs : list A) :
  (forall s x, x ∈ xs -> view (f s x) = view s) ->
  forall s, view (fold_left f xs s) = view s.
Proof.
  induction xs as [|x xs IH]; intros Hf s; simpl; [done |].
  rewrite IH; [apply Hf; constructor |].
  intros s' x' Hx'. apply Hf. by constructor.
Qed.

Lemma find_filter_other {A : Type} (p q : A -> bool) (xs : list A) :
  (forall x, p x = true -> q x = true) ->
  find p (List.filter q xs) = find p xs.
Proof.
  intros Hpq. induction xs as [|x xs IH]; simpl; [done |].
  destruct (p x) eqn:Hp.
  - rewrite (Hpq _ Hp). simpl. by rewrite Hp.
  - destruct (q x); simpl; by rewrite ?Hp.
Qed.

Lemma find_filter_none {A : Type} (p : A -> bool) (xs : list A) :
  find p (List.filter (fun x => negb (p x)) xs) = None.
Proof.
  induction xs as [|x xs IH]; simpl; [done |].
  destruct (p x) eqn:Hp; simpl; by rewrite ?Hp.
Qed.

Lemma find_app_miss {A : Type} (p : A -> bool) (xs ys : list A) :
  (forall y, y ∈ ys -> p y = false) -> find p (xs ++ ys) = find p xs.
Proof.
  intros Hys. induction xs as [|x xs IH]; simpl.
  - destruct (find p ys) as [y|] eqn:Hfind; [|done].
    apply find_some in Hfind as [Hin Hp]. apply list_elem_of_In in Hin.
    rewrite (Hys _ Hin) in Hp. discriminate.
  - by destruct (p x).
Qed.

Lemma find_app_hit {A : Type} (p : A -> bool) (xs : list A) (y : A) :
  find p xs = None -> p y = true -> find p (xs ++ [y]) = Some y.
Proof.
  intros Hxs Hy. induction xs as [|x xs IH]; simpl in *.
  - by rewrite Hy.
  - destruct (p x); [done | by apply IH].
Qed.

Lemma layer_id_differs id id' l :
  id <> id' -> String.eqb (layer_id l) id = true ->
  negb (String.eqb (layer_id l) id') = true.
Proof.
  intros Hne Hid. apply String.eqb_eq in Hid.
  apply negb_true_iff, String.eqb_neq. congruence.
Qed.

Lemma getLayer_removeLayer_ne id id' m :
  id <> id' -> getLayer id (removeLayer id' m) = getLayer id m.
Proof.
  intros Hne. unfold getLayer, removeLayer; simpl.
  apply find_filter_other. intros l. by apply layer_id_differs.
Qed.

Lemma getLayer_dropLayer_ne id id' m :
  id <> id' -> getLayer id (dropLayer id' m) = getLayer id m.
Proof.
  intros Hne. unfold dropLayer.
  destruct (getLayer id' m); [by apply getLayer_removeLayer_ne | done].
Qed.

Lemma getLayer_dropLayer_eq id m : getLayer id (dropLayer id m) = None.
Proof.
  unfold dropLayer. destruct (getLayer id m) eqn:Hl; [|done].
  unfold getLayer, removeLayer; simpl.
  apply (find_filter_none (fun l => String.eqb (layer_id l) id)).
Qed.

Lemma getLayer_dropSource id id' m : getLayer id (dropSource id' m) = getLayer id m.
Proof. unfold dropSource. by destruct (getSource id' m). Qed.

Lemma getLayer_addLayer_ne id l m :
  layer_id l <> id -> getLayer id (addLayer l m) = getLayer id m.
Proof.
  intros Hne. unfold getLayer, addLayer; simpl. apply find_app_miss.
  intros y Hy. apply list_elem_of_singleton in Hy as ->. by apply String.eqb_neq.
Qed.

Lemma getLayer_addLayer_eq l m :
  getLayer (layer_id l) m = None -> getLayer (layer_id l) (addLayer l m) = Some l.
Proof.
  intros Hnone. unfold getLayer, addLayer; simpl.
  apply find_app_hit; [done | apply String.eqb_refl].
Qed.

Lemma find_insertBefore_ne id before l (stack : list Layer) :
  layer_id l <> id ->
  find (fun x => String.eqb (layer_id x) id) (insertBefore before l stack) =
    find (fun x => String.eqb (layer_id x) id) stack.
Proof.
  intros Hne. apply String.eqb_neq in Hne.
  induction stack as [|x stack IH]; simpl; [by rewrite Hne |].
  destruct (String.eqb (layer_id x) before); simpl.
  - by rewrite Hne.
  - by rewrite IH.
Qed.

Lemma find_insertBefore_fresh before l (stack : list Layer) :
  find (fun x => String.eqb (layer_id x) (layer_id l)) stack = None ->
  find (fun x => String.eqb (layer_id x) (layer_id l)) (insertBefore before l stack) =
    Some l.
Proof.
  induction stack as [|x stack IH]; simpl; intros Hnone.
  - by rewrite String.eqb_refl.
  - destruct (String.eqb (layer_id x) (layer_id l)) eqn:Hx; [done |].
    destruct (String.eqb (layer_id x) before); simpl.
    + by rewrite String.eqb_refl.
    + rewrite Hx. by apply IH.
Qed.

(** Moving a layer changes the order of the stack, not what it holds. *)
Lemma getLayer_moveLayer id id' (before : option string) m :
  getLayer id (moveLayer id' before m) = getLayer id m.
Proof.
  unfold moveLayer. destruct (getLayer id' m) as [l|] eqn:Hl; [|done].
  unfold getLayer in *; simpl.
  pose proof (find_some _ _ Hl) as [_ Hid]. apply String.eqb_eq in Hid.
  destruct (decide (id = id')) as [-> | Hne].
  - rewrite Hl, <- Hid.
    pose proof (find_filter_none (fun x => String.eqb (layer_id x) (layer_id l))
                  (layers m)) as Hrest.
    destruct before as [b|].
    + by apply find_insertBefore_fresh.
    + apply find_app_hit; [done | apply String.eqb_refl].
  - assert (find (fun x => String.eqb (layer_id x) id)
              (List.filter (fun x => negb (String.eqb (layer_id x) id')) (layers m))
            = find (fun x => String.eqb (layer_id x) id) (layers m)) as Hrest.
    { apply find_filter_other. intros x. by apply layer_id_differs. }
    destruct before as [b|].
    + rewrite find_insertBefore_ne; [done | congruence].
    + rewrite find_app_miss; [done |].
      intros y Hy. apply list_elem_of_singleton in Hy as ->.
      apply String.eqb_neq. congruence.
Qed.

Lemma getSource_dropSource_ne id id' m :
  id <> id' -> getSource id (dropSource id' m) = getSource id m.
Proof.
  intros Hne. unfold dropSource, getSource.
  destruct (sources m !! id'); simpl; [by rewrite lookup_delete_ne | done].
Qed.

Lemma getSource_dropSource_eq id m : getSource id (dropSource id m) = None.
Proof.
  unfold dropSource, getSource.
  destruct (sources m !! id) eqn:Hs; simpl; [by rewrite lookup_delete_eq | done].
Qed.

Lemma getSource_dropLayer id id' m : getSource id (dropLayer id' m) = getSource id m.
Proof. unfold dropLayer. by destruct (getLayer id' m). Qed.

Lemma getSource_moveLayer id id' (before : option string) m :
  getSource id (moveLayer id' before m) = getSource id m.
Proof. unfold moveLayer. by destruct (getLayer id' m). Qed.

Lemma getSource_addSource_ne id id' (data : FeatureCollection) m :
  id <> id' -> getSource id (addSource id' data m) = getSource id m.
Proof. intros Hne. unfold getSource, addSource; simpl. by rewrite lookup_insert_ne. Qed.

Lemma fitted_dropLayer id m : fitted (dropLayer id m) = fitted m.
Proof. unfold dropLayer. by destruct (getLayer id m). Qed.

Lemma fitted_dropSource id m : fitted (dropSource id m) = fitted m.
Proof. unfold dropSource. by destruct (getSource id m). Qed.

Lemma fitted_moveLayer id (before : option string) m :
  fitted (moveLayer id before m) = fitted m.
Proof. unfold moveLayer. by destruct (getLayer id m). Qed.

End MapFacts.

(** ** Layer synchronisation *)

Section SyncFacts.

Context (atan2 : Q -> Q -> Q) (PI : Q).

Implicit Types (m : MapEngine) (id : string).

Lemma upsertCoordinateLabels_getLayer id m (collection : FeatureCollection) :
  (forall i, id <> coordLayerId i) ->
  getLayer id (upsertCoordinateLabels atan2 PI m collection) = getLayer id m.
Proof.
  intros Hid. unfold upsertCoordinateLabels.
  set (entries := extractVertexEntriesFromFeatureCollection atan2 PI collection).
  set (m1 := fold_left (fun m i => dropLayer (coordLayerId i) m) _ m).
  set (m2 := fold_left (fun m i => dropSource (coordSourceId i) m) _ m1).
  assert (getLayer id m2 = getLayer id m) as Hm2.
  { unfold m2. rewrite (fold_left_unchanged (getLayer id)).
    - unfold m1. apply (fold_left_unchanged (getLayer id)).
      intros s i _. by apply getLayer_dropLayer_ne.
    - intros s i _. apply getLayer_dropSource. }
  destruct entries as [|e entries']; [done |].
  rewrite (fold_left_unchanged (getLayer id)).
  - rewrite (fold_left_unchanged (getLayer id)); [done |].
    intros s tier _. unfold addTier.
    destruct (sampleByGrid _ _); [done |].
    rewrite getLayer_addLayer_ne; [done | simpl; intros Heq; by apply (Hid (tier_id tier))].
  - intros s custom _.
    destruct (getLayer custom s), (getLayer (coordLayerId 0) s); try done.
    apply getLayer_moveLayer.
Qed.

Lemma upsertCoordinateLabels_getSource id m (collection : FeatureCollection) :
  (forall i, id <> coordSourceId i) ->
  getSource id (upsertCoordinateLabels atan2 PI m collection) = getSource id m.
Proof.
  intros Hid. unfold upsertCoordinateLabels.
  set (entries := extractVertexEntriesFromFeatureCollection atan2 PI collection).
  set (m1 := fold_left (fun m i => dropLayer (coordLayerId i) m) _ m).
  set (m2 := fold_left (fun m i => dropSource (coordSourceId i) m) _ m1).
  assert (getSource id m2 = getSource id m) as Hm2.
  { unfold m2. rewrite (fold_left_unchanged (getSource id)).
    - unfold m1. apply (fold_left_unchanged (getSource id)).
      intros s i _. apply getSource_dropLayer.
    - intros s i _. by apply getSource_dropSource_ne. }
  destruct entries as [|e entries']; [done |].
  rewrite (fold_left_unchanged (getSource id)).
  - rewrite (fold_left_unchanged (getSource id)); [done |].
    intros s tier _. unfold addTier.
    destruct (sampleByGrid _ _) as [|v sampled]; [done |].
    change (getSource id (addSource (coordSourceId (tier_id tier))
              (buildPointFeaturesFromVertices (v :: sampled)) s) = getSource id s).
    by apply getSource_addSource_ne.
  - intros s custom _.
    destruct (getLayer custom s), (getLayer (coordLayerId 0) s); try done.
    apply getSource_moveLayer.
Qed.

Lemma upsertCoordinateLabels_fitted m (collection : FeatureCollection) :
  fitted (upsertCoordinateLabels atan2 PI m collection) = fitted m.
Proof.
  unfold upsertCoordinateLabels.
  set (entries := extractVertexEntriesFromFeatureCollection atan2 PI collection).
  set (m1 := fold_left (fun m i => dropLayer (coordLayerId i) m) _ m).
  set (m2 := fold_left (fun m i => dropSource (coordSourceId i) m) _ m1).
  assert (fitted m2 = fitted m) as Hm2.
  { unfold m2. rewrite (fold_left_unchanged fitted).
    - unfold m1. apply (fold_left_unchanged fitted).
      intros s i _. apply fitted_dropLayer.
    - intros s i _. apply fitted_dropSource. }
  destruct entries as [|e entries']; [done |].
  rewrite (fold_left_unchanged fitted).
  - rewrite (fold_left_unchanged fitted); [done |].
    intros s tier _. unfold addTier. by destruct (sampleByGrid _ _).
  - intros s custom _.
    destruct (getLayer custom s), (getLayer (coordLayerId 0) s); try done.
    apply fitted_moveLayer.
Qed.

Lemma updateCustomColoredLayer_fitted m (features : list Feature) :
  fitted (updateCustomColoredLayer atan2 PI m features) = fitted m.
Proof.
  unfold updateCustomColoredLayer.
  destruct (omap textFeatureOf features);
    rewrite ?fitted_moveLayer; simpl;
    rewrite fitted_dropSource, fitted_dropLayer, upsertCoordinateLabels_fitted;
    destruct (List.filter isStroked features); simpl;
    rewrite fitted_dropSource, fitted_dropLayer;
    destruct (List.filter isColored features); simpl;
    by rewrite fitted_dropSource, fitted_dropLayer.
Qed.

Lemma fill_is_not_a_coordinate_layer i : fillLayerId <> coordLayerId i.
Proof. unfold coordLayerId. simpl. discriminate. Qed.

Lemma fill_is_not_a_coordinate_source i : fillSourceId <> coordSourceId i.
Proof. unfold coordSourceId. simpl. discriminate. Qed.

(** The steps of a pass that follow the fill overlay leave it as it is. *)
Lemma fill_overlay_kept m2 (features : list Feature) :
  let strokedFeatures := List.filter isStroked features in
  let m3 := dropSource strokeSourceId (dropLayer strokeLayerId m2) in
  let m4 := match strokedFeatures with
            | [] => m3
            | _ => addLayer (mkLayer strokeLayerId "line" strokeSourceId None None)
                            (addSource strokeSourceId strokedFeatures m3)
            end in
  let m5 := upsertCoordinateLabels atan2 PI m4 features in
  let textFeatures := omap textFeatureOf features in
  let m6 := dropSource textSourceId (dropLayer textLayerId m5) in
  let m7 := match textFeatures with
            | [] => m6
            | _ =>
                moveLayer textLayerId None
                  (addLayer (mkLayer textLayerId "symbol" textSourceId None (Some true))
                            (addSource textSourceId textFeatures m6))
            end in
  getSource fillSourceId m7 = getSource fillSourceId m2
  /\ getLayer fillLayerId m7 = getLayer fillLayerId m2.
Proof.
  intros strokedFeatures m3 m4 m5 textFeatures m6 m7.
  assert (getSource fillSourceId m3 = getSource fillSourceId m2
          /\ getLayer fillLayerId m3 = getLayer fillLayerId m2) as [Hs3 Hl3].
  { unfold m3. rewrite getSource_dropSource_ne, getSource_dropLayer by done.
    by rewrite getLayer_dropSource, getLayer_dropLayer_ne. }
  assert (getSource fillSourceId m4 = getSource fillSourceId m2
          /\ getLayer fillLayerId m4 = getLayer fillLayerId m2) as [Hs4 Hl4].
  { unfold m4. destruct strokedFeatures as [|s0 stroked]; [done |].
    rewrite getLayer_addLayer_ne by done.
    split; [|done].
    change (getSource fillSourceId
              (addSource strokeSourceId (s0 :: stroked) m3) = getSource fillSourceId m2).
    by rewrite getSource_addSource_ne. }
  assert (getSource fillSourceId m6 = getSource fillSourceId m2
          /\ getLayer fillLayerId m6 = getLayer fillLayerId m2) as [Hs6 Hl6].
  { unfold m6, m5.
    rewrite getSource_dropSource_ne, getSource_dropLayer by done.
    rewrite getLayer_dropSource, getLayer_dropLayer_ne by done.
    rewrite upsertCoordinateLabels_getSource by apply fill_is_not_a_coordinate_source.
    by rewrite upsertCoordinateLabels_getLayer by apply fill_is_not_a_coordinate_layer. }
  unfold m7. destruct textFeatures as [|t0 texts]; [done |].
  rewrite getSource_moveLayer, getLayer_moveLayer.
  rewrite getLayer_addLayer_ne by done.
  split; [|done].
  change (getSource fillSourceId (addSource textSourceId (t0 :: texts) m6)
            = getSource fillSourceId m2).
  by rewrite getSource_addSource_ne.
Qed.

(** What a pass leaves under the fill overlay's identifiers. *)
Lemma updateCustomColoredLayer_fill m (features : list Feature) :
  let m' := updateCustomColoredLayer atan2 PI m features in
  match List.filter isColored features with
  | [] => getSource fillSourceId m' = None /\ getLayer fillLayerId m' = None
  | colored =>
      getSource fillSourceId m' = Some colored
      /\ getLayer fillLayerId m' = Some (mkLayer fillLayerId "fill" fillSourceId None None)
  end.
Proof.
  intros m'. unfold m', updateCustomColoredLayer.
  set (m1 := dropSource fillSourceId (dropLayer fillLayerId m)).
  assert (getSource fillSourceId m1 = None /\ getLayer fillLayerId m1 = None)
    as [Hs1 Hl1].
  { unfold m1. rewrite getSource_dropSource_eq, getLayer_dropSource.
    by rewrite getLayer_dropLayer_eq. }
  destruct (List.filter isColored features) as [|c0 colored] eqn:Hcolored.
  - destruct (fill_overlay_kept m1 features) as [-> ->]. done.
  - set (m2 := addLayer _ _).
    destruct (fill_overlay_kept m2 features) as [-> ->].
    unfold m2. split.
    + unfold getSource, addLayer, addSource; simpl. apply lookup_insert_eq.
    + apply (getLayer_addLayer_eq (mkLayer fillLayerId "fill" fillSourceId None None)).
      apply Hl1.
Qed.

End SyncFacts.

(** C6, as the specification states it, fails: a polygon whose [fillColor]
    is the empty string carries the property, yet a pass over it leaves
    the fill overlay without source, so the source does not hold it. *)
Lemma C6_blank_fillColor_left_out :
  ~ (exists (atan2 : Q -> Q -> Q) (PI : Q),
        let m' := updateCustomColoredLayer atan2 PI emptyMap [blankFillPolygon] in
        forall f, f ∈ sourceFeatures fillSourceId m' <->
                  f ∈ [blankFillPolygon] /\ isPolygonal f = true
                  /\ carriesProperty "fillColor" f).
Proof.
  intros (atan2 & PI & H).
  pose proof (updateCustomColoredLayer_fill atan2 PI emptyMap [blankFillPolygon])
    as [Hsource _].
  unfold sourceFeatures in H. simpl in H. rewrite Hsource in H.
  destruct (H blankFillPolygon) as [_ Hin].
  apply (elem_of_nil blankFillPolygon), Hin.
  split; [constructor | split; [reflexivity | by eexists]].
Qed.

(** C6 (amended): after a pass over [features] the fill overlay's source
    holds exactly, and in their order, the Polygon or MultiPolygon features
    whose [fillColor] is truthy, with the fill layer present; when no
    feature qualifies, neither the source nor the layer exists. *)
Theorem C6_fill_overlay_after_pass (atan2 : Q -> Q -> Q) (PI : Q)
    (m : MapEngine) (features : list Feature) :
  let m' := updateCustomColoredLayer atan2 PI m features in
  let qualifying :=
    List.filter (fun f => isPolygonal f && truthy (getProp "fillColor" f)) features in
  match qualifying with
  | [] => getSource fillSourceId m' = None /\ getLayer fillLayerId m' = None
  | _ => getSource fillSourceId m' = Some qualifying
         /\ is_Some (getLayer fillLayerId m')
  end.
Proof.
  intros m' qualifying.
  assert (qualifying = List.filter isColored features) as ->.
  { apply List.filter_ext. intros f. unfold isColored. apply andb_comm. }
  pose proof (updateCustomColoredLayer_fill atan2 PI m features) as H.
  fold m' in H. destruct (List.filter isColored features); [done |].
  destruct H as [-> ->]. by split.
Qed.

(** ** The draw store *)

Section DrawFacts.

Context (hat : nat -> string).

Implicit Types (d : DrawStore) (f g : Feature) (id : string).

Lemma hasId_true id f : hasId id f = true <-> f_id f = Some id.
Proof. apply bool_decide_eq_true. Qed.

Lemma hasId_other id id' f : id <> id' -> hasId id f = true -> hasId id' f = false.
Proof.
  intros Hne Hid. apply hasId_true in Hid. apply bool_decide_eq_false. congruence.
Qed.

Lemma find_map_same {A : Type} (p : A -> bool) (h : A -> A) (xs : list A) :
  (forall x, p (h x) = p x) -> (forall x, p x = true -> h x = x) ->
  find p (h <$> xs) = find p xs.
Proof.
  intros Hp Hh. induction xs as [|x xs IH]; simpl; [done |].
  rewrite Hp. destruct (p x) eqn:Hx; [by rewrite Hh | done].
Qed.

Lemma draw_get_setFeatureProperty_ne id id' (key : string) (value : option JValue) d :
  id <> id' ->
  draw_get id' (draw_setFeatureProperty id key value d) = draw_get id' d.
Proof.
  intros Hne. unfold draw_get, draw_setFeatureProperty; simpl.
  apply find_map_same.
  - intros x. by destruct (hasId id x).
  - intros x Hx. destruct (hasId id x) eqn:Hid; [|done].
    rewrite (hasId_other id id' x Hne Hid) in Hx. discriminate.
Qed.

Lemma draw_get_delete_other (ids : list string) id d :
  id ∉ ids -> draw_get id (draw_delete ids d) = draw_get id d.
Proof.
  intros Hnot. unfold draw_get, draw_delete; simpl.
  apply find_filter_other. intros x Hx. apply negb_true_iff.
  destruct (existsb _ ids) eqn:Hex; [|done].
  apply existsb_exists in Hex as (id' & Hin & Hid').
  apply hasId_true in Hx, Hid'. apply list_elem_of_In in Hin. congruence.
Qed.

Lemma draw_get_delete_in (ids : list string) id d :
  id ∈ ids -> draw_get id (draw_delete ids d) = None.
Proof.
  intros Hin. unfold draw_get, draw_delete; simpl.
  destruct (find _ _) as [x|] eqn:Hfind; [|done].
  apply find_some in Hfind as [Hx Hid]. apply filter_In in Hx as [_ Hkept].
  apply negb_true_iff in Hkept.
  assert (existsb (fun i => hasId i x) ids = true) as Hex; [|congruence].
  apply existsb_exists. exists id. split; [by apply list_elem_of_In | done].
Qed.

Lemma draw_get_id id d f : draw_get id d = Some f -> f ∈ d_features d /\ f_id f = Some id.
Proof.
  intros Hget. apply find_some in Hget as [Hin Hid].
  split; [by apply list_elem_of_In | by apply hasId_true].
Qed.

Lemma draw_get_delete_self id d : draw_get id (draw_delete [id] d) = None.
Proof.
  unfold draw_get, draw_delete; simpl.
  rewrite (List.filter_ext _ (fun x => negb (hasId id x))).
  - apply find_filter_none.
  - intros x. by rewrite orb_false_r.
Qed.

Lemma existsb_find_none {A : Type} (p : A -> bool) (xs : list A) :
  find p xs = None -> existsb p xs = false.
Proof.
  induction xs as [|x xs IH]; simpl; [done |].
  destruct (p x); [done | apply IH].
Qed.

(** What [draw.add] of a feature with an identifier leaves under each
    identifier. *)
Lemma draw_get_add id id' f d :
  f_id f = Some id ->
  draw_get id' (draw_add hat f d).1 =
    if decide (id' = id) then Some f else draw_get id' d.
Proof.
  intros Hid. unfold draw_add. rewrite Hid.
  assert (hasId id f = true) as Hf by by apply hasId_true.
  destruct (existsb (hasId id) (d_features d)) eqn:Hex; unfold draw_get; simpl.
  - destruct (decide (id' = id)) as [-> | Hne].
    + revert Hex. induction (d_features d) as [|y ys IH]; simpl.
      * done.
      * intros Hex. destruct (hasId id y) eqn:Hy; [by rewrite Hf |].
        rewrite Hy. apply IH. by rewrite orb_false_l in Hex.
    + apply find_map_same.
      * intros y. destruct (hasId id y) eqn:Hy; [|done].
        rewrite (hasId_other id id' y), (hasId_other id id' f); done.
      * intros y Hy. destruct (hasId id y) eqn:Hy'; [|done].
        rewrite (hasId_other id id' y) in Hy; done.
  - destruct (decide (id' = id)) as [-> | Hne].
    + apply find_app_hit; [|done].
      destruct (find (hasId id) (d_features d)) as [y|] eqn:Hfind; [|done].
      apply find_some in Hfind as [Hin Hy].
      assert (existsb (hasId id) (d_features d) = true) as Hex'.
      { apply existsb_exists. eauto. }
      congruence.
    + apply find_app_miss. intros y Hy. apply list_elem_of_singleton in Hy as ->.
      by apply (hasId_other id id').
Qed.

End DrawFacts.

(** ** Fill mutators *)

Section FillFacts.

Context (atan2 : Q -> Q -> Q) (PI : Q) (hat : nat -> string).

Implicit Types (d : DrawStore) (f : Feature) (id color : string) (opacity : option Q).

Lemma setFill_idempotent color opacity (props : gmap string JValue) :
  setFill color opacity (setFill color opacity props) = setFill color opacity props.
Proof.
  apply map_eq. intros key. unfold setFill.
  destruct opacity; repeat (rewrite lookup_insert; case_decide); done.
Qed.

Lemma styledCopy_idempotent color opacity id f :
  styledCopy color opacity id (styledCopy color opacity id f) = styledCopy color opacity id f.
Proof.
  unfold styledCopy. f_equal.
  change (propsOf (mkFeature (Some id) (f_geometry f)
                     (Some (setFill color opacity (propsOf f)))))
    with (setFill color opacity (propsOf f)).
  by rewrite setFill_idempotent.
Qed.

(** One round of the loop of [changeSelectedFill], seen from an
    identifier. *)
Lemma draw_get_fillSelected color opacity d id id' :
  draw_get id' (fillSelected hat color opacity d id) =
    if decide (id' = id) then styledCopy color opacity id <$> draw_get id d
    else draw_get id' d.
Proof.
  unfold fillSelected. destruct (draw_get id d) as [f|] eqn:Hf.
  - rewrite (draw_get_add hat id id') by done. destruct (decide (id' = id)); [done |].
    rewrite draw_get_delete_other by (rewrite list_elem_of_singleton; congruence).
    by rewrite !draw_get_setFeatureProperty_ne.
  - destruct (decide (id' = id)) as [-> |]; [by rewrite Hf | done].
Qed.

(** The whole loop, seen from an identifier. *)
Lemma draw_get_fillSelected_all color opacity (ids : list string) id :
  forall d,
    draw_get id (fold_left (fillSelected hat color opacity) ids d) =
      if decide (id ∈ ids) then styledCopy color opacity id <$> draw_get id d
      else draw_get id d.
Proof.
  induction ids as [|id0 ids IH]; intros d; cbn [fold_left].
  - rewrite decide_False; [done | apply not_elem_of_nil].
  - rewrite IH, draw_get_fillSelected.
    destruct (decide (id = id0)) as [-> | Hne].
    + rewrite (decide_True (P := id0 ∈ id0 :: ids)) by constructor.
      destruct (decide (id0 ∈ ids)); [|done].
      destruct (draw_get id0 d); simpl; [|done]. by rewrite styledCopy_idempotent.
    + destruct (decide (id ∈ ids)) as [Hin | Hnot].
      * rewrite (decide_True (P := id ∈ id0 :: ids)); [done | by constructor].
      * rewrite (decide_False (P := id ∈ id0 :: ids)); [done |].
        intros Hin. apply elem_of_cons in Hin as [? | ?]; done.
Qed.

End FillFacts.

(** A freshly drawn polygon, whose property bag is empty, gets the white
    defaults from the [draw.create] listener. *)
Example createDefaults_fresh :
  let created := (createDefaults (mkFeature (Some "a") (Some (Polygon [unitSquare]))
                                            (Some ∅))).1 in
  getProp "fillColor" created = Some (JStr "#ffffff")
  /\ getProp "fillOpacity" created = Some (JNum (2 # 10))
  /\ getProp "fillRgb" created = Some (JStr "255,255,255").
Proof. repeat split; reflexivity. Qed.

(** C1 fails on the code: [changeSelectedFill] and [applyFillToAll] with
    the colour [#ff0000], and the [draw.create] listener on a polygon whose
    [fillColor] is [#ff0000], store [fillRgb = "255,255,255"] next to
    [fillColor = "#ff0000"], where the decomposition of [#ff0000] is
    ["255,0,0"]: a channel that parses to zero is replaced by 255. *)
Theorem C1_red_fill_stored_as_white (atan2 : Q -> Q -> Q) (PI : Q) (hat : nat -> string)
    (opacity : option Q) :
  let selected := changeSelectedFill atan2 PI hat "#ff0000" opacity squareSelected in
  let all := applyFillToAll atan2 PI hat "#ff0000" opacity squareSelected in
  let created := (createDefaults redPolygon).1 in
  storedProp "fillColor" "a" selected = Some (JStr "#ff0000")
  /\ storedProp "fillRgb" "a" selected = Some (JStr "255,255,255")
  /\ storedProp "fillColor" "a" all = Some (JStr "#ff0000")
  /\ storedProp "fillRgb" "a" all = Some (JStr "255,255,255")
  /\ getProp "fillColor" created = Some (JStr "#ff0000")
  /\ getProp "fillRgb" created = Some (JStr "255,255,255")
  /\ spec_fillRgb "#ff0000" = "255,0,0".
Proof.
  destruct opacity; repeat split; vm_compute; reflexivity.
Qed.

(** C7: with no feature selected, [changeSelectedFill] returns the
    component as it was: the store, the map with its overlays, and the
    list of emitted changes are unchanged. *)
Theorem C7_changeSelectedFill_without_selection (atan2 : Q -> Q -> Q) (PI : Q)
    (hat : nat -> string) (color : string) (opacity : option Q) (c : Component) :
  (forall d, drawRef c = Some d -> draw_getSelectedIds d = []) ->
  changeSelectedFill atan2 PI hat color opacity c = c.
Proof.
  intros Hnone. unfold changeSelectedFill.
  destruct (drawRef c) as [d|]; [|done].
  by rewrite (Hnone d eq_refl).
Qed.

(** C7 at a store that holds a polygon and selects nothing. *)
Lemma C7_changeSelectedFill_without_selection_square :
  changeSelectedFill zeroAtan2 3 constantHat "#ff0000" (Some (1 # 2)%Q)
    squareUnselected = squareUnselected.
Proof.
  apply (C7_changeSelectedFill_without_selection zeroAtan2 3 constantHat
           "#ff0000" (Some (1 # 2)%Q) squareUnselected).
  intros d [= <-]. reflexivity.
Defined.

(** C8: applying the same colour and opacity twice to a selected feature
    leaves, after the second application, the very feature the first one
    stored: same geometry, same properties, namely the original ones with
    [fillColor], [fillOpacity] (when given) and [fillRgb] set. *)
Theorem C8_changeSelectedFill_twice (atan2 : Q -> Q -> Q) (PI : Q) (hat : nat -> string)
    (color : string) (opacity : option Q) (c : Component) (d : DrawStore)
    (id : string) (f : Feature) :
  drawRef c = Some d ->
  id ∈ draw_getSelectedIds d ->
  draw_get id d = Some f ->
  let once := changeSelectedFill atan2 PI hat color opacity c in
  let twice := changeSelectedFill atan2 PI hat color opacity once in
  exists d1 d2 f1,
    drawRef once = Some d1 /\ drawRef twice = Some d2
    /\ draw_get id d1 = Some f1 /\ draw_get id d2 = Some f1
    /\ f_properties f1 = Some (setFill color opacity (propsOf f)).
Proof.
  intros Hd Hsel Hf once twice.
  assert (exists d1, drawRef once = Some d1
                     /\ draw_get id d1 = Some (styledCopy color opacity id f))
    as (d1 & Hd1 & Hf1).
  { unfold once, changeSelectedFill. rewrite Hd.
    destruct (draw_getSelectedIds d) as [|id0 ids] eqn:Hids;
      [by apply elem_of_nil in Hsel |].
    eexists. split; [reflexivity |].
    unfold draw_selectFeatures, draw_get; simpl.
    change (draw_get id (fold_left (fillSelected hat color opacity) (id0 :: ids) d)
            = Some (styledCopy color opacity id f)).
    rewrite draw_get_fillSelected_all, decide_True by done. by rewrite Hf. }
  assert (exists d2, drawRef twice = Some d2
                     /\ draw_get id d2 = Some (styledCopy color opacity id f))
    as (d2 & Hd2 & Hf2).
  { unfold twice, changeSelectedFill. rewrite Hd1.
    destruct (draw_getSelectedIds d1) as [|id0 ids] eqn:Hids; [by exists d1 |].
    eexists. split; [reflexivity |].
    unfold draw_selectFeatures, draw_get; simpl.
    change (draw_get id (fold_left (fillSelected hat color opacity) (id0 :: ids) d1)
            = Some (styledCopy color opacity id f)).
    rewrite draw_get_fillSelected_all, Hf1. simpl.
    rewrite styledCopy_idempotent. by destruct (decide _). }
  exists d1, d2, (styledCopy color opacity id f). by repeat split.
Qed.

(** C8 at the selected unit square. *)
Lemma C8_changeSelectedFill_twice_square :
  let once := changeSelectedFill zeroAtan2 3 constantHat "#3bb2d0" (Some (1 # 2)%Q)
                squareSelected in
  let twice := changeSelectedFill zeroAtan2 3 constantHat "#3bb2d0" (Some (1 # 2)%Q)
                 once in
  exists d1 d2 f1,
    drawRef once = Some d1 /\ drawRef twice = Some d2
    /\ draw_get "a" d1 = Some f1 /\ draw_get "a" d2 = Some f1
    /\ f_properties f1 = Some (setFill "#3bb2d0" (Some (1 # 2)%Q) (propsOf squareFeature)).
Proof.
  apply (C8_changeSelectedFill_twice zeroAtan2 3 constantHat "#3bb2d0"
           (Some (1 # 2)%Q) squareSelected (mkDraw [squareFeature] ["a"] 0) "a"
           squareFeature).
  - reflexivity.
  - constructor.
  - reflexivity.
Defined.

(** ** Loading a collection *)

Section LoadFacts.

Context (atan2 : Q -> Q -> Q) (PI : Q) (hat : nat -> string).

(** Replacing a missing property bag by an empty one does not move the
    bounds of a collection. *)
Lemma collectionBounds_properties (collection : FeatureCollection) :
  collectionBounds ((fun f => withProperties f (propsOf f)) <$> collection)
  = collectionBounds collection.
Proof.
  destruct collection as [|f0 rest]; [done |].
  unfold collectionBounds. rewrite fmap_cons.
  change (getFirstCoordinate (withProperties f0 (propsOf f0)))
    with (getFirstCoordinate f0).
  destruct (getFirstCoordinate f0) as [first|]; [|done]. f_equal.
  assert (forall (l : list Feature) (b : Bounds),
             fold_left extendBoundsWithFeature
               ((fun f => withProperties f (propsOf f)) <$> l) b
             = fold_left extendBoundsWithFeature l b) as Hfold.
  { induction l as [|f l IH]; intros b; simpl; [done |]. apply IH. }
  exact (Hfold (f0 :: rest) _).
Qed.

Lemma loadGeoJson_fitted (collection : FeatureCollection) (options : option LoadOptions)
    (c : Component) (m : MapEngine) (d : DrawStore) :
  mapRef c = Some m -> drawRef c = Some d ->
  exists m',
    mapRef (loadGeoJson atan2 PI hat collection options c) = Some m'
    /\ fitted m' = fitted (if wantsFit options then fitToCollection m collection else m).
Proof.
  intros Hm Hd. unfold loadGeoJson. rewrite Hm, Hd. eexists. split; [reflexivity |].
  rewrite updateCustomColoredLayer_fitted, upsertCoordinateLabels_fitted.
  destruct (wantsFit options); [|done].
  unfold fitToCollection. by rewrite collectionBounds_properties.
Qed.

End LoadFacts.

(** What fitting adds to the views of the map, and the bounds of the unit
    square. *)
Lemma fitToCollection_fitted (m : MapEngine) (collection : FeatureCollection) :
  fitted (fitToCollection m collection)
  = fitted m ++ option_list (collectionBounds collection).
Proof.
  unfold fitToCollection. destruct (collectionBounds collection); simpl; [done |].
  by rewrite app_nil_r.
Qed.

Example collectionBounds_square :
  collectionBounds [squareFeature] = Some (mkBounds (0, 0)%Q (2, 2)%Q)
  /\ collectionBounds [] = None.
Proof. split; reflexivity. Qed.

(** ** Export *)

Section ExportFacts.

Implicit Types (f g e : Feature) (key : string).

Lemma getProp_propsOf key f : propsOf f !! key = getProp key f.
Proof. unfold propsOf, getProp. by destruct (f_properties f). Qed.

Lemma getProp_withProperties key f (props : gmap string JValue) :
  getProp key (withProperties f props) = props !! key.
Proof. done. Qed.

Lemma truthy_is_Some (v : option JValue) : truthy v = true -> is_Some v.
Proof. destruct v; [by eexists | discriminate]. Qed.

Lemma exportFeature_exportedAs g e : exportFeature g = Some e -> exportedAs g e.
Proof.
  unfold exportFeature. rewrite !getProp_propsOf.
  destruct (truthy (getProp "fillColor" g) && negb (truthy (getProp "fillRgb" g)))
    eqn:Hcond.
  - destruct (hexToRgbOf (getProp "fillColor" g)) as [rgb|]; [|discriminate].
    simpl. intros [= <-]. repeat split.
    + intros key Hkey. rewrite getProp_withProperties, lookup_insert_ne by done.
      apply getProp_propsOf.
    + apply andb_true_iff in Hcond as [Hc Hr]. apply negb_true_iff in Hr.
      intros [? | ?]; congruence.
  - intros [= <-]. repeat split.
    + intros key _. rewrite getProp_withProperties. apply getProp_propsOf.
    + intros _. rewrite getProp_withProperties. apply getProp_propsOf.
Qed.

Lemma exportFeature_fillRgb g e :
  exportFeature g = Some e ->
  truthy (getProp "fillColor" e) = true -> is_Some (getProp "fillRgb" e).
Proof.
  unfold exportFeature. rewrite !getProp_propsOf.
  destruct (truthy (getProp "fillColor" g) && negb (truthy (getProp "fillRgb" g)))
    eqn:Hcond.
  - destruct (hexToRgbOf (getProp "fillColor" g)) as [rgb|]; [|discriminate].
    simpl. intros [= <-] _. rewrite getProp_withProperties, lookup_insert_eq.
    by eexists.
  - intros [= <-]. rewrite !getProp_withProperties, !getProp_propsOf. intros Hc.
    rewrite Hc in Hcond. simpl in Hcond. apply negb_false_iff in Hcond.
    by apply truthy_is_Some.
Qed.

Lemma exportFeature_succeeds g :
  (truthy (getProp "fillColor" g) = true ->
   truthy (getProp "fillRgb" g) = true
   \/ exists s, getProp "fillColor" g = Some (JStr s)) ->
  is_Some (exportFeature g).
Proof.
  intros Hg. unfold exportFeature. rewrite !getProp_propsOf.
  destruct (truthy (getProp "fillColor" g)) eqn:Hc; simpl; [|by eexists].
  destruct (truthy (getProp "fillRgb" g)) eqn:Hr; simpl; [by eexists |].
  destruct (Hg eq_refl) as [? | [s Hs]]; [discriminate |].
  unfold hexToRgbOf. rewrite Hc, Hs. simpl. by eexists.
Qed.

Lemma exportedAs_refl g : exportedAs g g.
Proof. by repeat split. Qed.

Lemma exportedAs_properties g e :
  exportedAs g e -> exportedAs g (withProperties e (propsOf e)).
Proof.
  intros (Hid & Hgeo & Hkeys & Hrgb). repeat split; try done.
  - intros key Hkey. rewrite getProp_withProperties, getProp_propsOf. by apply Hkeys.
  - intros H. rewrite getProp_withProperties, getProp_propsOf. by apply Hrgb.
Qed.

Lemma Forall2_refl_list {A : Type} (R : A -> A -> Prop) (xs : list A) :
  (forall x, R x x) -> Forall2 R xs xs.
Proof. intros HR. induction xs; constructor; auto. Qed.

Lemma Forall2_partner {A B : Type} (R : A -> B -> Prop) (xs : list A) (ys : list B) :
  Forall2 R xs ys ->
  (forall x, x ∈ xs -> exists y, y ∈ ys /\ R x y)
  /\ (forall y, y ∈ ys -> exists x, x ∈ xs /\ R x y).
Proof.
  induction 1 as [|x y xs ys HR _ [IHl IHr]]; split.
  - intros x Hx. by apply elem_of_nil in Hx.
  - intros y Hy. by apply elem_of_nil in Hy.
  - intros x' Hx'. apply elem_of_cons in Hx' as [-> | Hx'].
    + exists y. split; [constructor | done].
    + destruct (IHl x' Hx') as (y' & Hy' & HR'). exists y'. split; [by constructor | done].
  - intros y' Hy'. apply elem_of_cons in Hy' as [-> | Hy'].
    + exists x. split; [constructor | done].
    + destruct (IHr y' Hy') as (x' & Hx' & HR'). exists x'. split; [by constructor | done].
Qed.

(** What [getDrawData] returns, feature by feature. *)
Lemma getDrawData_exportedAs (c : Component) (d : DrawStore) :
  drawRef c = Some d -> Forall2 exportedAs (draw_getAll d) (getDrawData c).
Proof.
  intros Hd. unfold getDrawData. rewrite Hd.
  destruct (mapM exportFeature (draw_getAll d)) as [features|] eqn:Hexport.
  - apply mapM_Some_1 in Hexport.
    eapply Forall2_impl; [exact Hexport |]. apply exportFeature_exportedAs.
  - apply Forall2_refl_list, exportedAs_refl.
Qed.

End ExportFacts.

(** C9, as stated, fails: a stored polygon whose [fillColor] is the empty
    string is exported with its [fillColor] and without [fillRgb]. *)
Lemma C9_blank_fillColor_exported_without_fillRgb :
  ~ (forall f, f ∈ getDrawData blankFillComponent ->
               carriesProperty "fillColor" f -> carriesProperty "fillRgb" f).
Proof.
  intros H.
  destruct (H (withProperties blankFillPolygon (propsOf blankFillPolygon))) as [v Hv].
  - constructor.
  - by eexists.
  - discriminate Hv.
Qed.

(** When every stored feature with a truthy [fillColor] either has a
    truthy [fillRgb] or holds its colour as a string, every feature
    returned by [getDrawData] whose [fillColor] is truthy carries a
    [fillRgb]. *)
Lemma exported_fillColor_has_fillRgb (c : Component) :
  (forall d g, drawRef c = Some d -> g ∈ draw_getAll d ->
               truthy (getProp "fillColor" g) = true ->
               truthy (getProp "fillRgb" g) = true
               \/ exists s, getProp "fillColor" g = Some (JStr s)) ->
  forall f, f ∈ getDrawData c ->
            truthy (getProp "fillColor" f) = true -> carriesProperty "fillRgb" f.
Proof.
  intros Hstore f Hf Hcolor. unfold getDrawData in Hf.
  destruct (drawRef c) as [d|] eqn:Hd; [|by apply elem_of_nil in Hf].
  assert (is_Some (mapM exportFeature (draw_getAll d))) as [features Hexport].
  { apply mapM_is_Some_2, Forall_forall. intros g Hg.
    apply exportFeature_succeeds. intros Hc. by apply (Hstore d g). }
  rewrite Hexport in Hf. apply mapM_Some_1 in Hexport.
  destruct (Forall2_partner _ _ _ Hexport) as [_ Hfrom].
  destruct (Hfrom f Hf) as (g & _ & Hg).
  by apply (exportFeature_fillRgb g f).
Qed.

(** C9 (amended): every feature returned by [getDrawData] whose
    [fillColor] is truthy carries a [fillRgb], provided every stored
    feature with a truthy [fillColor] either has a truthy [fillRgb] or
    holds its colour as a string; when some stored feature has a truthy
    [fillColor] that is no string and no truthy [fillRgb], the callback
    raises and [getDrawData] returns the features as they are stored; and
    a stored feature whose [fillColor] is absent or falsy is exported with
    its [fillColor] and its [fillRgb] as they are stored, so without
    [fillRgb] when it has none. *)
Theorem C9_exported_fillRgb (c : Component) (d : DrawStore) :
  drawRef c = Some d ->
  ((forall g, g ∈ draw_getAll d ->
              truthy (getProp "fillColor" g) = true ->
              truthy (getProp "fillRgb" g) = true
              \/ exists s, getProp "fillColor" g = Some (JStr s)) ->
   forall f, f ∈ getDrawData c ->
             truthy (getProp "fillColor" f) = true -> carriesProperty "fillRgb" f)
  /\ ((exists g, g ∈ draw_getAll d
                 /\ truthy (getProp "fillColor" g) = true
                 /\ truthy (getProp "fillRgb" g) = false
                 /\ forall s, getProp "fillColor" g <> Some (JStr s)) ->
      getDrawData c = draw_getAll d)
  /\ Forall2 (fun g e =>
                truthy (getProp "fillColor" g) = false ->
                getProp "fillColor" e = getProp "fillColor" g
                /\ getProp "fillRgb" e = getProp "fillRgb" g)
             (draw_getAll d) (getDrawData c).
Proof.
  intros Hd. split; [| split].
  - intros Hstore. apply exported_fillColor_has_fillRgb.
    intros d' g Hd' Hg. rewrite Hd in Hd'. injection Hd' as <-. by apply Hstore.
  - intros (g & Hg & Hcolor & Hrgb & Hstring). unfold getDrawData. rewrite Hd.
    destruct (mapM exportFeature (draw_getAll d)) as [features|] eqn:Hexport; [| done].
    exfalso.
    assert (is_Some (exportFeature g)) as [e He].
    { assert (is_Some (mapM exportFeature (draw_getAll d))) as Hsome by by eexists.
      apply mapM_is_Some_1 in Hsome.
      by apply (proj1 (Forall_forall _ _) Hsome g). }
    unfold exportFeature in He. rewrite !getProp_propsOf, Hcolor, Hrgb in He.
    cbn [andb negb] in He. unfold hexToRgbOf in He. rewrite Hcolor in He.
    destruct (getProp "fillColor" g) as [[| | | s]|]; try discriminate.
    by destruct (Hstring s).
  - eapply Forall2_impl; [apply (getDrawData_exportedAs c d Hd) |].
    intros g e (_ & _ & Hkeys & Hrgb) Hcolor. split.
    + by apply Hkeys.
    + apply Hrgb. by right.
Qed.

(** C9 (amended) at a stored polygon tinted [#123456]. *)
Lemma C9_exported_fillRgb_tinted :
  carriesProperty "fillRgb" tintedExported.
Proof.
  destruct (C9_exported_fillRgb tintedComponent (mkDraw [tintedPolygon] [] 0) eq_refl)
    as [Hcarries _].
  apply Hcarries.
  - intros g Hg _. right. apply list_elem_of_singleton in Hg as ->. by exists "#123456".
  - apply list_elem_of_singleton. reflexivity.
  - reflexivity.
Defined.

(** ** Import *)

Section ImportFacts.

Context (atan2 : Q -> Q -> Q) (PI : Q) (hat : nat -> string).

Implicit Types (d : DrawStore) (f g e : Feature) (id : string).

Lemma draw_add_id f id d : f_id f = Some id -> (draw_add hat f d).2 = id.
Proof.
  intros Hid. unfold draw_add. rewrite Hid.
  by destruct (existsb (hasId id) (d_features d)).
Qed.

Lemma uniqueIds_cons f (features : list Feature) :
  uniqueIds (f :: features) ->
  (exists id, f_id f = Some id /\ forall e, e ∈ features -> f_id e <> Some id)
  /\ uniqueIds features.
Proof.
  intros [Hall Hnd]. apply Forall_cons in Hall as [[id Hid] Hall].
  rewrite fmap_cons in Hnd. apply NoDup_cons in Hnd as [Hfresh Hnd].
  split; [|by split]. exists id. split; [done |].
  intros e He Heq. apply Hfresh. rewrite Hid, <- Heq. by apply list_elem_of_fmap_2.
Qed.

(** The additions of [draw.set], seen from an identifier. *)
Lemma draw_set_additions (collection : FeatureCollection) :
  forall d (acc : list string),
    uniqueIds collection ->
    let r := fold_left
               (fun acc f => let '(d', id) := draw_add hat f acc.1 in (d', acc.2 ++ [id]))
               collection (d, acc) in
    r.2 = acc ++ omap f_id collection
    /\ (forall e id, e ∈ collection -> f_id e = Some id -> draw_get id r.1 = Some e)
    /\ (forall id, (forall e, e ∈ collection -> f_id e <> Some id) ->
                   draw_get id r.1 = draw_get id d).
Proof.
  induction collection as [|e0 rest IH]; intros d acc Hu; cbn [fold_left].
  - simpl. rewrite app_nil_r. split; [done |]. split; [|done].
    intros e id He. by apply elem_of_nil in He.
  - apply uniqueIds_cons in Hu as [(id0 & Hid0 & Hfresh) Hrest].
    cbn [fst snd].
    rewrite (surjective_pairing (draw_add hat e0 d)), (draw_add_id e0 id0 d Hid0).
    destruct (IH (draw_add hat e0 d).1 (acc ++ [id0]) Hrest) as (Hids & Hin & Hout).
    repeat split.
    + rewrite Hids. simpl. rewrite Hid0. by rewrite <- app_assoc.
    + intros e id He Hid. apply elem_of_cons in He as [-> | He]; [|by apply Hin].
      assert (id = id0) as -> by congruence.
      rewrite Hout by done. rewrite (draw_get_add hat id0 id0) by done.
      by rewrite decide_True.
    + intros id Hnone. rewrite Hout.
      * rewrite (draw_get_add hat id0 id) by done. rewrite decide_False; [done |].
        intros ->. apply (Hnone e0); [constructor | done].
      * intros e He. apply Hnone. by constructor.
Qed.

(** After [draw.set] every feature of the collection is stored under
    its identifier. *)
Lemma draw_get_set (collection : FeatureCollection) d e id :
  uniqueIds collection -> e ∈ collection -> f_id e = Some id ->
  draw_get id (draw_set hat collection d) = Some e.
Proof.
  intros Hu He Hid. unfold draw_set.
  pose proof (draw_set_additions collection d [] Hu) as Hadd.
  destruct (fold_left _ collection (d, [])) as [d1 newIds].
  simpl in Hadd. destruct Hadd as (Hids & Hin & _).
  rewrite draw_get_delete_other; [by apply Hin |].
  intros Hdel. apply list_elem_of_In, filter_In in Hdel as [_ Hdel].
  apply negb_true_iff in Hdel.
  assert (existsb (String.eqb id) newIds = true) as Hex; [|congruence].
  apply existsb_exists. exists id. split; [|apply String.eqb_refl].
  rewrite Hids. apply list_elem_of_In, list_elem_of_omap. by exists e.
Qed.

(** After [draw.set] nothing is stored under an identifier the collection
    does not name. *)
Lemma draw_get_set_only (collection : FeatureCollection) d id :
  uniqueIds collection ->
  is_Some (draw_get id (draw_set hat collection d)) ->
  exists e, e ∈ collection /\ f_id e = Some id.
Proof.
  intros Hu Hsome.
  destruct (find (hasId id) collection) as [e|] eqn:Hfind.
  { apply find_some in Hfind as [Hin Hid]. exists e.
    split; [by apply list_elem_of_In | by apply hasId_true]. }
  exfalso.
  assert (forall e, e ∈ collection -> f_id e <> Some id) as Hnone.
  { intros e He Hid. apply list_elem_of_In in He.
    pose proof (find_none _ _ Hfind e He) as Hno.
    apply hasId_true in Hid. congruence. }
  unfold draw_set in Hsome.
  pose proof (draw_set_additions collection d [] Hu) as Hadd.
  destruct (fold_left _ collection (d, [])) as [d1 newIds].
  simpl in Hadd. destruct Hadd as (Hids & _ & Hout).
  set (dels := List.filter _ _) in Hsome.
  destruct (decide (id ∈ dels)) as [Hdel | Hkept].
  - rewrite draw_get_delete_in in Hsome by done. by destruct Hsome.
  - rewrite draw_get_delete_other, Hout in Hsome by done.
    destruct Hsome as [x Hx]. apply draw_get_id in Hx as [Hx Hid].
    apply Hkept. unfold dels. apply list_elem_of_In, filter_In. split.
    + apply list_elem_of_In, list_elem_of_omap. by exists x.
    + apply negb_true_iff. destruct (existsb _ newIds) eqn:Hex; [|done].
      apply existsb_exists in Hex as (id' & Hin & Heq).
      apply String.eqb_eq in Heq as <-. rewrite Hids in Hin.
      apply list_elem_of_In, list_elem_of_omap in Hin as (e & He & Hid').
      by destruct (Hnone e He).
Qed.

Lemma uniqueIds_Forall2 (R : Feature -> Feature -> Prop)
    (stored exported : list Feature) :
  (forall g e, R g e -> f_id e = f_id g) ->
  Forall2 R stored exported -> uniqueIds stored -> uniqueIds exported.
Proof.
  intros HR Hrel [Hall Hnd].
  assert (f_id <$> exported = f_id <$> stored) as Hids.
  { induction Hrel as [|g e gs es Hge _ IHrel]; simpl; [done |].
    rewrite (HR g e Hge). f_equal. apply IHrel.
    - by apply Forall_cons in Hall as [_ ?].
    - rewrite fmap_cons in Hnd. by apply NoDup_cons in Hnd as [_ ?]. }
  split; [|by rewrite Hids].
  clear Hnd Hids. induction Hrel as [|g e gs es Hge _ IHrel]; [constructor |].
  apply Forall_cons in Hall as [Hg Hall]. constructor; [|by apply IHrel].
  by rewrite (HR g e Hge).
Qed.

End ImportFacts.

(** C4, as the specification states it, fails: a stored polygon with
    [fillColor = "#123456"] and no [fillRgb] comes back from export and
    re-import with [fillRgb = "18,52,86"]. *)
Lemma C4_fillRgb_appears_on_round_trip :
  ~ (exists (atan2 : Q -> Q -> Q) (PI : Q) (hat : nat -> string),
        let reimported :=
          handleFileUpload atan2 PI hat (Some (exportGeoJson tintedComponent))
            tintedComponent in
        forall key id, key ∈ reservedKeys ->
                       storedProp key id reimported = storedProp key id tintedComponent).
Proof.
  intros (atan2 & PI & hat & H).
  specialize (H "fillRgb" "a").
  assert ("fillRgb" ∈ reservedKeys) as Hkey by (do 2 constructor; constructor).
  specialize (H Hkey). vm_compute in H. discriminate.
Qed.

(** C4 (amended): when the identifiers of the stored features are present
    and pairwise different, exporting the store and importing the file
    into an initialised component leaves, for every stored feature, a
    feature under the same identifier that is the exported feature itself
    (with its own property bag), so every property of the file is
    reproduced; against the store before the export it has the same
    geometry and the same value under every key except [fillRgb] (so the
    same [fillColor], [fillOpacity], [strokeColor], [strokeWidth] and
    [labelText]), and the same [fillRgb] too when the stored feature had a
    truthy [fillRgb] or had no truthy [fillColor]; nothing is left under
    any other identifier. *)
Theorem C4_export_import_round_trip (atan2 : Q -> Q -> Q) (PI : Q) (hat : nat -> string)
    (c target : Component) (d d0 : DrawStore) (m0 : MapEngine) (g : Feature) :
  drawRef c = Some d ->
  uniqueIds (draw_getAll d) ->
  mapRef target = Some m0 ->
  drawRef target = Some d0 ->
  g ∈ draw_getAll d ->
  let reimported := handleFileUpload atan2 PI hat (Some (exportGeoJson c)) target in
  exists d' id e,
    drawRef reimported = Some d'
    /\ f_id g = Some id
    /\ draw_get id d' = Some e
    /\ (exists x, x ∈ getDrawData c /\ e = withProperties x (propsOf x))
    /\ exportedAs g e
    /\ (forall id', is_Some (draw_get id' d') ->
                    exists g', g' ∈ draw_getAll d /\ f_id g' = Some id').
Proof.
  intros Hd Hu Hm0 Hd0 Hg reimported.
  pose proof (getDrawData_exportedAs c d Hd) as Hexport.
  set (processed := (fun f => withProperties f (propsOf f)) <$> getDrawData c).
  assert (Forall2 exportedAs (draw_getAll d) processed) as Hprocessed.
  { unfold processed. apply Forall2_fmap_r.
    eapply Forall2_impl; [exact Hexport |]. apply exportedAs_properties. }
  assert (uniqueIds processed) as Hu'.
  { eapply uniqueIds_Forall2; [|exact Hprocessed | exact Hu]. by intros ? ? (? & _). }
  destruct (Forall2_partner _ _ _ Hprocessed) as [Hto Hfrom].
  destruct (Hto g Hg) as (e & He & Hge).
  destruct Hu as [Hall _].
  pose proof (proj1 (Forall_forall _ _) Hall g Hg) as [id Hid].
  exists (draw_set hat processed d0), id, e.
  split; [|split; [done | split; [|split; [|split; [done |]]]]].
  - unfold reimported, handleFileUpload, exportGeoJson, isFeatureCollection, loadGeoJson.
    by rewrite Hm0, Hd0.
  - apply draw_get_set; [done.. |]. destruct Hge as (-> & _). done.
  - unfold processed in He. apply list_elem_of_fmap in He as (x & -> & Hx). by exists x.
  - intros id' Hsome.
    destruct (draw_get_set_only hat processed d0 id' Hu' Hsome) as (e' & He' & Hid').
    destruct (Hfrom e' He') as (g' & Hg' & (Hsame & _)).
    exists g'. split; [done | congruence].
Qed.

(** C4 (amended) at the tinted polygon, exported and imported into the
    same component. *)
Lemma C4_export_import_round_trip_tinted :
  let reimported :=
    handleFileUpload zeroAtan2 3 constantHat (Some (exportGeoJson tintedComponent))
      tintedComponent in
  exists d' id e,
    drawRef reimported = Some d'
    /\ f_id tintedPolygon = Some id
    /\ draw_get id d' = Some e
    /\ (exists x, x ∈ getDrawData tintedComponent /\ e = withProperties x (propsOf x))
    /\ exportedAs tintedPolygon e
    /\ (forall id', is_Some (draw_get id' d') ->
                    exists g', g' ∈ draw_getAll (mkDraw [tintedPolygon] [] 0)
                               /\ f_id g' = Some id').
Proof.
  apply (C4_export_import_round_trip zeroAtan2 3 constantHat tintedComponent
           tintedComponent (mkDraw [tintedPolygon] [] 0) (mkDraw [tintedPolygon] [] 0)
           emptyMap tintedPolygon).
  - reflexivity.
  - split.
    + constructor; [by eexists | constructor].
    + apply NoDup_singleton.
  - reflexivity.
  - reflexivity.
  - constructor.
Defined.

(** * Further properties *)

(** ** Geometry utilities *)

Section GeometryFacts.

Lemma head_app_or {A : Type} (xs ys : list A) :
  head (xs ++ ys) = match head xs with Some x => Some x | None => head ys end.
Proof. by destruct xs. Qed.

Lemma findCoordinate_position (p : Position) : findCoordinate (positionCoords p) = Some p.
Proof. by destruct p. Qed.

Lemma findCoordinate_line (ps : list Position) : findCoordinate (lineCoords ps) = head ps.
Proof.
  destruct ps as [|p ps]; [done |].
  unfold lineCoords. rewrite fmap_cons. cbn -[positionCoords].
  unfold positionCoords at 1. cbn -[positionCoords].
  by destruct p.
Qed.

Lemma findCoordinate_rings (rings : list (list Position)) :
  findCoordinate (ringsCoords rings) = head (concat rings).
Proof.
  unfold ringsCoords.
  assert (forall items : list (list Position),
             (fix firstOf (l : list Coords) : option Position :=
                match l with
                | [] => None
                | item :: rest =>
                    match findCoordinate item with
                    | Some coord => Some coord
                    | None => firstOf rest
                    end
                end) (lineCoords <$> items) = head (concat items)) as Hloop.
  { induction items as [|ring items IH]; [done |].
    rewrite fmap_cons, concat_cons, head_app_or, findCoordinate_line.
    destruct (head ring); [done | apply IH]. }
  destruct rings as [|ring rings]; [done |].
  rewrite <- Hloop. reflexivity.
Qed.

Lemma findCoordinate_polygons (polygons : list (list (list Position))) :
  findCoordinate (CArr (ringsCoords <$> polygons))
  = head (concat (map (@concat Position) polygons)).
Proof.
  assert (forall items : list (list (list Position)),
             (fix firstOf (l : list Coords) : option Position :=
                match l with
                | [] => None
                | item :: rest =>
                    match findCoordinate item with
                    | Some coord => Some coord
                    | None => firstOf rest
                    end
                end) (ringsCoords <$> items)
             = head (concat (map (@concat Position) items))) as Hloop.
  { induction items as [|polygon items IH]; [done |].
    rewrite fmap_cons. cbn [map]. rewrite concat_cons, head_app_or.
    rewrite findCoordinate_rings.
    destruct (head (concat polygon)); [done | apply IH]. }
  destruct polygons as [|polygon polygons]; [done |].
  rewrite <- Hloop. reflexivity.
Qed.

(** The coordinate found in a geometry is the first position the bounds
    loops would visit. *)
Lemma getCoordinateFromGeometry_first :
  forall geometry : Geometry,
    getCoordinateFromGeometry geometry = head (positionsOf geometry).
Proof.
  fix IH 1. intros [p | ps | ps | lines | rings | polygons | geometries].
  - apply findCoordinate_position.
  - apply findCoordinate_line.
  - apply findCoordinate_line.
  - apply findCoordinate_rings.
  - apply findCoordinate_rings.
  - apply findCoordinate_polygons.
  - simpl. induction geometries as [|g gs IHg]; [done |].
    rewrite head_app_or, <- (IH g).
    destruct (getCoordinateFromGeometry g); [done | apply IHg].
Qed.

End GeometryFacts.

Section BoundsFacts.

Lemma fold_left_concat {A B : Type} (f : A -> B -> A) (ls : list (list B)) (a : A) :
  fold_left (fun acc l => fold_left f l acc) ls a = fold_left f (concat ls) a.
Proof.
  revert a. induction ls as [|l ls IH]; intros a; [done |].
  cbn [fold_left]. rewrite concat_cons, fold_left_app. apply IH.
Qed.

Lemma extendBoundsWithGeometry_positions :
  forall (geometry : Geometry) (bounds : Bounds),
    extendBoundsWithGeometry bounds geometry = fold_left extend (positionsOf geometry) bounds.
Proof.
  fix IH 1. intros [p | ps | ps | lines | rings | polygons | geometries] bounds;
    try reflexivity.
  - apply fold_left_concat.
  - apply fold_left_concat.
  - cbn [extendBoundsWithGeometry positionsOf].
    rewrite <- fold_left_concat.
    revert bounds. induction polygons as [|polygon polygons IHp]; intros bounds; [done |].
    cbn [fold_left map]. rewrite (fold_left_concat extend polygon). apply IHp.
  - cbn [extendBoundsWithGeometry positionsOf].
    revert bounds. induction geometries as [|g gs IHg]; intros bounds; [done |].
    rewrite fold_left_app, <- (IH g). apply IHg.
Qed.

Lemma fold_extendBoundsWithFeature (collection : FeatureCollection) (bounds : Bounds) :
  fold_left extendBoundsWithFeature collection bounds
  = fold_left extend (collectionPositions collection) bounds.
Proof.
  unfold collectionPositions.
  revert bounds. induction collection as [|f fs IH]; intros bounds; [done |].
  rewrite fmap_cons, concat_cons, fold_left_app. cbn [fold_left].
  rewrite IH. f_equal.
  unfold extendBoundsWithFeature, featurePositions.
  destruct (f_geometry f); [apply extendBoundsWithGeometry_positions | done].
Qed.

Lemma within_refl (b : Bounds) : within b b.
Proof. unfold within. repeat split; apply Qle_refl. Qed.

Lemma within_trans (a b c : Bounds) : within a b -> within b c -> within a c.
Proof.
  unfold within. intros (H1 & H2 & H3 & H4) (G1 & G2 & G3 & G4).
  repeat split; eapply Qle_trans; eassumption.
Qed.

Lemma within_extend (b : Bounds) (p : Position) : within b (extend b p).
Proof.
  unfold within, extend. cbn.
  repeat split; first [apply Q.le_min_l | apply Q.le_max_l].
Qed.

Lemma encloses_extend (b : Bounds) (p : Position) : encloses (extend b p) p.
Proof.
  unfold encloses, extend. cbn.
  repeat split; first [apply Q.le_min_r | apply Q.le_max_r].
Qed.

Lemma encloses_within (inner outer : Bounds) (p : Position) :
  within inner outer -> encloses inner p -> encloses outer p.
Proof.
  unfold within, encloses. intros (H1 & H2 & H3 & H4) (G1 & G2 & G3 & G4).
  repeat split; eapply Qle_trans; eassumption.
Qed.

Lemma within_fold_extend (ps : list Position) (b : Bounds) :
  within b (fold_left extend ps b).
Proof.
  revert b. induction ps as [|p ps IH]; intros b; [apply within_refl |].
  cbn [fold_left]. eapply within_trans; [apply within_extend | apply IH].
Qed.

Lemma encloses_fold_extend (ps : list Position) (b : Bounds) (p : Position) :
  p ∈ ps -> encloses (fold_left extend ps b) p.
Proof.
  revert b. induction ps as [|q ps IH]; intros b Hp; [by apply elem_of_nil in Hp |].
  cbn [fold_left]. apply elem_of_cons in Hp as [-> | Hp]; [| by apply IH].
  eapply encloses_within; [apply within_fold_extend | apply encloses_extend].
Qed.

Lemma extend_least (b outer : Bounds) (p : Position) :
  within b outer -> encloses outer p -> within (extend b p) outer.
Proof.
  unfold within, encloses, extend. cbn.
  intros (H1 & H2 & H3 & H4) (G1 & G2 & G3 & G4).
  repeat split; first [by apply Q.min_glb | by apply Q.max_lub].
Qed.

Lemma fold_extend_least (ps : list Position) (b outer : Bounds) :
  within b outer -> (forall p, p ∈ ps -> encloses outer p) ->
  within (fold_left extend ps b) outer.
Proof.
  revert b. induction ps as [|q ps IH]; intros b Hb Hps; [done |].
  cbn [fold_left]. apply IH.
  - apply extend_least; [done | apply Hps; left].
  - intros p Hp. apply Hps. by right.
Qed.

Lemma collectionPositions_elem (collection : FeatureCollection) (p : Position) :
  p ∈ collectionPositions collection
  <-> exists f, f ∈ collection /\ p ∈ featurePositions f.
Proof.
  unfold collectionPositions. induction collection as [|g gs IH].
  - split; [by intros H%elem_of_nil | by intros (f & H%elem_of_nil & _)].
  - rewrite fmap_cons, concat_cons, elem_of_app, IH. split.
    + intros [Hp | (f & Hf & Hp)]; [exists g | exists f]; split; try done; by constructor.
    + intros (f & [-> | Hf]%elem_of_cons & Hp); [by left | right; eauto].
Qed.

Lemma getFirstCoordinate_first (f : Feature) :
  getFirstCoordinate f = head (featurePositions f).
Proof.
  unfold getFirstCoordinate, featurePositions.
  destruct (f_geometry f); [apply getCoordinateFromGeometry_first | done].
Qed.

Lemma collectionBounds_some (collection : FeatureCollection) (b : Bounds) :
  collectionBounds collection = Some b ->
  exists first rest c,
    collection = first :: rest /\ getFirstCoordinate first = Some c
    /\ b = fold_left extend (collectionPositions collection) (mkBounds c c).
Proof.
  unfold collectionBounds. destruct collection as [|first rest]; [done |].
  destruct (getFirstCoordinate first) as [c|] eqn:Hc; [| done].
  intros Hb. exists first, rest, c. split; [done |]. split; [done |].
  rewrite <- fold_extendBoundsWithFeature. congruence.
Qed.

(** X1: The bounds handed to [fitBounds] contain every position of every
    feature of the collection. *)
Theorem collectionBounds_encloses (collection : FeatureCollection) (b : Bounds)
    (f : Feature) (p : Position) :
  collectionBounds collection = Some b ->
  f ∈ collection -> p ∈ featurePositions f -> encloses b p.
Proof.
  intros (first & rest & c & -> & _ & ->)%collectionBounds_some Hf Hp.
  apply encloses_fold_extend.
  apply (proj2 (collectionPositions_elem (first :: rest) p)). exists f. by split.
Qed.

Lemma collectionBounds_encloses_square :
  collectionBounds [squareFeature] = Some (mkBounds (0, 0) (2, 2))%Q
  /\ encloses (mkBounds (0, 0) (2, 2))%Q (2, 0)%Q.
Proof.
  assert (collectionBounds [squareFeature] = Some (mkBounds (0, 0) (2, 2))%Q) as Hb
    by reflexivity.
  split; [exact Hb |].
  apply (collectionBounds_encloses [squareFeature] _ squareFeature (2, 0)%Q Hb).
  - apply list_elem_of_In. left. reflexivity.
  - apply list_elem_of_In. vm_compute. tauto.
Defined.

(** X2: The bounds handed to [fitBounds] are the least box around the
    collection: they lie within every box that contains all its
    positions. *)
Theorem collectionBounds_least (collection : FeatureCollection) (b outer : Bounds) :
  collectionBounds collection = Some b ->
  (forall p, p ∈ collectionPositions collection -> encloses outer p) ->
  within b outer.
Proof.
  intros (first & rest & c & -> & Hc & ->)%collectionBounds_some Houter.
  apply fold_extend_least; [| done].
  rewrite getFirstCoordinate_first in Hc.
  assert (encloses outer c) as (H1 & H2 & H3 & H4).
  { apply Houter, (proj2 (collectionPositions_elem (first :: rest) c)).
    exists first. split; [left |].
    destruct (featurePositions first); [done |]. injection Hc as ->. left. }
  unfold within. cbn. done.
Qed.

(** No bounds are computed exactly when the collection is empty or its
    first feature has no position. *)
Lemma collectionBounds_none (collection : FeatureCollection) :
  collectionBounds collection = None
  <-> match collection with
      | [] => True
      | first :: _ => featurePositions first = []
      end.
Proof.
  unfold collectionBounds. destruct collection as [|first rest]; [done |].
  rewrite getFirstCoordinate_first.
  destruct (featurePositions first); split; done.
Qed.

Lemma collectionBounds_least_square :
  within (mkBounds (0, 0) (2, 2))%Q (mkBounds (-1, -1) (3, 3))%Q.
Proof.
  apply (collectionBounds_least [squareFeature]); [reflexivity |].
  intros p Hp. apply list_elem_of_In in Hp. vm_compute in Hp.
  unfold encloses, Qle.
  destruct Hp as [<- | [<- | [<- | [<- | [<- | []]]]]]; cbn; lia.
Defined.

End BoundsFacts.

(** ** Polygon centroid *)

Section CentroidFacts.

Lemma fold_centroidStep_count (ring : list (list Q)) (acc : Q * Q * nat) :
  (fold_left centroidStep ring acc).2 = (acc.2 + length (List.filter validPoint ring))%nat.
Proof.
  revert acc. induction ring as [|point ring IH]; intros acc; [cbn; lia |].
  cbn [fold_left List.filter]. rewrite IH.
  destruct point as [|x [|y rest]]; cbn; lia.
Qed.

Lemma centroid_of_fold (ring : list (list Q)) :
  ring <> [] ->
  Leaflet.calculatePolygonCentroid ring
  = let r := fold_left centroidStep ring (0%Q, 0%Q, 0%nat) in
    match r.2 with
    | O => None
    | _ => Some ((r.1.1 / inject_Z (Z.of_nat r.2))%Q, (r.1.2 / inject_Z (Z.of_nat r.2))%Q)
    end.
Proof.
  intros Hring. unfold Leaflet.calculatePolygonCentroid.
  destruct ring as [|point ring]; [done |].
  by destruct (fold_left centroidStep (point :: ring) (0%Q, 0%Q, 0%nat)) as [[sx sy] n].
Qed.

Lemma centroid_components_agree (ring : list (list Q)) (holes : list (list (list Q))) :
  Mapbox.calculatePolygonCentroid (ring :: holes) = Leaflet.calculatePolygonCentroid ring.
Proof. by destruct ring. Qed.

Lemma centroid_none (ring : list (list Q)) :
  Leaflet.calculatePolygonCentroid ring = None <-> existsb validPoint ring = false.
Proof.
  destruct (decide (ring = [])) as [-> | Hring]; [done |].
  rewrite centroid_of_fold by done. cbn zeta.
  rewrite fold_centroidStep_count. cbn [snd Nat.add].
  assert (List.filter validPoint ring = [] <-> existsb validPoint ring = false) as <-.
  { clear Hring. induction ring as [|point ring IH]; [done |].
    cbn [List.filter existsb]. destruct (validPoint point); [split; done | apply IH]. }
  destruct (List.filter validPoint ring); split; done.
Qed.

(** X4: Both components place a polygon's label at the same point: the Mapbox
    centroid of a coordinates array is the Leaflet centroid of its first
    ring, whatever the holes. *)
Theorem centroid_same_in_both_components (coordinates : list (list (list Q))) :
  Mapbox.calculatePolygonCentroid coordinates
  = head coordinates ≫= Leaflet.calculatePolygonCentroid.
Proof. destruct coordinates as [|[|point ring] holes]; reflexivity. Qed.

(** X5: A centroid is refused exactly when the first ring has no point of at
    least two numbers (an empty or missing ring included). *)
Theorem centroid_undefined_iff (coordinates : list (list (list Q))) :
  Mapbox.calculatePolygonCentroid coordinates = None
  <-> existsb validPoint (default [] (head coordinates)) = false.
Proof.
  destruct coordinates as [|ring holes]; [done |].
  rewrite centroid_components_agree. apply centroid_none.
Qed.

End CentroidFacts.

(** ** Grid sampling of the vertices *)

Section SamplerFacts.

Lemma sampleLoop_kept (cellDeg : Q) (entries : list VertEntry) :
  forall seen,
  exists kept,
    sampleLoop cellDeg entries seen = seen ++ ((fun e => (cellKey cellDeg e, e)) <$> kept)
    /\ kept `sublist_of` entries.
Proof.
  induction entries as [|e rest IH]; intros seen; cbn [sampleLoop].
  - exists []. by rewrite app_nil_r.
  - destruct (existsb _ seen).
    + destruct (IH seen) as (kept & -> & Hsub). exists kept. split; [done |].
      by apply sublist_cons.
    + destruct (IH (seen ++ [(cellKey cellDeg e, e)])) as (kept & -> & Hsub).
      exists (e :: kept). split; [by rewrite <- app_assoc | by apply sublist_skip].
Qed.

Lemma sampleLoop_distinct (cellDeg : Q) (entries : list VertEntry) :
  forall seen,
    NoDup (cellKey cellDeg <$> entries) ->
    (forall e, e ∈ entries -> cellKey cellDeg e ∉ seen.*1) ->
    sampleLoop cellDeg entries seen = seen ++ ((fun e => (cellKey cellDeg e, e)) <$> entries).
Proof.
  induction entries as [|e rest IH]; intros seen Hnd Hseen; cbn [sampleLoop].
  - by rewrite app_nil_r.
  - rewrite fmap_cons in Hnd. apply NoDup_cons in Hnd as [Hfresh Hnd].
    destruct (existsb _ seen) eqn:Hex.
    + apply seen_has_key in Hex. exfalso. apply (Hseen e); [left | done].
    + rewrite IH; [by rewrite <- app_assoc, fmap_cons | done |].
      intros e' He'. rewrite fmap_app, elem_of_app. intros [Hin | Hin].
      * apply (Hseen e'); [by right | done].
      * cbn in Hin. apply list_elem_of_singleton in Hin.
        apply Hfresh. rewrite <- Hin. by apply list_elem_of_fmap_2.
Qed.

Lemma snd_tagged {A B : Type} (tag : A -> B) (l : list A) :
  snd <$> ((fun e => (tag e, e)) <$> l) = l.
Proof. induction l as [|x l IH]; [done |]. rewrite !fmap_cons. cbn. by rewrite IH. Qed.

Lemma sampleByGrid_cells (entries : list VertEntry) (cellDeg : Q) :
  cellKey cellDeg <$> sampleByGrid entries cellDeg = (sampleLoop cellDeg entries []).*1.
Proof.
  unfold sampleByGrid.
  destruct (sampleLoop_kept cellDeg entries []) as (kept & -> & _).
  cbn [app]. rewrite <- !list_fmap_compose. reflexivity.
Qed.

(** X7: Grid sampling picks, in their order, entries of its input; the picked
    entries lie in pairwise different cells, and every cell that holds an
    entry of the input holds a picked one. *)
Theorem sampleByGrid_one_per_cell (entries : list VertEntry) (cellDeg : Q) :
  let kept := sampleByGrid entries cellDeg in
  kept `sublist_of` entries
  /\ NoDup (cellKey cellDeg <$> kept)
  /\ (forall e, e ∈ entries ->
                exists r, r ∈ kept /\ cellKey cellDeg r = cellKey cellDeg e).
Proof.
  cbn zeta. rewrite sampleByGrid_cells.
  destruct (sampleLoop_cells cellDeg entries []) as [Hnd Hin]; [constructor |].
  split; [| split; [done |]].
  - unfold sampleByGrid.
    destruct (sampleLoop_kept cellDeg entries []) as (kept & -> & Hsub).
    cbn [app]. by rewrite snd_tagged.
  - intros e He.
    assert (cellKey cellDeg e ∈ (sampleLoop cellDeg entries []).*1) as Hcell.
    { apply Hin. right. by apply list_elem_of_fmap_2. }
    rewrite <- sampleByGrid_cells in Hcell.
    apply list_elem_of_fmap in Hcell as (r & Hr & Hkept). eauto.
Qed.

(** X8: Sampling a sample again on the same grid changes nothing. *)
Theorem sampleByGrid_idempotent (entries : list VertEntry) (cellDeg : Q) :
  sampleByGrid (sampleByGrid entries cellDeg) cellDeg = sampleByGrid entries cellDeg.
Proof.
  assert (NoDup (cellKey cellDeg <$> sampleByGrid entries cellDeg)) as Hnd.
  { rewrite sampleByGrid_cells.
    by destruct (sampleLoop_cells cellDeg entries []) as [Hnd _]; [constructor |]. }
  unfold sampleByGrid at 1. rewrite sampleLoop_distinct; [| done |].
  - cbn [app]. apply snd_tagged.
  - intros e _. cbn. apply not_elem_of_nil.
Qed.

End SamplerFacts.

(** ** Tiers whose cells refine those of the tier before *)




(** ** The layer stack and the sources after a synchroniser pass *)

Section StackFacts.

Implicit Types (m : MapEngine) (id : string) (l : Layer) (stack : list Layer).

Lemma filter_all {A : Type} (p : A -> bool) (xs : list A) :
  (forall x, x ∈ xs -> p x = true) -> List.filter p xs = xs.
Proof.
  induction xs as [|x xs IH]; intros Hp; [done |].
  cbn [List.filter]. rewrite (Hp x) by left. f_equal. apply IH.
  intros y Hy. apply Hp. by right.
Qed.

Lemma find_app_skip {A : Type} (p : A -> bool) (xs ys : list A) :
  (forall x, x ∈ xs -> p x = false) -> find p (xs ++ ys) = find p ys.
Proof.
  induction xs as [|x xs IH]; intros Hp; [done |].
  cbn [app find]. rewrite (Hp x) by left. apply IH.
  intros y Hy. apply Hp. by right.
Qed.

Lemma find_none_all {A : Type} (p : A -> bool) (xs : list A) :
  find p xs = None -> forall x, x ∈ xs -> p x = false.
Proof.
  intros Hfind x Hx. apply list_elem_of_In in Hx. apply (find_none _ _ Hfind x Hx).
Qed.

Lemma layers_dropLayer id m :
  layers (dropLayer id m) = withoutLayers [id] (layers m).
Proof.
  unfold dropLayer, withoutLayers, getLayer.
  destruct (find _ (layers m)) eqn:Hfind; cbn [layers removeLayer existsb].
  - apply filter_ext. intros x. by rewrite orb_false_r.
  - symmetry. apply filter_all. intros x Hx.
    rewrite (find_none_all _ _ Hfind x Hx). done.
Qed.

Lemma layers_dropSource id m : layers (dropSource id m) = layers m.
Proof. unfold dropSource. by destruct (getSource id m). Qed.

Lemma sources_dropLayer id m : sources (dropLayer id m) = sources m.
Proof. unfold dropLayer. by destruct (getLayer id m). Qed.

Lemma sources_dropSource id m : sources (dropSource id m) = delete id (sources m).
Proof.
  unfold dropSource, getSource.
  destruct (sources m !! id) eqn:Hs; [done | by rewrite delete_id].
Qed.

Lemma layers_moveLayer id (before : option string) m :
  layers (moveLayer id before m) = moveStack id before (layers m).
Proof.
  unfold moveStack, moveLayer, getLayer. cbn [layers].
  by destruct (find _ (layers m)).
Qed.

Lemma sources_moveLayer id (before : option string) m :
  sources (moveLayer id before m) = sources m.
Proof. unfold moveLayer. by destruct (getLayer id m). Qed.

Lemma layers_moveBelow id before m :
  layers (match getLayer id m, getLayer before m with
          | Some _, Some _ => moveLayer id (Some before) m
          | _, _ => m
          end) = moveBelowStack id before (layers m).
Proof.
  unfold moveBelowStack. fold (getLayer id m). fold (getLayer before m).
  destruct (getLayer id m), (getLayer before m); try done.
  apply layers_moveLayer.
Qed.

Lemma sources_moveBelow id before m :
  sources (match getLayer id m, getLayer before m with
           | Some _, Some _ => moveLayer id (Some before) m
           | _, _ => m
           end) = sources m.
Proof.
  destruct (getLayer id m), (getLayer before m); try done. apply sources_moveLayer.
Qed.

Lemma withoutLayers_app (ids : list string) stack stack' :
  withoutLayers ids (stack ++ stack') = withoutLayers ids stack ++ withoutLayers ids stack'.
Proof. unfold withoutLayers. apply List.filter_app. Qed.

Lemma withoutLayers_twice (ids ids' : list string) stack :
  withoutLayers ids' (withoutLayers ids stack) = withoutLayers (ids ++ ids') stack.
Proof.
  unfold withoutLayers. induction stack as [|l stack IH]; [done |].
  cbn [List.filter]. rewrite existsb_app, negb_orb.
  destruct (existsb (String.eqb (layer_id l)) ids); cbn [negb andb List.filter]; [done |].
  destruct (existsb (String.eqb (layer_id l)) ids'); cbn [negb]; by rewrite IH.
Qed.

Lemma withoutLayers_free (ids : list string) stack id l :
  l ∈ withoutLayers ids stack -> id ∈ ids -> String.eqb (layer_id l) id = false.
Proof.
  intros Hl Hid. apply list_elem_of_In, filter_In in Hl as [_ Hl].
  apply negb_true_iff in Hl. apply not_true_iff_false. intros Heq.
  assert (existsb (String.eqb (layer_id l)) ids = true); [| congruence].
  apply existsb_exists. exists id. split; [by apply list_elem_of_In | done].
Qed.

Lemma withoutLayers_prefix (ids : list string) id stack suffix :
  withoutLayers [id] (withoutLayers ids stack ++ suffix)
  = withoutLayers (ids ++ [id]) stack ++ withoutLayers [id] suffix.
Proof. by rewrite withoutLayers_app, withoutLayers_twice. Qed.

Lemma insertBefore_prefix before l (prefix suffix : list Layer) :
  (forall x, x ∈ prefix -> String.eqb (layer_id x) before = false) ->
  insertBefore before l (prefix ++ suffix) = prefix ++ insertBefore before l suffix.
Proof.
  induction prefix as [|x prefix IH]; intros Hp; [done |].
  cbn [app insertBefore]. rewrite (Hp x) by left. f_equal. apply IH.
  intros y Hy. apply Hp. by right.
Qed.

Lemma moveStack_prefix (ids : list string) id (before : option string) stack suffix :
  id ∈ ids -> (forall b, before = Some b -> b ∈ ids) ->
  moveStack id before (withoutLayers ids stack ++ suffix)
  = withoutLayers ids stack ++ moveStack id before suffix.
Proof.
  intros Hid Hbefore. unfold moveStack, moveLayer, getLayer. cbn [layers].
  rewrite find_app_skip by (intros x Hx; by apply (withoutLayers_free ids stack)).
  destruct (find _ suffix) as [l|]; [| done]. cbn [layers].
  rewrite List.filter_app.
  rewrite (filter_all _ (withoutLayers ids stack)).
  2: { intros x Hx. by rewrite (withoutLayers_free ids stack id x Hx). }
  destruct before as [b|]; [| by rewrite app_assoc].
  apply insertBefore_prefix. intros x Hx. apply (withoutLayers_free ids stack b x Hx).
  by apply Hbefore.
Qed.

Lemma moveBelowStack_prefix (ids : list string) id before stack suffix :
  id ∈ ids -> before ∈ ids ->
  moveBelowStack id before (withoutLayers ids stack ++ suffix)
  = withoutLayers ids stack ++ moveBelowStack id before suffix.
Proof.
  intros Hid Hbefore. unfold moveBelowStack.
  rewrite !find_app_skip by (intros x Hx; by apply (withoutLayers_free ids stack)).
  destruct (find (fun l => String.eqb (layer_id l) id) suffix); [| done].
  destruct (find (fun l => String.eqb (layer_id l) before) suffix); [| done].
  apply moveStack_prefix; [done |]. by intros b [= <-].
Qed.

End StackFacts.

Section PassFacts.

Context (atan2 : Q -> Q -> Q) (PI : Q).

Implicit Types (m : MapEngine) (id : string) (features : list Feature).

Lemma sampleByGrid_nonempty (e : VertEntry) (entries : list VertEntry) (cellDeg : Q) :
  sampleByGrid (e :: entries) cellDeg <> [].
Proof.
  unfold sampleByGrid. cbn [sampleLoop existsb app].
  destruct (sampleLoop_kept cellDeg entries [(cellKey cellDeg e, e)]) as (kept & -> & _).
  done.
Qed.

Lemma addTier_any (e : VertEntry) (entries : list VertEntry) m (tier : Tier) :
  addTier (e :: entries) m tier
  = addLayer (tierLayer tier)
      (addSource (tierSource (e :: entries) tier).1 (tierSource (e :: entries) tier).2 m).
Proof.
  unfold addTier, tierSource. cbn [fst snd].
  pose proof (sampleByGrid_nonempty e entries (tier_cellDeg tier)) as Hany.
  by destruct (sampleByGrid (e :: entries) (tier_cellDeg tier)).
Qed.

Lemma layers_addLayer (l : Layer) m : layers (addLayer l m) = layers m ++ [l].
Proof. done. Qed.

Lemma layers_addSource id (data : FeatureCollection) m :
  layers (addSource id data m) = layers m.
Proof. done. Qed.

Lemma layers_after_pass m features :
  layers (updateCustomColoredLayer atan2 PI m features)
  = withoutLayers managedLayerIds (layers m) ++ overlayLayers atan2 PI features.
Proof.
  unfold overlayLayers, updateCustomColoredLayer, upsertCoordinateLabels.
  cbv zeta.
  destruct (List.filter isColored features) as [|c0 colored];
    destruct (List.filter isStroked features) as [|s0 stroked];
    destruct (extractVertexEntriesFromFeatureCollection atan2 PI features)
      as [|e0 entries];
    destruct (omap textFeatureOf features) as [|t0 texts].
  all: cbn [fold_left customLayerIds tiers whenAny].
  all: rewrite ?addTier_any.
  all: repeat first
         [ rewrite layers_moveLayer | rewrite layers_moveBelow
         | rewrite layers_dropSource | rewrite layers_dropLayer
         | rewrite layers_addLayer | rewrite layers_addSource ].
  all: repeat first
         [ rewrite withoutLayers_app
         | rewrite withoutLayers_twice
         | rewrite <- app_assoc
         | rewrite moveStack_prefix
             by (try (intros b [= <-]); apply list_elem_of_In; cbn [In app]; tauto)
         | rewrite moveBelowStack_prefix
             by (apply list_elem_of_In; cbn [In app]; tauto) ].
  all: rewrite ?app_nil_r.
  all: try (f_equal; vm_compute; reflexivity).
Qed.

Lemma sources_addLayer (l : Layer) m : sources (addLayer l m) = sources m.
Proof. done. Qed.

Lemma sources_addSource id (data : FeatureCollection) m :
  sources (addSource id data m) = <[id := data]> (sources m).
Proof. done. Qed.

Ltac source_case key id :=
  let E := fresh "E" in
  destruct (String.eqb key id) eqn:E;
  [ apply String.eqb_eq in E; subst id;
    repeat first
      [ rewrite lookup_insert_eq | rewrite lookup_delete_eq
      | rewrite lookup_insert_ne by discriminate
      | rewrite lookup_delete_ne by discriminate ];
    reflexivity
  | apply String.eqb_neq in E ].

Lemma sources_after_pass m features id :
  sources (updateCustomColoredLayer atan2 PI m features) !! id
  = match overlaySource atan2 PI features id with
    | Some data => Some data
    | None =>
        if existsb (String.eqb id) managedSourceIds then None else sources m !! id
    end.
Proof.
  unfold overlaySource, overlaySources, updateCustomColoredLayer, upsertCoordinateLabels.
  cbv zeta.
  destruct (List.filter isColored features) as [|c0 colored];
    destruct (List.filter isStroked features) as [|s0 stroked];
    destruct (extractVertexEntriesFromFeatureCollection atan2 PI features)
      as [|e0 entries];
    destruct (omap textFeatureOf features) as [|t0 texts].
  all: cbn [fold_left customLayerIds tiers whenAny].
  all: rewrite ?addTier_any.
  all: repeat first
         [ rewrite sources_moveLayer | rewrite sources_moveBelow
         | rewrite sources_dropSource | rewrite sources_dropLayer
         | rewrite sources_addLayer | rewrite sources_addSource ].
  all: unfold tiers; rewrite ?fmap_cons, ?fmap_nil.
  all: cbn [tierSource fst snd tier_id app find existsb managedSourceIds].
  all: unfold fillSourceId, strokeSourceId, textSourceId.
  all: change (coordSourceId 0) with "coord-labels-source-0".
  all: change (coordSourceId 1) with "coord-labels-source-1".
  all: change (coordSourceId 2) with "coord-labels-source-2".
  all: change (coordSourceId 3) with "coord-labels-source-3".
  all: rewrite ?(String.eqb_sym id).
  all: source_case "custom-colored-polygons" id.
  all: source_case "custom-stroked-polygons" id.
  all: source_case "coord-labels-source-0" id.
  all: source_case "coord-labels-source-1" id.
  all: source_case "coord-labels-source-2" id.
  all: source_case "coord-labels-source-3" id.
  all: source_case "custom-text-labels" id.
  all: repeat first
         [ rewrite lookup_insert_ne by done | rewrite lookup_delete_ne by done ].
  all: reflexivity.
Qed.

Lemma overlayLayers_managed features :
  withoutLayers managedLayerIds (overlayLayers atan2 PI features) = [].
Proof.
  unfold overlayLayers.
  destruct (List.filter isColored features), (List.filter isStroked features),
    (extractVertexEntriesFromFeatureCollection atan2 PI features),
    (omap textFeatureOf features); reflexivity.
Qed.

Lemma overlayLayers_order features :
  layer_id <$> overlayLayers atan2 PI features `sublist_of` managedLayerIds.
Proof.
  unfold overlayLayers.
  destruct (List.filter isColored features), (List.filter isStroked features),
    (extractVertexEntriesFromFeatureCollection atan2 PI features),
    (omap textFeatureOf features);
    vm_compute; repeat first [apply sublist_nil | apply sublist_skip | apply sublist_cons].
Qed.

Lemma overlaySource_managed features id :
  existsb (String.eqb id) managedSourceIds = false ->
  overlaySource atan2 PI features id = None.
Proof.
  intros Hid. unfold overlaySource.
  destruct (find _ _) as [[key data]|] eqn:Hfind; [| done].
  apply find_some in Hfind as [Hin Hkey]. cbn in Hkey. apply String.eqb_eq in Hkey.
  subst key. exfalso. apply not_true_iff_false in Hid. apply Hid.
  apply existsb_exists. exists id. split; [| apply String.eqb_refl].
  unfold overlaySources in Hin. rewrite !in_app_iff in Hin.
  unfold whenAny, managedSourceIds in *.
  destruct Hin as [Hin | [Hin | [Hin | Hin]]].
  - destruct (List.filter isColored features); [done |].
    destruct Hin as [[= <- _] | []]. cbn. tauto.
  - destruct (List.filter isStroked features); [done |].
    destruct Hin as [[= <- _] | []]. cbn. tauto.
  - destruct (extractVertexEntriesFromFeatureCollection atan2 PI features); [done |].
    destruct Hin as [[= <- _] | [[= <- _] | [[= <- _] | [[= <- _] | []]]]]; cbn; tauto.
  - destruct (omap textFeatureOf features); [done |].
    destruct Hin as [[= <- _] | []]. cbn. tauto.
Qed.

Lemma withoutLayers_idempotent (ids : list string) (stack : list Layer) :
  withoutLayers ids (withoutLayers ids stack) = withoutLayers ids stack.
Proof.
  apply filter_all. intros l Hl. by apply list_elem_of_In, filter_In in Hl as [_ Hl].
Qed.

Lemma MapEngine_eq m m' :
  sources m = sources m' -> layers m = layers m' -> fitted m = fitted m' -> m = m'.
Proof. destruct m, m'. cbn. by intros -> -> ->. Qed.

(** X10: After a pass the layers the synchroniser manages lie above all other
    layers, which keep their order, and stand in the order fill, stroke,
    coordinate tiers 0 to 3, text. *)
Theorem managed_layers_on_top m features :
  layers (updateCustomColoredLayer atan2 PI m features)
  = withoutLayers managedLayerIds (layers m) ++ overlayLayers atan2 PI features
  /\ layer_id <$> overlayLayers atan2 PI features `sublist_of` managedLayerIds.
Proof. split; [apply layers_after_pass | apply overlayLayers_order]. Qed.

(** X11: After a pass a managed source holds what the collection calls for, and
    is absent when it calls for nothing; every other source is as it
    was. *)
Theorem sources_follow_collection m features id :
  getSource id (updateCustomColoredLayer atan2 PI m features)
  = if existsb (String.eqb id) managedSourceIds
    then overlaySource atan2 PI features id
    else getSource id m.
Proof.
  unfold getSource. rewrite sources_after_pass.
  destruct (existsb (String.eqb id) managedSourceIds) eqn:Hid.
  - by destruct (overlaySource atan2 PI features id).
  - by rewrite overlaySource_managed.
Qed.

(** X12: A pass forgets what earlier passes left: the map after two passes is
    the map after the second alone, so a pass over the same collection
    changes nothing. *)
Theorem pass_forgets_earlier_pass m features features' :
  updateCustomColoredLayer atan2 PI (updateCustomColoredLayer atan2 PI m features) features'
  = updateCustomColoredLayer atan2 PI m features'.
Proof.
  apply MapEngine_eq.
  - apply map_eq. intros id. rewrite !sources_after_pass.
    destruct (overlaySource atan2 PI features' id) eqn:Hnew; [done |].
    destruct (existsb (String.eqb id) managedSourceIds) eqn:Hid; [done |].
    by rewrite overlaySource_managed.
  - rewrite !layers_after_pass, withoutLayers_app, withoutLayers_idempotent.
    by rewrite overlayLayers_managed, app_nil_r.
  - by rewrite !updateCustomColoredLayer_fitted.
Qed.

End PassFacts.

(** ** The mutators of the selection *)

Section SelectionFacts.

Context (atan2 : Q -> Q -> Q) (PI : Q) (hat : nat -> string).

Implicit Types (d : DrawStore) (f : Feature) (id color text : string).

(** A loop that replaces, identifier by identifier, the stored feature by
    a copy, seen from one identifier. *)
Lemma draw_get_each (step : DrawStore -> string -> DrawStore)
    (copy : string -> Feature -> Feature) :
  (forall d id id',
      draw_get id' (step d id)
      = if decide (id' = id) then copy id <$> draw_get id d else draw_get id' d) ->
  (forall id f, copy id (copy id f) = copy id f) ->
  forall (ids : list string) id d,
    draw_get id (fold_left step ids d)
    = if decide (id ∈ ids) then copy id <$> draw_get id d else draw_get id d.
Proof.
  intros Hstep Hcopy. induction ids as [|id0 ids IH]; intros id d; cbn [fold_left].
  - rewrite decide_False; [done | apply not_elem_of_nil].
  - rewrite IH, Hstep.
    destruct (decide (id = id0)) as [-> | Hne].
    + rewrite (decide_True (P := id0 ∈ id0 :: ids)) by constructor.
      destruct (decide (id0 ∈ ids)); [| done].
      destruct (draw_get id0 d); cbn; [| done]. by rewrite Hcopy.
    + destruct (decide (id ∈ ids)) as [Hin | Hnot].
      * rewrite (decide_True (P := id ∈ id0 :: ids)); [done | by constructor].
      * rewrite (decide_False (P := id ∈ id0 :: ids)); [done |].
        intros [? | ?]%elem_of_cons; done.
Qed.

Lemma draw_get_replace id id' (g : Feature) d :
  f_id g = Some id ->
  draw_get id' (draw_add hat g (draw_delete [id] d)).1
  = if decide (id' = id) then Some g else draw_get id' d.
Proof.
  intros Hg. rewrite (draw_get_add hat id id') by done.
  destruct (decide (id' = id)); [done |].
  apply draw_get_delete_other. rewrite list_elem_of_singleton. congruence.
Qed.

Lemma draw_get_strokeSelected color (width : option Q) d id id' :
  draw_get id' (strokeSelected hat color width d id)
  = if decide (id' = id) then strokedCopy color width id <$> draw_get id d
    else draw_get id' d.
Proof.
  unfold strokeSelected. destruct (draw_get id d) as [f|] eqn:Hf.
  - rewrite draw_get_replace by done. destruct (decide (id' = id)); [done |].
    destruct width; by rewrite !draw_get_setFeatureProperty_ne.
  - destruct (decide (id' = id)) as [-> |]; [by rewrite Hf | done].
Qed.

Lemma draw_get_labelSelected text d id id' :
  draw_get id' (labelSelected hat text d id)
  = if decide (id' = id) then labelledCopy text id <$> draw_get id d
    else draw_get id' d.
Proof.
  unfold labelSelected. destruct (draw_get id d) as [f|] eqn:Hf.
  - by rewrite draw_get_replace.
  - destruct (decide (id' = id)) as [-> |]; [by rewrite Hf | done].
Qed.

Lemma draw_get_unlabelSelected d id id' :
  draw_get id' (unlabelSelected hat d id)
  = if decide (id' = id) then unlabelledCopy id <$> draw_get id d
    else draw_get id' d.
Proof.
  unfold unlabelSelected. destruct (draw_get id d) as [f|] eqn:Hf.
  - by rewrite draw_get_replace.
  - destruct (decide (id' = id)) as [-> |]; [by rewrite Hf | done].
Qed.

Lemma setStroke_idempotent color (width : option Q) (props : gmap string JValue) :
  setStroke color width (setStroke color width props) = setStroke color width props.
Proof.
  apply map_eq. intros key. unfold setStroke.
  destruct width; repeat (rewrite lookup_insert; case_decide); done.
Qed.

Lemma strokedCopy_idempotent color (width : option Q) id f :
  strokedCopy color width id (strokedCopy color width id f) = strokedCopy color width id f.
Proof.
  unfold strokedCopy. f_equal.
  change (propsOf (mkFeature (Some id) (f_geometry f)
                     (Some (setStroke color width (propsOf f)))))
    with (setStroke color width (propsOf f)).
  by rewrite setStroke_idempotent.
Qed.

Lemma labelledCopy_idempotent text id f :
  labelledCopy text id (labelledCopy text id f) = labelledCopy text id f.
Proof.
  unfold labelledCopy. f_equal.
  change (propsOf (mkFeature (Some id) (f_geometry f)
                     (Some (<["labelText" := JStr text]> (propsOf f)))))
    with (<["labelText" := JStr text]> (propsOf f)).
  by rewrite insert_insert_eq.
Qed.

Lemma unlabelledCopy_idempotent id f :
  unlabelledCopy id (unlabelledCopy id f) = unlabelledCopy id f.
Proof.
  unfold unlabelledCopy. f_equal. cbn [f_properties].
  destruct (f_properties f) as [props|]; [| done]. cbn. by rewrite delete_delete_eq.
Qed.

Lemma d_selected_draw_add (g : Feature) d : d_selected (draw_add hat g d).1 = d_selected d.
Proof.
  unfold draw_add. destruct (f_id g) as [id|]; [| done].
  by destruct (existsb (hasId id) (d_features d)).
Qed.

Lemma elem_of_selected_delete id id0 d :
  id ∈ d_selected (draw_delete [id0] d) <-> id ∈ d_selected d /\ id <> id0.
Proof.
  unfold draw_delete. cbn [d_selected existsb].
  rewrite list_elem_of_In, filter_In, <- list_elem_of_In, orb_false_r, negb_true_iff.
  by rewrite String.eqb_neq.
Qed.

Lemma isStored_exists d id : existsb (hasId id) (d_features d) = true <-> isStored d id.
Proof.
  unfold isStored, draw_get. split.
  - intros Hex. destruct (find (hasId id) (d_features d)) eqn:Hfind; [by eexists |].
    apply existsb_find_none in Hfind. congruence.
  - intros [f Hf]. apply find_some in Hf as [Hin Hid].
    apply existsb_exists. by exists f.
Qed.

(** The selection after a loop each round of which takes its identifier
    out of the selection when a feature is stored under it. *)
Lemma selected_after_each (step : DrawStore -> string -> DrawStore) :
  (forall d id0 id,
      id ∈ d_selected (step d id0) <-> id ∈ d_selected d /\ ~ (id = id0 /\ isStored d id0)) ->
  (forall d id0 id, isStored (step d id0) id <-> isStored d id) ->
  forall (ids : list string) d id,
    id ∈ d_selected (fold_left step ids d)
    <-> id ∈ d_selected d /\ ~ (id ∈ ids /\ isStored d id).
Proof.
  clear atan2 PI hat.
  intros Hsel Hstored. induction ids as [|id0 ids IH]; intros d id; cbn [fold_left].
  - rewrite elem_of_nil. tauto.
  - rewrite IH, Hsel, Hstored, elem_of_cons.
    destruct (decide (id = id0)) as [-> | Hne]; tauto.
Qed.

Lemma isStored_step (step : DrawStore -> string -> DrawStore)
    (copy : string -> Feature -> Feature) :
  (forall d id id',
      draw_get id' (step d id)
      = if decide (id' = id) then copy id <$> draw_get id d else draw_get id' d) ->
  forall d id0 id, isStored (step d id0) id <-> isStored d id.
Proof.
  intros Hstep d id0 id. unfold isStored. rewrite Hstep.
  destruct (decide (id = id0)) as [-> |]; [| done].
  by rewrite fmap_is_Some.
Qed.

Lemma selected_labelSelected text d id0 id :
  id ∈ d_selected (labelSelected hat text d id0)
  <-> id ∈ d_selected d /\ ~ (id = id0 /\ isStored d id0).
Proof.
  clear atan2 PI.
  unfold labelSelected, isStored. destruct (draw_get id0 d) as [f|].
  - rewrite d_selected_draw_add, elem_of_selected_delete.
    split; [intros [? ?]; split; [done | tauto] | intros [? Hn]; split; [done |]].
    intros ->. apply Hn. split; [done | by eexists].
  - split; [intros ?; split; [done | by intros [_ [? ?]]] | tauto].
Qed.

Lemma selected_unlabelSelected d id0 id :
  id ∈ d_selected (unlabelSelected hat d id0)
  <-> id ∈ d_selected d /\ ~ (id = id0 /\ isStored d id0).
Proof.
  clear atan2 PI.
  unfold unlabelSelected, isStored. destruct (draw_get id0 d) as [f|].
  - rewrite d_selected_draw_add, elem_of_selected_delete.
    split; [intros [? ?]; split; [done | tauto] | intros [? Hn]; split; [done |]].
    intros ->. apply Hn. split; [done | by eexists].
  - split; [intros ?; split; [done | by intros [_ [? ?]]] | tauto].
Qed.

Lemma selected_reselect (ids : list string) d id :
  id ∈ d_selected (draw_selectFeatures ids d) <-> id ∈ ids /\ isStored d id.
Proof.
  unfold draw_selectFeatures. cbn [d_selected].
  by rewrite list_elem_of_In, filter_In, <- list_elem_of_In, isStored_exists.
Qed.

End SelectionFacts.

Section SelectionEffects.

Context (atan2 : Q -> Q -> Q) (PI : Q) (hat : nat -> string).

Implicit Types (c : Component) (d : DrawStore) (f : Feature) (id color text : string).

(** X14: [changeSelectedStroke] on a non-empty selection: every selected
    feature is replaced by its copy with [strokeColor] (and [strokeWidth]
    when a width is given) set, every other feature stays as it was, the
    selection stays on the features that are stored, and the collection
    handed to [onDrawChange] and to the layer synchroniser is the store
    afterwards. *)
Theorem changeSelectedStroke_effect color (width : option Q) c d :
  drawRef c = Some d ->
  draw_getSelectedIds d <> [] ->
  let c' := changeSelectedStroke atan2 PI hat color width c in
  exists d',
    drawRef c' = Some d'
    /\ (forall id,
          draw_get id d'
          = if decide (id ∈ draw_getSelectedIds d)
            then strokedCopy color width id <$> draw_get id d
            else draw_get id d)
    /\ (forall id, id ∈ draw_getSelectedIds d'
                   <-> id ∈ draw_getSelectedIds d /\ isStored d id)
    /\ emitted c' = emitted c ++ [draw_getAll d']
    /\ mapRef c' = syncLayers atan2 PI (mapRef c) (draw_getAll d').
Proof.
  intros Hd Hsel c'. unfold c', changeSelectedStroke. rewrite Hd.
  destruct (draw_getSelectedIds d) as [|id0 ids] eqn:Hids; [done |].
  eexists. split; [reflexivity |].
  pose proof (draw_get_each (strokeSelected hat color width) (strokedCopy color width)
                (draw_get_strokeSelected hat color width)
                (strokedCopy_idempotent color width) (id0 :: ids)) as Hget.
  split; [| split; [| done]].
  - intros id. apply Hget.
  - intros id. rewrite selected_reselect. unfold isStored. rewrite Hget.
    destruct (decide (id ∈ id0 :: ids)); [by rewrite fmap_is_Some | done].
Qed.

(** X15: [changeSelectedFill] on a non-empty selection leaves every feature
    that is not selected as it was and keeps the selection on the features
    that are stored. *)
Theorem changeSelectedFill_frame color (opacity : option Q) c d :
  drawRef c = Some d ->
  draw_getSelectedIds d <> [] ->
  exists d',
    drawRef (changeSelectedFill atan2 PI hat color opacity c) = Some d'
    /\ (forall id, id ∉ draw_getSelectedIds d -> draw_get id d' = draw_get id d)
    /\ (forall id, id ∈ draw_getSelectedIds d'
                   <-> id ∈ draw_getSelectedIds d /\ isStored d id).
Proof.
  intros Hd Hsel. unfold changeSelectedFill. rewrite Hd.
  destruct (draw_getSelectedIds d) as [|id0 ids] eqn:Hids; [done |].
  eexists. split; [reflexivity |].
  pose proof (draw_get_fillSelected_all hat color opacity (id0 :: ids)) as Hget.
  split.
  - intros id Hid.
    transitivity (draw_get id (fold_left (fillSelected hat color opacity) (id0 :: ids) d));
      [reflexivity | by rewrite Hget, decide_False].
  - intros id. rewrite selected_reselect. unfold isStored. rewrite Hget.
    destruct (decide (id ∈ id0 :: ids)); [by rewrite fmap_is_Some | done].
Qed.

End SelectionEffects.

Lemma changeSelectedStroke_effect_square :
  exists d',
    drawRef (changeSelectedStroke zeroAtan2 3 constantHat "#ff0000" (Some 2%Q) squareSelected)
    = Some d'
    /\ draw_get "a" d' = Some (strokedCopy "#ff0000" (Some 2%Q) "a" squareFeature)
    /\ draw_getSelectedIds d' = ["a"].
Proof.
  destruct (changeSelectedStroke_effect zeroAtan2 3 constantHat "#ff0000" (Some 2%Q) squareSelected
              (mkDraw [squareFeature] ["a"] 0) eq_refl)
    as (d' & Hd' & Hget & _); [discriminate |].
  exists d'. split; [exact Hd' |]. split; [apply (Hget "a") |].
  injection Hd' as <-. reflexivity.
Defined.

Lemma changeSelectedFill_frame_square :
  exists d',
    drawRef (changeSelectedFill zeroAtan2 3 constantHat "#ff0000" None squareSelected)
    = Some d'
    /\ draw_get "b" d' = None
    /\ draw_getSelectedIds d' = ["a"].
Proof.
  destruct (changeSelectedFill_frame zeroAtan2 3 constantHat "#ff0000" None squareSelected
              (mkDraw [squareFeature] ["a"] 0) eq_refl)
    as (d' & Hd' & Hframe & _); [discriminate |].
  exists d'. split; [exact Hd' |]. split.
  - rewrite (Hframe "b"); [reflexivity |].
    intros Hin. apply list_elem_of_In in Hin. destruct Hin as [[=] | []].
  - injection Hd' as <-. reflexivity.
Defined.


Section TextEffects.

Context (atan2 : Q -> Q -> Q) (PI : Q) (hat : nat -> string).

Implicit Types (c : Component) (d : DrawStore) (f : Feature) (id text : string).

(** X16: [addTextToSelected] on a non-empty selection: every selected feature
    is replaced by its copy with [labelText] set, every other feature
    stays as it was, and, the features being put back without
    reselecting, no stored feature is selected afterwards. *)
Theorem addTextToSelected_effect text c d :
  drawRef c = Some d ->
  draw_getSelectedIds d <> [] ->
  let c' := addTextToSelected atan2 PI hat text c in
  exists d',
    drawRef c' = Some d'
    /\ (forall id,
          draw_get id d'
          = if decide (id ∈ draw_getSelectedIds d)
            then labelledCopy text id <$> draw_get id d
            else draw_get id d)
    /\ (forall id, id ∈ draw_getSelectedIds d'
                   <-> id ∈ draw_getSelectedIds d /\ ~ isStored d id)
    /\ emitted c' = emitted c ++ [draw_getAll d']
    /\ mapRef c' = syncLayers atan2 PI (mapRef c) (draw_getAll d').
Proof.
  intros Hd Hsel c'. unfold c', addTextToSelected. rewrite Hd.
  destruct (draw_getSelectedIds d) as [|id0 ids] eqn:Hids; [done |].
  eexists. split; [reflexivity |]. split; [| split; [| done]].
  - intros id.
    apply (draw_get_each (labelSelected hat text) (labelledCopy text)
             (draw_get_labelSelected hat text) (labelledCopy_idempotent text)).
  - intros id. unfold draw_getSelectedIds.
    rewrite (selected_after_each (labelSelected hat text)
               (selected_labelSelected hat text)
               (isStored_step _ _ (draw_get_labelSelected hat text))).
    unfold draw_getSelectedIds in Hids. rewrite Hids. tauto.
Qed.

(** X17: [removeTextFromSelected] on a non-empty selection: every selected
    feature is replaced by its copy without [labelText], every other
    feature stays as it was, and no stored feature is selected
    afterwards. *)
Theorem removeTextFromSelected_effect c d :
  drawRef c = Some d ->
  draw_getSelectedIds d <> [] ->
  let c' := removeTextFromSelected atan2 PI hat c in
  exists d',
    drawRef c' = Some d'
    /\ (forall id,
          draw_get id d'
          = if decide (id ∈ draw_getSelectedIds d)
            then unlabelledCopy id <$> draw_get id d
            else draw_get id d)
    /\ (forall id, id ∈ draw_getSelectedIds d'
                   <-> id ∈ draw_getSelectedIds d /\ ~ isStored d id)
    /\ emitted c' = emitted c ++ [draw_getAll d']
    /\ mapRef c' = syncLayers atan2 PI (mapRef c) (draw_getAll d').
Proof.
  intros Hd Hsel c'. unfold c', removeTextFromSelected. rewrite Hd.
  destruct (draw_getSelectedIds d) as [|id0 ids] eqn:Hids; [done |].
  eexists. split; [reflexivity |]. split; [| split; [| done]].
  - intros id.
    apply (draw_get_each (unlabelSelected hat) unlabelledCopy
             (draw_get_unlabelSelected hat) unlabelledCopy_idempotent).
  - intros id. unfold draw_getSelectedIds.
    rewrite (selected_after_each (unlabelSelected hat)
               (selected_unlabelSelected hat)
               (isStored_step _ _ (draw_get_unlabelSelected hat))).
    unfold draw_getSelectedIds in Hids. rewrite Hids. tauto.
Qed.

Lemma no_selection_left (step : DrawStore -> string -> DrawStore) d :
  (forall id, id ∈ d_selected (fold_left step (d_selected d) d)
              <-> id ∈ d_selected d /\ ~ isStored d id) ->
  (forall id, id ∈ d_selected d -> isStored d id) ->
  d_selected (fold_left step (d_selected d) d) = [].
Proof.
  intros Hsel Hall.
  destruct (d_selected (fold_left step (d_selected d) d)) as [|id rest]; [done |].
  destruct (proj1 (Hsel id)) as [Hin Hnot]; [left |].
  destruct Hnot. by apply Hall.
Qed.

(** X18: A label put on the selection cannot be taken off again without
    selecting anew: when every selected identifier is stored,
    [removeTextFromSelected] right after [addTextToSelected] finds nothing
    selected and changes nothing. *)
Theorem removeText_after_addText_changes_nothing text c d :
  drawRef c = Some d ->
  (forall id, id ∈ draw_getSelectedIds d -> isStored d id) ->
  removeTextFromSelected atan2 PI hat (addTextToSelected atan2 PI hat text c)
  = addTextToSelected atan2 PI hat text c.
Proof.
  intros Hd Hall. unfold addTextToSelected. rewrite Hd.
  destruct (draw_getSelectedIds d) as [|id0 ids] eqn:Hids.
  - unfold removeTextFromSelected. by rewrite Hd, Hids.
  - unfold removeTextFromSelected. cbn [drawRef].
    unfold draw_getSelectedIds in *. rewrite <- Hids.
    rewrite (no_selection_left (labelSelected hat text));
      [done | | intros id; rewrite Hids; apply Hall].
    intros id.
    rewrite (selected_after_each (labelSelected hat text)
               (selected_labelSelected hat text)
               (isStored_step _ _ (draw_get_labelSelected hat text))).
    tauto.
Qed.

(** X19: [deleteSelected] on a non-empty selection removes the features stored
    under the selected identifiers, leaves the others as they were, and
    leaves nothing selected. *)
Theorem deleteSelected_effect c d :
  drawRef c = Some d ->
  draw_getSelectedIds d <> [] ->
  let c' := deleteSelected atan2 PI c in
  exists d',
    drawRef c' = Some d'
    /\ (forall id,
          draw_get id d'
          = if decide (id ∈ draw_getSelectedIds d) then None else draw_get id d)
    /\ draw_getSelectedIds d' = []
    /\ emitted c' = emitted c ++ [draw_getAll d']
    /\ mapRef c' = syncLayers atan2 PI (mapRef c) (draw_getAll d').
Proof.
  intros Hd Hsel c'. unfold c', deleteSelected. rewrite Hd.
  destruct (draw_getSelectedIds d) as [|id0 ids] eqn:Hids; [done |].
  eexists. split; [reflexivity |]. split; [| split; [| done]].
  - intros id. destruct (decide (id ∈ id0 :: ids)).
    + by apply draw_get_delete_in.
    + by apply draw_get_delete_other.
  - unfold draw_getSelectedIds in *. unfold draw_delete. cbn [d_selected].
    rewrite Hids.
    destruct (List.filter _ (id0 :: ids)) as [|s rest] eqn:Hrest; [done |].
    assert (In s (List.filter (fun s => negb (existsb (String.eqb s) (id0 :: ids)))
                    (id0 :: ids))) as Hin by (rewrite Hrest; left; done).
    apply filter_In in Hin as [Hin Hout]. apply negb_true_iff in Hout.
    assert (existsb (String.eqb s) (id0 :: ids) = true); [| congruence].
    apply existsb_exists. exists s. split; [done | apply String.eqb_refl].
Qed.

(** X20: Without a selection, or without a draw control, the stroke, text and
    delete mutators change nothing: no feature is touched, nothing is
    handed to [onDrawChange] and no synchroniser pass runs. *)
Theorem mutators_without_selection color (width : option Q) text c :
  (forall d, drawRef c = Some d -> draw_getSelectedIds d = []) ->
  changeSelectedStroke atan2 PI hat color width c = c
  /\ addTextToSelected atan2 PI hat text c = c
  /\ removeTextFromSelected atan2 PI hat c = c
  /\ deleteSelected atan2 PI c = c.
Proof.
  intros Hnone.
  unfold changeSelectedStroke, addTextToSelected, removeTextFromSelected, deleteSelected.
  destruct (drawRef c) as [d|]; [| done].
  by rewrite (Hnone d eq_refl).
Qed.

End TextEffects.

Lemma addTextToSelected_effect_square :
  exists d',
    drawRef (addTextToSelected zeroAtan2 3 constantHat "plot" squareSelected) = Some d'
    /\ draw_get "a" d' = Some (labelledCopy "plot" "a" squareFeature)
    /\ draw_getSelectedIds d' = [].
Proof.
  destruct (addTextToSelected_effect zeroAtan2 3 constantHat "plot" squareSelected
              (mkDraw [squareFeature] ["a"] 0) eq_refl)
    as (d' & Hd' & Hget & _); [discriminate |].
  exists d'. split; [exact Hd' |]. split; [apply (Hget "a") |].
  injection Hd' as <-. reflexivity.
Defined.

Lemma removeTextFromSelected_effect_labelled :
  exists d',
    drawRef (removeTextFromSelected zeroAtan2 3 constantHat labelledSelected) = Some d'
    /\ draw_get "a" d' = Some (unlabelledCopy "a" labelledPolygon)
    /\ draw_getSelectedIds d' = [].
Proof.
  destruct (removeTextFromSelected_effect zeroAtan2 3 constantHat labelledSelected
              (mkDraw [labelledPolygon] ["a"] 0) eq_refl)
    as (d' & Hd' & Hget & _); [discriminate |].
  exists d'. split; [exact Hd' |]. split; [apply (Hget "a") |].
  injection Hd' as <-. reflexivity.
Defined.

Lemma removeText_after_addText_changes_nothing_square :
  removeTextFromSelected zeroAtan2 3 constantHat
    (addTextToSelected zeroAtan2 3 constantHat "plot" squareSelected)
  = addTextToSelected zeroAtan2 3 constantHat "plot" squareSelected.
Proof.
  apply (removeText_after_addText_changes_nothing zeroAtan2 3 constantHat "plot" squareSelected
           (mkDraw [squareFeature] ["a"] 0) eq_refl).
  intros id Hid. apply list_elem_of_In in Hid. destruct Hid as [<- | []].
  by eexists.
Defined.

Lemma deleteSelected_effect_square :
  exists d',
    drawRef (deleteSelected zeroAtan2 3 squareSelected) = Some d'
    /\ draw_get "a" d' = None
    /\ draw_getSelectedIds d' = [].
Proof.
  destruct (deleteSelected_effect zeroAtan2 3 squareSelected (mkDraw [squareFeature] ["a"] 0) eq_refl)
    as (d' & Hd' & Hget & Hsel & _); [discriminate |].
  exists d'. split; [exact Hd' |]. split; [apply (Hget "a") | exact Hsel].
Defined.

Lemma mutators_without_selection_square :
  changeSelectedStroke zeroAtan2 3 constantHat "#ff0000" None squareUnselected
  = squareUnselected
  /\ addTextToSelected zeroAtan2 3 constantHat "plot" squareUnselected = squareUnselected
  /\ removeTextFromSelected zeroAtan2 3 constantHat squareUnselected = squareUnselected
  /\ deleteSelected zeroAtan2 3 squareUnselected = squareUnselected.
Proof.
  apply (mutators_without_selection zeroAtan2 3 constantHat "#ff0000" None "plot" squareUnselected).
  intros d [= <-]. reflexivity.
Defined.


(** ** The mutators of the whole store *)

Section StoreEffects.

Context (atan2 : Q -> Q -> Q) (PI : Q) (hat : nat -> string).

Implicit Types (c : Component) (d : DrawStore) (f : Feature) (id color : string).

(** X21: [clearDrawings] empties the store and the selection, hands the empty
    collection to [onDrawChange], and takes every managed layer and source
    off the map, leaving the other layers, in their order, and the other
    sources as they were. *)
Theorem clearDrawings_effect c d (m : MapEngine) :
  drawRef c = Some d ->
  mapRef c = Some m ->
  let c' := clearDrawings atan2 PI c in
  exists d' m',
    drawRef c' = Some d' /\ mapRef c' = Some m'
    /\ draw_getAll d' = [] /\ draw_getSelectedIds d' = []
    /\ emitted c' = emitted c ++ [[]]
    /\ layers m' = withoutLayers managedLayerIds (layers m)
    /\ (forall id, getSource id m'
                   = if existsb (String.eqb id) managedSourceIds then None
                     else getSource id m).
Proof.
  intros Hd Hm c'. unfold c', clearDrawings. rewrite Hd, Hm. cbn [syncLayers fmap option_fmap option_map].
  eexists _, _. repeat (split; [reflexivity |]). split.
  - rewrite layers_after_pass. apply app_nil_r.
  - intros id. unfold getSource. rewrite sources_after_pass.
    by destruct (existsb (String.eqb id) managedSourceIds).
Qed.

(** A loop that puts every feature of a list back into the store with
    restyled properties, seen from one identifier. *)
Lemma draw_get_restyle_all (style : gmap string JValue -> gmap string JValue)
    (step : DrawStore -> Feature -> DrawStore) :
  (forall d f,
      step d f
      = (draw_add hat (withProperties f (style (propsOf f)))
           (draw_delete (option_list (f_id f)) d)).1) ->
  forall (features : list Feature) d id,
    uniqueIds features ->
    draw_get id (fold_left step features d)
    = match find (hasId id) features with
      | Some f => Some (withProperties f (style (propsOf f)))
      | None => draw_get id d
      end.
Proof.
  intros Hstep. induction features as [|f rest IH]; intros d id Hu; [done |].
  apply (uniqueIds_cons f rest) in Hu as [(idf & Hidf & Hfresh) Hu].
  cbn [fold_left find]. rewrite IH by done.
  assert (draw_get id (step d f)
          = if decide (id = idf) then Some (withProperties f (style (propsOf f)))
            else draw_get id d) as Hone.
  { rewrite Hstep, Hidf. cbn [option_list]. by apply draw_get_replace. }
  destruct (hasId id f) eqn:Hid.
  - apply hasId_true in Hid. assert (id = idf) as -> by congruence.
    destruct (find (hasId idf) rest) as [g|] eqn:Hfind.
    + apply find_some in Hfind as [Hin Hg]. apply hasId_true in Hg.
      destruct (Hfresh g); [by apply list_elem_of_In | done].
    + by rewrite Hone, decide_True.
  - destruct (find (hasId id) rest); [done |].
    rewrite Hone, decide_False; [done |].
    intros ->. apply not_true_iff_false in Hid. apply Hid. by apply hasId_true.
Qed.

Lemma uniqueIds_filter (p : Feature -> bool) (features : list Feature) :
  uniqueIds features -> uniqueIds (List.filter p features).
Proof.
  intros [Hall Hnd]. split.
  - apply Forall_forall. intros f Hf. apply list_elem_of_In, filter_In in Hf as [Hf _].
    apply (proj1 (Forall_forall _ _) Hall). by apply list_elem_of_In.
  - clear Hall. induction features as [|f rest IH]; [done |].
    rewrite fmap_cons in Hnd. apply NoDup_cons in Hnd as [Hfresh Hnd].
    cbn [List.filter]. destruct (p f); [| by apply IH].
    rewrite fmap_cons. apply NoDup_cons. split; [| by apply IH].
    intros Hin. apply Hfresh. apply list_elem_of_fmap in Hin as (g & -> & Hg).
    apply list_elem_of_fmap_2. by apply list_elem_of_In, filter_In in Hg as [Hg%list_elem_of_In _].
Qed.

Lemma find_filter_unique (p : Feature -> bool) (features : list Feature) id :
  uniqueIds features ->
  find (hasId id) (List.filter p features)
  = match find (hasId id) features with
    | Some f => if p f then Some f else None
    | None => None
    end.
Proof.
  induction features as [|f rest IH]; intros Hu; [done |].
  apply (uniqueIds_cons f rest) in Hu as [(idf & Hidf & Hfresh) Hu].
  cbn [List.filter find]. destruct (hasId id f) eqn:Hid.
  - destruct (p f); cbn [find]; [by rewrite Hid |].
    apply hasId_true in Hid. rewrite IH by done.
    destruct (find (hasId id) rest) as [g|] eqn:Hfind; [| done].
    apply find_some in Hfind as [Hin Hg]. apply hasId_true in Hg.
    destruct (Hfresh g); [by apply list_elem_of_In | congruence].
  - destruct (p f); cbn [find]; rewrite ?Hid; by apply IH.
Qed.

Lemma draw_get_restyle_polygons (style : gmap string JValue -> gmap string JValue)
    (step : DrawStore -> Feature -> DrawStore) d id :
  (forall d f,
      step d f
      = (draw_add hat (withProperties f (style (propsOf f)))
           (draw_delete (option_list (f_id f)) d)).1) ->
  uniqueIds (draw_getAll d) ->
  draw_get id (fold_left step (List.filter isPolygonal (draw_getAll d)) d)
  = (fun f => if isPolygonal f then withProperties f (style (propsOf f)) else f)
      <$> draw_get id d.
Proof.
  intros Hstep Hu.
  rewrite (draw_get_restyle_all style step Hstep) by by apply uniqueIds_filter.
  rewrite find_filter_unique by done. unfold draw_get, draw_getAll.
  destruct (find (hasId id) (d_features d)) as [f|]; [| done].
  cbn. by destruct (isPolygonal f).
Qed.

(** X22: [applyFillToAll], on a store whose identifiers are present and
    pairwise different, replaces every Polygon and MultiPolygon by its
    copy with the fill properties set and leaves every other feature as it
    was. *)
Theorem applyFillToAll_effect color (opacity : option Q) c d :
  drawRef c = Some d ->
  uniqueIds (draw_getAll d) ->
  let c' := applyFillToAll atan2 PI hat color opacity c in
  exists d',
    drawRef c' = Some d'
    /\ (forall id,
          draw_get id d'
          = (fun f => if isPolygonal f
                      then withProperties f (setFill color opacity (propsOf f))
                      else f) <$> draw_get id d)
    /\ emitted c' = emitted c ++ [draw_getAll d']
    /\ mapRef c' = syncLayers atan2 PI (mapRef c) (draw_getAll d').
Proof.
  intros Hd Hu c'. unfold c', applyFillToAll. rewrite Hd.
  eexists. split; [reflexivity |]. split; [| done].
  intros id. by apply (draw_get_restyle_polygons (setFill color opacity)).
Qed.

(** X23: [applyStrokeToAll], on a store whose identifiers are present and
    pairwise different, replaces every Polygon and MultiPolygon by its
    copy with the stroke properties set and leaves every other feature as
    it was. *)
Theorem applyStrokeToAll_effect color (width : option Q) c d :
  drawRef c = Some d ->
  uniqueIds (draw_getAll d) ->
  let c' := applyStrokeToAll atan2 PI hat color width c in
  exists d',
    drawRef c' = Some d'
    /\ (forall id,
          draw_get id d'
          = (fun f => if isPolygonal f
                      then withProperties f (setStroke color width (propsOf f))
                      else f) <$> draw_get id d)
    /\ emitted c' = emitted c ++ [draw_getAll d']
    /\ mapRef c' = syncLayers atan2 PI (mapRef c) (draw_getAll d').
Proof.
  intros Hd Hu c'. unfold c', applyStrokeToAll. rewrite Hd.
  eexists. split; [reflexivity |]. split; [| done].
  intros id. by apply (draw_get_restyle_polygons (setStroke color width)).
Qed.

End StoreEffects.

Lemma uniqueIds_square : uniqueIds [squareFeature].
Proof.
  split.
  - apply Forall_cons. split; [by eexists | by apply Forall_nil].
  - apply NoDup_cons. split; [apply not_elem_of_nil | apply NoDup_nil_2].
Qed.

Lemma clearDrawings_effect_square :
  exists d' m',
    drawRef (clearDrawings zeroAtan2 3 squareSelected) = Some d'
    /\ mapRef (clearDrawings zeroAtan2 3 squareSelected) = Some m'
    /\ draw_getAll d' = [] /\ layers m' = [].
Proof.
  destruct (clearDrawings_effect zeroAtan2 3 squareSelected
              (mkDraw [squareFeature] ["a"] 0) emptyMap eq_refl eq_refl)
    as (d' & m' & Hd' & Hm' & Hall & _ & _ & Hlayers & _).
  exists d', m'. repeat (split; [done |]). exact Hlayers.
Defined.

Lemma applyFillToAll_effect_square :
  exists d',
    drawRef (applyFillToAll zeroAtan2 3 constantHat "#3bb2d0" None squareUnselected) = Some d'
    /\ draw_get "a" d'
       = Some (withProperties squareFeature (setFill "#3bb2d0" None (propsOf squareFeature))).
Proof.
  destruct (applyFillToAll_effect zeroAtan2 3 constantHat "#3bb2d0" None squareUnselected
              (mkDraw [squareFeature] [] 0) eq_refl uniqueIds_square)
    as (d' & Hd' & Hget & _).
  exists d'. split; [exact Hd' | apply (Hget "a")].
Defined.

Lemma applyStrokeToAll_effect_square :
  exists d',
    drawRef (applyStrokeToAll zeroAtan2 3 constantHat "#000000" (Some 2%Q) squareUnselected)
    = Some d'
    /\ draw_get "a" d'
       = Some (withProperties squareFeature
                 (setStroke "#000000" (Some 2%Q) (propsOf squareFeature))).
Proof.
  destruct (applyStrokeToAll_effect zeroAtan2 3 constantHat "#000000" (Some 2%Q)
              squareUnselected (mkDraw [squareFeature] [] 0) eq_refl uniqueIds_square)
    as (d' & Hd' & Hget & _).
  exists d'. split; [exact Hd' | apply (Hget "a")].
Defined.

(** ** Export and the colour picker of the application *)

Section PickerFacts.

Implicit Types (c : Component) (d : DrawStore) (f g e : Feature) (id color : string).

Lemma append_not_empty (s t : string) : t <> "" -> s +:+ t <> "".
Proof. intros Ht. by destruct s. Qed.

Lemma hexToRgb_not_empty color : hexToRgb color <> "".
Proof. unfold hexToRgb. cbv zeta. by apply append_not_empty. Qed.

Lemma hexToRgb_truthy color : truthy (Some (JStr (hexToRgb color))) = true.
Proof. cbn. apply negb_true_iff, String.eqb_neq, hexToRgb_not_empty. Qed.

Lemma withProperties_own e (props : gmap string JValue) :
  f_properties e = Some props -> withProperties e (propsOf e) = e.
Proof. intros He. destruct e as [i g p]. cbn in *. subst p. reflexivity. Qed.

Lemma exportFeature_again g e : exportFeature g = Some e -> exportFeature e = Some e.
Proof.
  unfold exportFeature at 1.
  destruct (truthy (propsOf g !! "fillColor") && negb (truthy (propsOf g !! "fillRgb")))
    eqn:Hcond.
  - unfold hexToRgbOf. apply andb_true_iff in Hcond as [Hcolor _]. rewrite Hcolor.
    destruct (propsOf g !! "fillColor") as [[| | | s]|]; try discriminate.
    cbn. intros [= <-]. unfold exportFeature.
    change (propsOf (withProperties g (<["fillRgb" := JStr (hexToRgb s)]> (propsOf g))))
      with (<["fillRgb" := JStr (hexToRgb s)]> (propsOf g)).
    by rewrite (lookup_insert_eq (propsOf g)), hexToRgb_truthy, andb_false_r.
  - intros [= <-]. unfold exportFeature.
    change (propsOf (withProperties g (propsOf g))) with (propsOf g).
    by rewrite Hcond.
Qed.

(** X24: An exported collection is exported unchanged: the callback of
    [getDrawData] leaves a feature it has produced as it is. *)
Theorem exported_collection_is_fixed (features exported : list Feature) :
  mapM exportFeature features = Some exported ->
  mapM exportFeature exported = Some exported.
Proof.
  intros Hexport. apply mapM_Some_1 in Hexport. apply mapM_Some_2.
  induction Hexport as [|g e gs es Hge _ IH]; constructor; [| done].
  by apply (exportFeature_again g).
Qed.

End PickerFacts.

Section PickerEffects.

Context (atan2 : Q -> Q -> Q) (PI : Q) (hat : nat -> string).

Implicit Types (c : Component) (d : DrawStore) (f g e : Feature) (id color : string).

(** X25: [applyColorToSelected] raises no alert when a stored feature is
    selected: the feature is exported with the chosen colour. *)
Theorem applyColorToSelected_no_alert color (opacity : Q) c d id :
  drawRef c = Some d ->
  id ∈ draw_getSelectedIds d ->
  isStored d id ->
  (applyColorToSelected atan2 PI hat color opacity c).2 = false.
Proof.
  intros Hd Hid [f Hf]. unfold applyColorToSelected. cbn [snd].
  apply negb_false_iff, existsb_exists.
  set (c' := changeSelectedFill atan2 PI hat color (Some opacity) c).
  assert (exists d' g, drawRef c' = Some d' /\ g ∈ draw_getAll d'
                       /\ getProp "fillColor" g = Some (JStr color))
    as (d' & g & Hd' & Hg & Hcolor).
  { unfold c', changeSelectedFill. rewrite Hd.
    destruct (draw_getSelectedIds d) as [|id0 ids] eqn:Hids;
      [by apply elem_of_nil in Hid |].
    eexists _, (styledCopy color (Some opacity) id f). split; [reflexivity |].
    split; [| unfold getProp, styledCopy, setFill; cbn;
               by rewrite lookup_insert_ne, lookup_insert_ne, lookup_insert_eq].
    apply (draw_get_id id).
    transitivity (draw_get id (fold_left (fillSelected hat color (Some opacity))
                                 (id0 :: ids) d)); [reflexivity |].
    by rewrite draw_get_fillSelected_all, decide_True, Hf. }
  destruct (Forall2_partner _ _ _ (getDrawData_exportedAs c' d' Hd')) as [Hout _].
  destruct (Hout g Hg) as (e & He & _ & _ & Hkeys & _).
  exists e. split; [by apply list_elem_of_In |].
  apply bool_decide_eq_true. by rewrite Hkeys.
Qed.

(** X26: Without a selection [applyColorToSelected] changes nothing, and it
    raises no alert either when some stored feature already has the
    chosen colour. *)
Theorem applyColorToSelected_silent_without_selection color (opacity : Q) c f :
  (forall d, drawRef c = Some d -> draw_getSelectedIds d = []) ->
  f ∈ getDrawData c ->
  getProp "fillColor" f = Some (JStr color) ->
  applyColorToSelected atan2 PI hat color opacity c = (c, false).
Proof.
  intros Hnone Hf Hcolor. unfold applyColorToSelected.
  assert (changeSelectedFill atan2 PI hat color (Some opacity) c = c) as ->.
  { unfold changeSelectedFill. destruct (drawRef c) as [d|]; [| done].
    by rewrite (Hnone d eq_refl). }
  f_equal. apply negb_false_iff, existsb_exists.
  exists f. split; [by apply list_elem_of_In | by apply bool_decide_eq_true].
Qed.

End PickerEffects.

Lemma exported_collection_is_fixed_tinted :
  mapM exportFeature [tintedExported] = Some [tintedExported].
Proof.
  apply (exported_collection_is_fixed [tintedPolygon] [tintedExported]).
  reflexivity.
Defined.

Lemma applyColorToSelected_no_alert_square :
  (applyColorToSelected zeroAtan2 3 constantHat "#3bb2d0" (1 # 2) squareSelected).2 = false.
Proof.
  apply (applyColorToSelected_no_alert zeroAtan2 3 constantHat "#3bb2d0" (1 # 2)
           squareSelected (mkDraw [squareFeature] ["a"] 0) "a" eq_refl).
  - apply list_elem_of_In. left. reflexivity.
  - by eexists.
Defined.

Lemma applyColorToSelected_silent_without_selection_tinted :
  applyColorToSelected zeroAtan2 3 constantHat "#123456" (1 # 2) tintedComponent
  = (tintedComponent, false).
Proof.
  apply (applyColorToSelected_silent_without_selection zeroAtan2 3 constantHat
           "#123456" (1 # 2) tintedComponent tintedExported).
  - intros d [= <-]. reflexivity.
  - apply list_elem_of_In. left. reflexivity.
  - reflexivity.
Defined.

(** ** Defaults of created features *)

Section CreateFacts.

Implicit Types (f g : Feature) (key : string).

Lemma createDefaults_keeps f :
  let g := (createDefaults f).1 in
  f_id g = f_id f /\ f_geometry g = f_geometry f
  /\ (forall key v, getProp key f = Some v -> getProp key g = Some v).
Proof.
  cbn zeta. unfold createDefaults. cbv zeta.
  set (p0 := propsOf f).
  set (p1 := match p0 !! "fillColor" with
             | None => <["fillColor" := JStr "#ffffff"]> p0
             | Some _ => p0
             end).
  set (p2 := match p1 !! "fillOpacity" with
             | None => <["fillOpacity" := JNum (2 # 10)]> p1
             | Some _ => p1
             end).
  assert (forall key v, getProp key f = Some v -> p2 !! key = Some v) as Hp2.
  { intros key v Hv. rewrite <- getProp_propsOf in Hv. fold p0 in Hv.
    assert (p1 !! key = Some v) as Hp1.
    { unfold p1. destruct (p0 !! "fillColor") eqn:Hc; [done |].
      rewrite lookup_insert_ne; [done | congruence]. }
    unfold p2. destruct (p1 !! "fillOpacity") eqn:Ho; [done |].
    rewrite lookup_insert_ne; [done | congruence]. }
  destruct (p2 !! "fillRgb") eqn:Hrgb; [by repeat split |].
  destruct (hexToRgbOf (p2 !! "fillColor")); [| by repeat split].
  cbn [fst]. repeat split. intros key v Hv. rewrite getProp_withProperties.
  rewrite lookup_insert_ne; [by apply Hp2 |].
  intros <-. rewrite (Hp2 _ _ Hv) in Hrgb. discriminate.
Qed.

Lemma createDefaults_fills f :
  let g := (createDefaults f).1 in
  is_Some (getProp "fillColor" g) /\ is_Some (getProp "fillOpacity" g)
  /\ ((createDefaults f).2 = true -> is_Some (getProp "fillRgb" g)).
Proof.
  cbn zeta. unfold createDefaults. cbv zeta.
  set (p0 := propsOf f).
  set (p1 := match p0 !! "fillColor" with
             | None => <["fillColor" := JStr "#ffffff"]> p0
             | Some _ => p0
             end).
  set (p2 := match p1 !! "fillOpacity" with
             | None => <["fillOpacity" := JNum (2 # 10)]> p1
             | Some _ => p1
             end).
  assert (is_Some (p1 !! "fillColor")) as Hc1.
  { unfold p1. destruct (p0 !! "fillColor") eqn:Hc; [by rewrite Hc |].
    by rewrite lookup_insert_eq. }
  assert (is_Some (p2 !! "fillColor") /\ is_Some (p2 !! "fillOpacity")) as [Hc2 Ho2].
  { unfold p2. destruct (p1 !! "fillOpacity") eqn:Ho; [by rewrite Ho |].
    rewrite lookup_insert_ne by done. by rewrite lookup_insert_eq. }
  destruct (p2 !! "fillRgb") eqn:Hrgb.
  { cbn [fst snd]. rewrite !getProp_withProperties, Hrgb. done. }
  destruct (hexToRgbOf (p2 !! "fillColor")); cbn [fst snd];
    rewrite !getProp_withProperties.
  - rewrite !lookup_insert_ne by done. by rewrite lookup_insert_eq.
  - done.
Qed.

(** X27: The [draw.create] listener only adds: every created feature keeps
    its identifier, its geometry and every property value it came with,
    [fillColor], [fillOpacity] and [fillRgb] included, whether or not the
    loop ran to its end. *)
Theorem onDrawCreate_only_adds (created : list Feature) :
  Forall2 (fun f g =>
             f_id g = f_id f /\ f_geometry g = f_geometry f
             /\ (forall key v, getProp key f = Some v -> getProp key g = Some v))
          created (onDrawCreate created).
Proof.
  induction created as [|f rest IH]; [constructor |].
  cbn [onDrawCreate]. pose proof (createDefaults_keeps f) as Hkeeps.
  destruct (createDefaults f) as [g ok]. cbn [fst] in Hkeeps.
  destruct ok; constructor; try done.
  apply Forall2_refl_list. by intros x.
Qed.

(** X28: After the [draw.create] listener the first created feature has a
    [fillColor] and a [fillOpacity]; when no feature made the loop raise,
    every created feature has them together with a [fillRgb]. *)
Theorem onDrawCreate_defaults (created : list Feature) :
  (forall f, head (onDrawCreate created) = Some f ->
             is_Some (getProp "fillColor" f) /\ is_Some (getProp "fillOpacity" f))
  /\ (Forall (fun f => (createDefaults f).2 = true) created ->
      Forall (fun g => is_Some (getProp "fillColor" g)
                       /\ is_Some (getProp "fillOpacity" g)
                       /\ is_Some (getProp "fillRgb" g))
             (onDrawCreate created)).
Proof.
  split.
  - destruct created as [|f0 rest]; [done |]. cbn [onDrawCreate].
    pose proof (createDefaults_fills f0) as (Hc & Ho & _).
    destruct (createDefaults f0) as [g ok]. cbn [fst] in *.
    destruct ok; by intros f [= <-].
  - induction 1 as [|f0 rest Hok _ IH]; [constructor |]. cbn [onDrawCreate].
    pose proof (createDefaults_fills f0) as (Hc & Ho & Hr).
    destruct (createDefaults f0) as [g ok]. cbn [fst snd] in *. subst ok.
    constructor; [| done]. by repeat split; [| | apply Hr].
Qed.

End CreateFacts.

Lemma onDrawCreate_defaults_red :
  Forall (fun g => is_Some (getProp "fillColor" g)
                   /\ is_Some (getProp "fillOpacity" g)
                   /\ is_Some (getProp "fillRgb" g))
         (onDrawCreate [redPolygon]).
Proof.
  apply (onDrawCreate_defaults [redPolygon]).
  apply Forall_cons. split; [reflexivity | by apply Forall_nil].
Defined.

(** ** Where vertex labels are put *)

Section LabelPositions.

Context (atan2 : Q -> Q -> Q) (PI : Q).

Lemma positions_of_lineEntries (coords : list Position) :
  coord <$> lineEntries atan2 PI coords = coords.
Proof.
  unfold lineEntries. rewrite fmap_imap.
  rewrite (imap_ext _ (fun _ c => c)); [| done].
  rewrite (imap_const id). apply list_fmap_id.
Qed.

Lemma dedupLoop_sublist (entries : list VertEntry) :
  forall (seen : gset string) (unique : list VertEntry),
  exists kept,
    dedupLoop entries seen unique = unique ++ kept /\ kept `sublist_of` entries.
Proof.
  induction entries as [|e rest IH]; intros seen unique; cbn [dedupLoop].
  - exists []. by rewrite app_nil_r.
  - cbv zeta. destruct (decide (vertexKey e ∈ seen)).
    + destruct (IH seen unique) as (kept & -> & Hsub).
      exists kept. split; [done | by apply sublist_cons].
    + destruct (IH ({[vertexKey e]} ∪ seen) (unique ++ [e])) as (kept & -> & Hsub).
      exists (e :: kept). split; [by rewrite <- app_assoc | by apply sublist_skip].
Qed.

Lemma collected_positions :
  forall geometry : Geometry,
    coord <$> collectVertexEntriesFromGeometry atan2 PI geometry []
    `sublist_of` positionsOf geometry.
Proof.
  fix IH 1. intros [p | ps | ps | lines | rings | polygons | geometries];
    cbn [collectVertexEntriesFromGeometry positionsOf app].
  - done.
  - by rewrite positions_of_lineEntries.
  - by rewrite positions_of_lineEntries.
  - rewrite (fold_left_push _ (lineEntries atan2 PI)) by done. cbn [app].
    induction lines as [|line lines IHl]; [done |].
    rewrite fmap_cons, !concat_cons, fmap_app, positions_of_lineEntries.
    by apply sublist_app.
  - destruct rings as [|ring holes]; [done |].
    rewrite positions_of_ringEntries, concat_cons. by apply sublist_inserts_r.
  - rewrite (fold_left_push _
               (fun polygon => match polygon with
                               | [] => []
                               | ring :: _ => ringEntries atan2 PI ring
                               end)).
    2: { intros o [|ring polygon]; by rewrite ?app_nil_r. }
    cbn [app]. induction polygons as [|polygon polygons IHp]; [done |].
    rewrite fmap_cons. cbn [map]. rewrite !concat_cons, fmap_app.
    apply sublist_app; [| done].
    destruct polygon as [|ring holes]; [apply sublist_nil_l |].
    rewrite positions_of_ringEntries, concat_cons. by apply sublist_inserts_r.
  - induction geometries as [|g gs IHg]; [done |].
    change (coord <$> collectVertexEntriesFromGeometry atan2 PI (GeometryCollection gs)
                        (collectVertexEntriesFromGeometry atan2 PI g [])
            `sublist_of` positionsOf g ++ positionsOf (GeometryCollection gs)).
    rewrite collectVertexEntriesFromGeometry_app, fmap_app.
    apply sublist_app; [apply IH | apply IHg].
Qed.

(** X9: Vertex labels are put on positions of the drawn geometry only, in
    the order of the collection. *)
Theorem vertex_labels_on_positions (collection : FeatureCollection) :
  coord <$> extractVertexEntriesFromFeatureCollection atan2 PI collection
  `sublist_of` collectionPositions collection.
Proof.
  unfold extractVertexEntriesFromFeatureCollection.
  destruct (dedupLoop_sublist (collectVertexEntries atan2 PI collection) ∅ [])
    as (kept & -> & Hsub).
  cbn [app]. transitivity (coord <$> collectVertexEntries atan2 PI collection).
  { by apply fmap_sublist. }
  unfold collectVertexEntries, collectionPositions.
  rewrite (fold_left_push _
             (fun feature => match f_geometry feature with
                             | None => []
                             | Some g => collectVertexEntriesFromGeometry atan2 PI g []
                             end)).
  2: { intros o x. destruct (f_geometry x); [| by rewrite app_nil_r].
       apply collectVertexEntriesFromGeometry_app. }
  cbn [app]. clear kept Hsub. induction collection as [|f rest IH]; [done |].
  rewrite !fmap_cons, !concat_cons, fmap_app.
  apply sublist_app; [| done].
  unfold featurePositions. destruct (f_geometry f); [apply collected_positions | done].
Qed.

End LabelPositions.

(** ** Coordinate labels before a pass, and the loading paths *)

Section LabelFacts.

Context (atan2 : Q -> Q -> Q) (PI : Q).

Implicit Types (m : MapEngine) (id : string) (collection features : FeatureCollection).

Lemma withoutLayers_absorb (ids : list string) id (stack : list Layer) :
  id ∈ ids -> withoutLayers ids (withoutLayers [id] stack) = withoutLayers ids stack.
Proof.
  intros Hid. rewrite withoutLayers_twice. unfold withoutLayers.
  apply filter_ext. intros l. f_equal. cbn [app existsb].
  destruct (String.eqb (layer_id l) id) eqn:Hl; [| done].
  apply String.eqb_eq in Hl. cbn [orb]. symmetry. apply existsb_exists.
  exists id. split; [by apply list_elem_of_In | by apply String.eqb_eq].
Qed.

Lemma withoutLayers_insertBefore (ids : list string) before (l : Layer)
    (stack : list Layer) :
  layer_id l ∈ ids ->
  withoutLayers ids (insertBefore before l stack) = withoutLayers ids stack.
Proof.
  intros Hl.
  assert (negb (existsb (String.eqb (layer_id l)) ids) = false) as Hout.
  { apply negb_false_iff, existsb_exists. exists (layer_id l).
    split; [by apply list_elem_of_In | apply String.eqb_refl]. }
  unfold withoutLayers.
  induction stack as [|x stack IH]; cbn [insertBefore List.filter].
  - by rewrite Hout.
  - destruct (String.eqb (layer_id x) before); cbn [List.filter].
    + by rewrite Hout.
    + by rewrite IH.
Qed.

Lemma withoutLayers_moveStack (ids : list string) id (before : option string)
    (stack : list Layer) :
  id ∈ ids ->
  withoutLayers ids (moveStack id before stack) = withoutLayers ids stack.
Proof.
  intros Hid. unfold moveStack, moveLayer, getLayer. cbn [layers].
  destruct (find _ stack) as [l|] eqn:Hfind; [| done]. cbn [layers].
  apply find_some in Hfind as [_ Hl]. apply String.eqb_eq in Hl.
  assert (List.filter (fun x => negb (String.eqb (layer_id x) id)) stack
          = withoutLayers [id] stack) as ->.
  { unfold withoutLayers. apply filter_ext. intros x. cbn. by rewrite orb_false_r. }
  destruct before as [b|].
  - rewrite withoutLayers_insertBefore by by rewrite Hl.
    by apply withoutLayers_absorb.
  - rewrite withoutLayers_app, withoutLayers_absorb by done.
    unfold withoutLayers at 2. cbn [List.filter]. rewrite Hl.
    assert (negb (existsb (String.eqb id) ids) = false) as ->; [| apply app_nil_r].
    apply negb_false_iff, existsb_exists. exists id.
    split; [by apply list_elem_of_In | apply String.eqb_refl].
Qed.

Lemma withoutLayers_moveBelowStack (ids : list string) id before (stack : list Layer) :
  id ∈ ids ->
  withoutLayers ids (moveBelowStack id before stack) = withoutLayers ids stack.
Proof.
  intros Hid. unfold moveBelowStack.
  destruct (find _ stack); [| done]. destruct (find _ stack); [| done].
  by apply withoutLayers_moveStack.
Qed.

Lemma foreign_layers_upsertCoordinateLabels m collection :
  withoutLayers managedLayerIds (layers (upsertCoordinateLabels atan2 PI m collection))
  = withoutLayers managedLayerIds (layers m).
Proof.
  unfold upsertCoordinateLabels. cbv zeta.
  destruct (extractVertexEntriesFromFeatureCollection atan2 PI collection)
    as [|e0 entries].
  all: cbn [fold_left customLayerIds tiers].
  all: rewrite ?addTier_any.
  all: repeat first
         [ rewrite layers_moveBelow | rewrite layers_dropSource | rewrite layers_dropLayer
         | rewrite layers_addLayer | rewrite layers_addSource ].
  all: repeat first
         [ rewrite withoutLayers_moveBelowStack
             by (apply list_elem_of_In; cbn; tauto)
         | rewrite withoutLayers_app
         | rewrite withoutLayers_absorb by (apply list_elem_of_In; cbn; tauto) ].
  all: rewrite ?app_nil_r; try reflexivity.
  all: repeat (rewrite <- app_assoc).
  all: rewrite <- (app_nil_r (withoutLayers managedLayerIds (layers m))) at 2.
  all: f_equal; vm_compute; reflexivity.
Qed.

Lemma foreign_sources_upsertCoordinateLabels m collection id :
  existsb (String.eqb id) managedSourceIds = false ->
  sources (upsertCoordinateLabels atan2 PI m collection) !! id = sources m !! id.
Proof.
  intros Hid. cbn [existsb managedSourceIds] in Hid.
  repeat (apply orb_false_elim in Hid as [? Hid]).
  repeat match goal with
         | H : String.eqb _ _ = false |- _ => apply String.eqb_neq in H
         end.
  unfold upsertCoordinateLabels. cbv zeta.
  destruct (extractVertexEntriesFromFeatureCollection atan2 PI collection)
    as [|e0 entries].
  all: cbn [fold_left customLayerIds tiers].
  all: rewrite ?addTier_any.
  all: repeat first
         [ rewrite sources_moveBelow | rewrite sources_dropSource
         | rewrite sources_dropLayer | rewrite sources_addLayer
         | rewrite sources_addSource ].
  all: cbn [tierSource fst snd tier_id].
  all: repeat first
         [ rewrite lookup_insert_ne by congruence
         | rewrite lookup_delete_ne by congruence ].
  all: reflexivity.
Qed.

(** Redrawing the coordinate labels before a synchroniser pass is
    redundant: the pass gives the same map without it. *)
Lemma pass_after_labels m collection features :
  updateCustomColoredLayer atan2 PI (upsertCoordinateLabels atan2 PI m collection) features
  = updateCustomColoredLayer atan2 PI m features.
Proof.
  apply MapEngine_eq.
  - apply map_eq. intros id. rewrite !sources_after_pass.
    destruct (overlaySource atan2 PI features id); [done |].
    destruct (existsb (String.eqb id) managedSourceIds) eqn:Hid; [done |].
    by apply foreign_sources_upsertCoordinateLabels.
  - rewrite !layers_after_pass. by rewrite foreign_layers_upsertCoordinateLabels.
  - by rewrite !updateCustomColoredLayer_fitted, upsertCoordinateLabels_fitted.
Qed.

End LabelFacts.

Section LoadingEffects.

Context (atan2 : Q -> Q -> Q) (PI : Q) (hat : nat -> string).

Implicit Types (c : Component) (m : MapEngine) (d : DrawStore) (id : string).

(** In the run in which no library call raises, the map [loadGeoJson]
    leaves is the one a single synchroniser pass over the loaded
    collection gives on the map, fitted when fitting is wanted. *)
Lemma loadGeoJson_is_one_pass (collection : FeatureCollection)
    (options : option LoadOptions) c m d :
  mapRef c = Some m ->
  drawRef c = Some d ->
  let loaded := (fun f => withProperties f (propsOf f)) <$> collection in
  mapRef (loadGeoJson atan2 PI hat collection options c)
  = Some (updateCustomColoredLayer atan2 PI
            (if wantsFit options then fitToCollection m loaded else m) loaded).
Proof.
  intros Hm Hd loaded. unfold loadGeoJson. rewrite Hm, Hd. cbn [mapRef].
  f_equal. apply pass_after_labels.
Qed.





End LoadingEffects.

Lemma hexToRgb_agrees_without_zero_channel_blue :
  hexToRgb "#3bb2d0" = spec_fillRgb "#3bb2d0".
Proof.
  apply (hexToRgb_agrees_without_zero_channel "3" "b" "b" "2" "d" "0" 3 11 11 2 13 0);
    first [reflexivity | discriminate].
Defined.

(** ** Bounds and loading with the exceptions of the libraries *)

Section RaisingFacts.

Lemma forEach_total {A S : Type} (body : S -> A -> option S) (pure : S -> A -> S)
    (ok : A -> bool) (l : list A) :
  (forall s x, body s x = if ok x then Some (pure s x) else None) ->
  forall s, forEach body l s = if forallb ok l then Some (fold_left pure l s) else None.
Proof.
  intros Hbody. induction l as [|x l IH]; intros s; [done |].
  cbn [forEach forallb fold_left]. rewrite Hbody. destruct (ok x); [apply IH | done].
Qed.

Lemma forallb_concat {A : Type} (p : A -> bool) (ls : list (list A)) :
  forallb (forallb p) ls = forallb p (concat ls).
Proof.
  induction ls as [|l ls IH]; [done |].
  cbn [forallb]. by rewrite concat_cons, forallb_app, IH.
Qed.

Lemma forEach_extend (ps : list Position) (b : Bounds) :
  forEach Raising.extend ps b
  = if forallb lngLatAccepts ps then Some (fold_left extend ps b) else None.
Proof. by apply forEach_total. Qed.

Lemma forEach_extend_lines (lines : list (list Position)) (b : Bounds) :
  forEach (fun b line => forEach Raising.extend line b) lines b
  = if forallb lngLatAccepts (concat lines)
    then Some (fold_left (fun b line => fold_left extend line b) lines b) else None.
Proof.
  rewrite <- forallb_concat.
  apply (forEach_total _ (fun b line => fold_left extend line b) (forallb lngLatAccepts)).
  intros s line. apply forEach_extend.
Qed.

Lemma extendBoundsWithGeometry_raising :
  forall (geometry : Geometry) (bounds : Bounds),
    Raising.extendBoundsWithGeometry bounds geometry
    = if forallb lngLatAccepts (positionsOf geometry)
      then Some (extendBoundsWithGeometry bounds geometry) else None.
Proof.
  fix IH 1. intros [p | ps | ps | lines | rings | polygons | geometries] bounds;
    cbn [Raising.extendBoundsWithGeometry extendBoundsWithGeometry positionsOf].
  - unfold Raising.extend. cbn [forallb]. by rewrite andb_true_r.
  - apply forEach_extend.
  - apply forEach_extend.
  - apply forEach_extend_lines.
  - apply forEach_extend_lines.
  - etransitivity.
    { apply (forEach_total _
               (fun b polygon => fold_left (fun b line => fold_left extend line b) polygon b)
               (fun polygon => forallb lngLatAccepts (concat polygon))).
      intros s polygon. apply forEach_extend_lines. }
    rewrite <- forallb_concat.
    assert (forallb (fun polygon => forallb lngLatAccepts (concat polygon)) polygons
            = forallb (forallb lngLatAccepts) (map (@concat Position) polygons)) as ->;
      [| done].
    induction polygons as [|polygon polygons IHp]; [done |].
    cbn [forallb map]. by rewrite IHp.
  - revert bounds. induction geometries as [|g gs IHg]; intros bounds; [done |].
    rewrite forallb_app, (IH g).
    destruct (forallb lngLatAccepts (positionsOf g)); [apply IHg | done].
Qed.

Lemma forEach_extendBoundsWithFeature (collection : FeatureCollection) (bounds : Bounds) :
  forEach Raising.extendBoundsWithFeature collection bounds
  = if forallb lngLatAccepts (collectionPositions collection)
    then Some (fold_left extendBoundsWithFeature collection bounds) else None.
Proof.
  etransitivity.
  { apply (forEach_total _ extendBoundsWithFeature
             (fun f => forallb lngLatAccepts (featurePositions f))).
    intros s f. unfold Raising.extendBoundsWithFeature, extendBoundsWithFeature,
      featurePositions.
    destruct (f_geometry f); [apply extendBoundsWithGeometry_raising | done]. }
  unfold collectionPositions. rewrite <- forallb_concat.
  assert (forallb (fun f => forallb lngLatAccepts (featurePositions f)) collection
          = forallb (forallb lngLatAccepts) (featurePositions <$> collection)) as ->;
    [| done].
  induction collection as [|f fs IH]; [done |].
  rewrite fmap_cons. cbn [forallb]. by rewrite IH.
Qed.

(** [fitToCollection] with the exceptions, by the bounds it computes
    when nothing raises. *)
Lemma fitToCollection_raising (m : MapEngine) (collection : FeatureCollection) :
  Raising.fitToCollection m collection
  = match collectionBounds collection with
    | None => Some m
    | Some bounds =>
        if forallb lngLatAccepts (collectionPositions collection)
        then Some (fitBounds bounds m) else None
    end.
Proof.
  unfold Raising.fitToCollection, collectionBounds.
  destruct collection as [|first rest]; [done |].
  destruct (getFirstCoordinate first) as [c|] eqn:Hc; [| done].
  rewrite forEach_extendBoundsWithFeature.
  destruct (lngLatAccepts c) eqn:Hok; [by destruct (forallb _ _) |].
  rewrite getFirstCoordinate_first in Hc.
  unfold collectionPositions. rewrite fmap_cons, concat_cons.
  destruct (featurePositions first) as [|p ps]; [done |]. injection Hc as ->.
  cbn [app forallb]. by rewrite Hok.
Qed.

Lemma fitBounds_changes (b : Bounds) (m : MapEngine) : fitBounds b m <> m.
Proof.
  intros Heq. apply (f_equal (fun x => length (fitted x))) in Heq.
  cbn in Heq. rewrite length_app in Heq. cbn in Heq. lia.
Qed.

(** X3: [fitToCollection] returns without fitting exactly when the
    collection is empty or its first feature has no position; otherwise
    it raises when some position of the collection has a latitude outside
    [-90, 90], and else fits the map once, to the bounds of the
    collection. *)
Theorem fitToCollection_outcome (m : MapEngine) (collection : FeatureCollection) :
  let nothingToFit :=
    match collection with
    | [] => True
    | first :: _ => featurePositions first = []
    end in
  (Raising.fitToCollection m collection = Some m <-> nothingToFit)
  /\ (~ nothingToFit ->
      if forallb lngLatAccepts (collectionPositions collection)
      then exists bounds,
             collectionBounds collection = Some bounds
             /\ Raising.fitToCollection m collection = Some (fitBounds bounds m)
      else Raising.fitToCollection m collection = None).
Proof.
  cbn zeta. rewrite fitToCollection_raising.
  pose proof (collectionBounds_none collection) as Hnone.
  destruct (collectionBounds collection) as [bounds|].
  - assert (~ match collection with
              | [] => True
              | first :: _ => featurePositions first = []
              end) as Hsome.
    { intros H. by apply Hnone in H. }
    split.
    + split; [| done]. destruct (forallb _ _); [| done].
      intros [= Heq]. by apply fitBounds_changes in Heq.
    + intros _. destruct (forallb _ _); [by exists bounds | done].
  - split; [split; [intros _; by apply Hnone | done] |].
    intros H. destruct H. by apply Hnone.
Qed.

End RaisingFacts.

Section LoadingWithExceptions.

Context (atan2 : Q -> Q -> Q) (PI : Q) (hat : nat -> string).

Implicit Types (c : Component) (m : MapEngine) (d : DrawStore)
  (collection : FeatureCollection) (options : option LoadOptions).

Lemma draw_accepts_properties collection :
  forallb draw_accepts ((fun f => withProperties f (propsOf f)) <$> collection)
  = forallb draw_accepts collection.
Proof.
  induction collection as [|f fs IH]; [done |].
  rewrite fmap_cons. cbn [forallb]. by rewrite IH.
Qed.

Lemma collectionPositions_properties collection :
  collectionPositions ((fun f => withProperties f (propsOf f)) <$> collection)
  = collectionPositions collection.
Proof.
  unfold collectionPositions. induction collection as [|f fs IH]; [done |].
  rewrite !fmap_cons, !concat_cons. by rewrite IH.
Qed.

(** Whether fitting the collection raises. *)
Lemma fitToCollection_returns m collection :
  Raising.fitToCollection m collection
  = if match collectionBounds collection with
       | Some _ => forallb lngLatAccepts (collectionPositions collection)
       | None => true
       end
    then Some (fitToCollection m collection) else None.
Proof.
  rewrite fitToCollection_raising. unfold fitToCollection.
  by destruct (collectionBounds collection).
Qed.

(** [loadGeoJson] with the exceptions: it returns what it does when
    nothing raises, or raises. *)
Lemma loadGeoJson_raising collection options c m d :
  mapRef c = Some m -> drawRef c = Some d ->
  Raising.loadGeoJson atan2 PI hat collection options c
  = if forallb draw_accepts collection
       && (negb (wantsFit options)
           || match collectionBounds collection with
              | Some _ => forallb lngLatAccepts (collectionPositions collection)
              | None => true
              end)
    then Some (loadGeoJson atan2 PI hat collection options c) else None.
Proof.
  intros Hm Hd. unfold Raising.loadGeoJson, loadGeoJson, Raising.draw_set.
  rewrite Hm, Hd. cbv zeta. rewrite draw_accepts_properties.
  destruct (forallb draw_accepts collection); [| done]. cbn [andb].
  destruct (wantsFit options); [| done]. cbn [negb orb].
  rewrite fitToCollection_returns, collectionBounds_properties,
    collectionPositions_properties.
  by destruct (match collectionBounds collection with
               | Some _ => forallb lngLatAccepts (collectionPositions collection)
               | None => true
               end).
Qed.


End LoadingWithExceptions.

(** C10, as the specification states it, fails: with the options omitted,
    loading a collection whose first feature is a line without coordinates
    returns and fits nothing, though the polygon after it has positions. *)
Lemma C10_nothing_fitted_without_first_coordinate :
  ~ (forall (atan2 : Q -> Q -> Q) (PI : Q) (hat : nat -> string)
            (collection : FeatureCollection) (c c' : Component) (m : MapEngine)
            (d : DrawStore),
        mapRef c = Some m -> drawRef c = Some d ->
        Raising.loadGeoJson atan2 PI hat collection None c = Some c' ->
        exists m' bounds, mapRef c' = Some m' /\ fitted m' = fitted m ++ [bounds]).
Proof.
  intros H.
  destruct (H zeroAtan2 3%Q constantHat [emptyLine; squareFeature] squareUnselected
              (loadGeoJson zeroAtan2 3%Q constantHat [emptyLine; squareFeature] None
                 squareUnselected)
              emptyMap (mkDraw [squareFeature] [] 0) eq_refl eq_refl)
    as (m' & bounds & Hm' & Hfitted).
  - by rewrite (loadGeoJson_raising zeroAtan2 3%Q constantHat _ _ _ emptyMap
                  (mkDraw [squareFeature] [] 0)).
  - destruct (loadGeoJson_fitted zeroAtan2 3%Q constantHat [emptyLine; squareFeature] None
                squareUnselected emptyMap (mkDraw [squareFeature] [] 0) eq_refl eq_refl)
      as (m'' & Hm'' & Hf).
    rewrite Hm' in Hm''. injection Hm'' as <-. rewrite Hf in Hfitted.
    cbn in Hfitted. discriminate Hfitted.
Qed.

Section LoadingOutcomes.

Context (atan2 : Q -> Q -> Q) (PI : Q) (hat : nat -> string).

Implicit Types (c : Component) (m : MapEngine) (d : DrawStore)
  (collection : FeatureCollection) (options : option LoadOptions).

(** C10 (amended): on an initialised component [loadGeoJson] raises
    exactly when [draw.set] refuses a feature of the collection or when,
    with [fitBounds] other than [false] and a first feature that has a
    coordinate, some position has a latitude outside [-90, 90].  When it
    returns, it has fitted the map once to the bounds of the collection
    if the options are omitted or [fitBounds] is undefined or [true] and
    the first feature has a coordinate, and has fitted nothing if
    [fitBounds] is [false], the collection is empty or its first feature
    has no coordinate: there are no bounds exactly then.  The bounds
    contain every position of the collection and lie within every box
    that does. *)
Theorem C10_loadGeoJson_fits_by_default collection options c m d :
  mapRef c = Some m ->
  drawRef c = Some d ->
  let fits :=
    match options with
    | Some {| fitBoundsOption := Some false |} => false
    | _ => true
    end in
  let run := Raising.loadGeoJson atan2 PI hat collection options c in
  (run = None
   <-> forallb draw_accepts collection = false
       \/ (fits = true /\ is_Some (collectionBounds collection)
           /\ forallb lngLatAccepts (collectionPositions collection) = false))
  /\ (forall c', run = Some c' ->
        exists m', mapRef c' = Some m'
                   /\ fitted m'
                      = fitted m ++ (if fits then option_list (collectionBounds collection)
                                     else []))
  /\ (collectionBounds collection = None
      <-> match collection with
          | [] => True
          | first :: _ => getFirstCoordinate first = None
          end)
  /\ (forall bounds, collectionBounds collection = Some bounds ->
        (forall p, p ∈ collectionPositions collection -> encloses bounds p)
        /\ (forall outer,
               (forall p, p ∈ collectionPositions collection -> encloses outer p) ->
               within bounds outer)).
Proof.
  intros Hm Hd fits run.
  assert (wantsFit options = fits) as Hfits.
  { unfold fits. by destruct options as [[[[|]|]]|]. }
  unfold run. rewrite (loadGeoJson_raising atan2 PI hat collection options c m d Hm Hd).
  rewrite Hfits. split; [| split; [| split]].
  - destruct (forallb draw_accepts collection); cbn [andb].
    2: { split; [by left | done]. }
    destruct fits; cbn [negb orb].
    2: { split; [done |]. intros [? | (? & _)]; done. }
    destruct (collectionBounds collection) as [bounds|].
    2: { split; [done |]. intros [? | (_ & [? ?] & _)]; done. }
    destruct (forallb lngLatAccepts (collectionPositions collection)).
    + split; [done |]. intros [? | (_ & _ & ?)]; done.
    + split; [| done]. intros _. right. split; [done |]. split; [by eexists | done].
  - intros c' Hrun.
    destruct (forallb draw_accepts collection
              && (negb fits
                  || match collectionBounds collection with
                     | Some _ => forallb lngLatAccepts (collectionPositions collection)
                     | None => true
                     end)); [| done].
    injection Hrun as <-.
    destruct (loadGeoJson_fitted atan2 PI hat collection options c m d Hm Hd)
      as (m' & Hm' & Hfitted).
    exists m'. split; [done |]. rewrite Hfitted, Hfits.
    destruct fits; [apply fitToCollection_fitted | by rewrite app_nil_r].
  - clear. unfold collectionBounds. destruct collection as [|first rest]; [done |].
    by destruct (getFirstCoordinate first).
  - intros bounds (first & rest & c0 & -> & Hc0 & ->)%collectionBounds_some. split.
    + intros p Hp. by apply encloses_fold_extend.
    + intros outer Houter. apply fold_extend_least; [| done].
      rewrite getFirstCoordinate_first in Hc0.
      assert (encloses outer c0) as (H1 & H2 & H3 & H4).
      { apply Houter, (proj2 (collectionPositions_elem (first :: rest) c0)).
        exists first. split; [left |].
        destruct (featurePositions first); [done |]. injection Hc0 as ->. left. }
      unfold within. cbn. done.
Qed.

(** X29: when [loadGeoJson] returns on an initialised component, the map
    it leaves is the one a single synchroniser pass over the loaded
    collection gives on the map, fitted when fitting is wanted: the
    coordinate labels it draws by itself before the pass make no
    difference. *)
Theorem loadGeoJson_returns_one_pass collection options c c' m d :
  mapRef c = Some m ->
  drawRef c = Some d ->
  Raising.loadGeoJson atan2 PI hat collection options c = Some c' ->
  let loaded := (fun f => withProperties f (propsOf f)) <$> collection in
  mapRef c'
  = Some (updateCustomColoredLayer atan2 PI
            (if wantsFit options then fitToCollection m loaded else m) loaded).
Proof.
  intros Hm Hd Hrun loaded.
  rewrite (loadGeoJson_raising atan2 PI hat collection options c m d Hm Hd) in Hrun.
  destruct (forallb draw_accepts collection && _); [| done]. injection Hrun as <-.
  by apply (loadGeoJson_is_one_pass atan2 PI hat collection options c m d).
Qed.


End LoadingOutcomes.

(** A line that leaves the range of latitudes is not fitted: the call
    raises. *)
Lemma fitToCollection_outcome_polar :
  Raising.fitToCollection emptyMap [polarLine] = None.
Proof.
  destruct (fitToCollection_outcome emptyMap [polarLine]) as [_ Hraises].
  apply Hraises. discriminate.
Defined.

(** C10 (amended) at the unit square, loaded with the options omitted. *)
Lemma C10_loadGeoJson_fits_by_default_square :
  exists c' m',
    Raising.loadGeoJson zeroAtan2 3 constantHat [squareFeature] None squareUnselected
    = Some c'
    /\ mapRef c' = Some m'
    /\ fitted m' = [mkBounds (0, 0)%Q (2, 2)%Q].
Proof.
  destruct (C10_loadGeoJson_fits_by_default zeroAtan2 3 constantHat [squareFeature] None
              squareUnselected emptyMap (mkDraw [squareFeature] [] 0) eq_refl eq_refl)
    as (_ & Hreturns & _ & _).
  eexists.
  destruct (Hreturns (loadGeoJson zeroAtan2 3 constantHat [squareFeature] None
                        squareUnselected)) as (m' & Hm' & Hfitted).
  - by rewrite (loadGeoJson_raising zeroAtan2 3 constantHat _ _ _ emptyMap
                  (mkDraw [squareFeature] [] 0)).
  - exists m'. split; [| split; [exact Hm' | exact Hfitted]].
    by rewrite (loadGeoJson_raising zeroAtan2 3 constantHat _ _ _ emptyMap
                  (mkDraw [squareFeature] [] 0)).
Defined.

(** The unit square, loaded with the options omitted. *)
Lemma loadGeoJson_returns_one_pass_square :
  mapRef (loadGeoJson zeroAtan2 3 constantHat [squareFeature] None squareUnselected)
  = Some (updateCustomColoredLayer zeroAtan2 3
            (fitToCollection emptyMap [withProperties squareFeature ∅])
            [withProperties squareFeature ∅]).
Proof.
  apply (loadGeoJson_returns_one_pass zeroAtan2 3 constantHat [squareFeature] None
           squareUnselected _ emptyMap (mkDraw [squareFeature] [] 0) eq_refl eq_refl).
  by rewrite (loadGeoJson_raising zeroAtan2 3 constantHat _ _ _ emptyMap
                (mkDraw [squareFeature] [] 0)).
Defined.

